(** * Short.ly: short-link creation, cache-aside resolution and referrer
      analytics

    A shallow embedding of the use cases of the Short.ly URL shortener
    ([CreateShortUrl], [ResolveUrl], [GetUrlAnalytics]), of the [Url]
    entity, of the repositories they call and of the [ShortenerService]
    facade, together with the properties of the specification that are
    settled on them.

    JavaScript strings are modelled as byte strings, the UTF-8 encoding of
    the text.  [startsWith], [endsWith], [slice(0, -1)], concatenation and
    the alias pattern look at ASCII characters, which are single bytes
    that never occur inside a multi-byte sequence; [trim], which the
    schema applies to three fields, also removes white space outside
    ASCII and is given on the encodings of those characters. *)

From Stdlib Require Import ZArith String Ascii List Lia Bool.
From Stdlib Require Import Sorting.Sorted Sorting.Permutation.
From stdpp Require Import base gmap strings list.

Open Scope string_scope.

(** ** JavaScript string primitives used by the code *)

Module Js.

(** [s.startsWith(p)] *)
Definition startsWith (s p : string) : bool := String.prefix p s.

(** [s.endsWith(p)]: some suffix of [s] is [p]. *)
Fixpoint endsWith (s p : string) : bool :=
  String.eqb s p ||
  match s with
  | EmptyString => false
  | String _ r => endsWith r p
  end.

(** [s.slice(0, -1)]: the end index is [max (length - 1) 0]. *)
Definition slice_0_m1 (s : string) : string :=
  substring 0 (String.length s - 1) s.

(** Truthiness of a string value: only the empty string is falsy. *)
Definition truthy (s : string) : bool := negb (String.eqb s "").

(** [s.includes(p)]: [p] occurs somewhere in [s]. *)
Fixpoint includes (s p : string) : bool :=
  String.prefix p s ||
  match s with
  | EmptyString => false
  | String _ r => includes r p
  end.

(** The white space and line terminators of the language, as byte strings:
    TAB, LF, VT, FF, CR, SP and the UTF-8 encodings of U+00A0, U+1680,
    U+2000 to U+200A, U+2028, U+2029, U+202F, U+205F, U+3000 and U+FEFF. *)
Definition white_space : list (list ascii) :=
  map (map ascii_of_nat)
    [[9]; [10]; [11]; [12]; [13]; [32]; [194; 160]; [225; 154; 128];
     [226; 128; 128]; [226; 128; 129]; [226; 128; 130]; [226; 128; 131];
     [226; 128; 132]; [226; 128; 133]; [226; 128; 134]; [226; 128; 135];
     [226; 128; 136]; [226; 128; 137]; [226; 128; 138]; [226; 128; 168];
     [226; 128; 169]; [226; 128; 175]; [226; 129; 159]; [227; 128; 128];
     [239; 187; 191]]%nat.

(** What is left of [l] once the prefix [p] is taken off. *)
Fixpoint strip (p l : list ascii) : option (list ascii) :=
  match p, l with
  | [], _ => Some l
  | c :: p', x :: l' => if Ascii.eqb x c then strip p' l' else None
  | _ :: _, [] => None
  end.

Fixpoint strip_any (ps : list (list ascii)) (l : list ascii)
  : option (list ascii) :=
  match ps with
  | [] => None
  | p :: r =>
      match strip p l with
      | Some l' => Some l'
      | None => strip_any r l
      end
  end.

(** Prefixes among [ps] are taken off as long as there is one. *)
Fixpoint drop_all (fuel : nat) (ps : list (list ascii)) (l : list ascii)
  : list ascii :=
  match fuel with
  | O => l
  | S n =>
      match strip_any ps l with
      | Some l' => drop_all n ps l'
      | None => l
      end
  end.

Definition trim_list (l : list ascii) : list ascii :=
  let l1 := drop_all (length l) white_space l in
  rev (drop_all (length l1) (map (@rev ascii) white_space) (rev l1)).

(** [s.trim()] *)
Definition trim (s : string) : string :=
  string_of_list_ascii (trim_list (list_ascii_of_string s)).

Arguments trim : simpl never.

(** A byte that occurs in the encoding of some white space character. *)
Definition ws_byte (c : ascii) : bool :=
  existsb (existsb (Ascii.eqb c)) white_space.

End Js.

(** ** CreateShortUrl._normalizeUrl *)

Definition has_http_prefix (url : string) : bool :=
  Js.startsWith url "http://" || Js.startsWith url "https://".

Definition ensure_protocol (url : string) : string :=
  if negb (Js.startsWith url "http://") && negb (Js.startsWith url "https://")
  then "https://" +:+ url
  else url.

Definition remove_trailing_slash (url : string) : string :=
  if Js.endsWith url "/" then Js.slice_0_m1 url else url.

Definition _normalizeUrl (url : string) : string :=
  remove_trailing_slash (ensure_protocol url).

(** ** The URL parser of the runtime

    Modelled from the WHATWG URL Standard, which specifies the [URL]
    constructor that [Url._validate] calls.  The constructor is a built-in
    of the runtime, not code of this repository.  The model is the
    basic URL parser without a base URL, for the schemes that take the
    "special authority" path (http, https, ws, wss, ftp).  A verdict is
    given only where the standard's answer does not depend on IDNA
    processing, percent-decoding, or the IPv4 and IPv6 parsers; every other
    input is [Unmodelled]. *)

Module WhatwgUrl.

Local Open Scope nat_scope.

Inductive verdict := Accepted | Failure | Unmodelled.

Definition code (c : ascii) : nat := nat_of_ascii c.

Definition is_c0_or_space (c : ascii) : bool := code c <=? 32.
Definition is_tab_or_newline (c : ascii) : bool :=
  (code c =? 9) || (code c =? 10) || (code c =? 13).
Definition is_upper (c : ascii) : bool := (65 <=? code c) && (code c <=? 90).
Definition is_lower (c : ascii) : bool := (97 <=? code c) && (code c <=? 122).
Definition is_alpha (c : ascii) : bool := is_upper c || is_lower c.
Definition is_digit (c : ascii) : bool := (48 <=? code c) && (code c <=? 57).
Definition to_lower (c : ascii) : ascii :=
  if is_upper c then ascii_of_nat (code c + 32) else c.
Definition is_char (d c : ascii) : bool := Ascii.eqb c d.

Fixpoint drop_while (p : ascii -> bool) (l : list ascii) : list ascii :=
  match l with
  | c :: r => if p c then drop_while p r else l
  | [] => []
  end.

Fixpoint take_until (p : ascii -> bool) (l : list ascii) : list ascii :=
  match l with
  | c :: r => if p c then [] else c :: take_until p r
  | [] => []
  end.

(** Leading and trailing C0 control or space are removed, then every tab
    and newline. *)
Definition preprocess (l : list ascii) : list ascii :=
  let l1 := drop_while is_c0_or_space l in
  let l2 := rev (drop_while is_c0_or_space (rev l1)) in
  List.filter (fun c => negb (is_tab_or_newline c)) l2.

(** Scheme start state and scheme state: an ASCII letter, then letters,
    digits, [+], [-], [.], then [:].  Returns the lower-cased scheme and
    the remaining input. *)
Fixpoint scan_scheme (acc l : list ascii) : option (list ascii * list ascii) :=
  match l with
  | c :: r =>
      if is_char ":" c then Some (rev acc, r)
      else if is_alpha c || is_digit c || is_char "+" c || is_char "-" c
              || is_char "." c
      then scan_scheme (to_lower c :: acc) r
      else None
  | [] => None
  end.

Definition parse_scheme (l : list ascii) : option (list ascii * list ascii) :=
  match l with
  | c :: r => if is_alpha c then scan_scheme [to_lower c] r else None
  | [] => None
  end.

Definition special_with_authority (scheme : list ascii) : bool :=
  let s := string_of_list_ascii scheme in
  String.eqb s "http" || String.eqb s "https" || String.eqb s "ws"
  || String.eqb s "wss" || String.eqb s "ftp".

Definition is_slash (c : ascii) : bool := is_char "/" c || is_char "\" c.

(** The authority state stops at [/], [\], [?], [#] or the end. *)
Definition ends_authority (c : ascii) : bool :=
  is_slash c || is_char "?" c || is_char "#" c.

(** What follows the last [@] of the authority, and whether an [@] was
    seen. *)
Fixpoint after_last_at (seen : bool) (cur l : list ascii)
  : bool * list ascii :=
  match l with
  | c :: r =>
      if is_char "@" c then after_last_at true [] r
      else after_last_at seen (c :: cur) r
  | [] => (seen, rev cur)
  end.

(** Forbidden domain code points that can still occur in the host once it
    has been cut at [:], [@], [/], [\], [?] and [#]. *)
Definition forbidden_in_domain (c : ascii) : bool :=
  (code c <=? 32) || is_char "<" c || is_char ">" c || is_char "[" c
  || is_char "]" c || is_char "^" c || is_char "|" c || (code c =? 127).

Fixpoint split_on (d : ascii) (cur : list ascii) (l : list ascii)
  : list (list ascii) :=
  match l with
  | c :: r =>
      if Ascii.eqb c d then rev cur :: split_on d [] r
      else split_on d (c :: cur) r
  | [] => [rev cur]
  end.

Definition starts_xn (label : list ascii) : bool :=
  match map to_lower label with
  | x :: n :: h1 :: h2 :: _ =>
      is_char "x" x && is_char "n" n && is_char "-" h1 && is_char "-" h2
  | _ => false
  end.

(** The last label, once one trailing empty label is dropped. *)
Definition last_label (labels : list (list ascii)) : list ascii :=
  match rev labels with
  | [] :: l :: _ => l
  | l :: _ => l
  | [] => []
  end.

(** Labels the "ends in a number" check can send to the IPv4 parser: all
    digits, or a [0x] prefix. *)
Definition may_be_ipv4_number (label : list ascii) : bool :=
  match label with
  | [] => false
  | z :: x :: _ =>
      forallb is_digit label
      || (is_char "0" z && (is_char "x" x || is_char "X" x))
  | _ => forallb is_digit label
  end.

(** Host parser for a host that is not opaque. *)
Definition parse_host (h : list ascii) : verdict :=
  match h with
  | [] => Failure
  | _ =>
      if existsb (fun c => is_char "%" c || (128 <=? code c)) h
      then Unmodelled
      else if is_char "[" (hd "a"%char h) then Unmodelled
      else if existsb forbidden_in_domain h then Failure
      else
        let labels := split_on "." [] h in
        if existsb starts_xn labels then Unmodelled
        else if may_be_ipv4_number (last_label labels) then Unmodelled
        else Accepted
  end.

Definition numeral (l : list ascii) : N :=
  fold_left (fun n c => (10 * n + N.of_nat (code c - 48))%N) l 0%N.

(** Port state: digits only, at most 65535; an empty port is accepted. *)
Definition parse_port (p : list ascii) : verdict :=
  if forallb is_digit p
  then if (numeral p <=? 65535)%N then Accepted else Failure
  else Failure.

(** Host state and port state on the part of the authority after the last
    [@].  The host ends at the first [:]; a bracketed host is left to
    [parse_host]. *)
Definition parse_host_port (hp : list ascii) : verdict :=
  if is_char "[" (hd "a"%char hp) then Unmodelled
  else
    let host := take_until (is_char ":") hp in
    let rest := drop_while (fun c => negb (is_char ":" c)) hp in
    match parse_host host with
    | Accepted =>
        match rest with
        | _ :: port => parse_port port
        | [] => Accepted
        end
    | v => v
    end.

Definition parse (input : string) : verdict :=
  match parse_scheme (preprocess (list_ascii_of_string input)) with
  | None => Failure
  | Some (scheme, rest) =>
      if special_with_authority scheme then
        let rest' := drop_while is_slash rest in
        let authority := take_until ends_authority rest' in
        let '(at_seen, hp) := after_last_at false [] authority in
        match hp with
        | [] => Failure
        | _ => parse_host_port hp
        end
      else Unmodelled
  end.

(** The strings the model is sure the constructor accepts. *)
Definition accepts (input : string) : bool :=
  match parse input with
  | Accepted => true
  | _ => false
  end.

End WhatwgUrl.

(** ** Data model *)

(** A document of the Url collection, for the fields the use cases set
    and read (the [metadata] sub-document, which only the analytics
    repository writes, is left out); dates are milliseconds since the
    epoch. *)
Record Link := mkLink {
  originalUrl : string;
  shortCode : string;
  customAlias : option string;
  userId : option string;
  createdAt : Z;
  expiresAt : option Z;
  isActive : bool
}.

(** The argument of [CreateShortUrl.execute]. *)
Record UrlData := mkUrlData {
  in_originalUrl : string;
  in_customAlias : option string;
  in_userId : option string;
  in_expiresAt : option Z
}.

(** The request data handed to [ResolveUrl.execute] for analytics. *)
Record RequestData := mkRequestData {
  rd_ip : string;
  rd_userAgent : option string;
  rd_referrer : option string
}.

(** A document of the Analytics collection, reduced to the fields the
    referrer aggregation reads. *)
Record ClickEvent := mkClickEvent {
  ev_shortCode : string;
  ev_ip : string;
  ev_referrer : option string;
  ev_timestamp : Z
}.

(** The update document handed to [MongoUrlRepository.update], for the
    fields its callers set; [Some None] for [up_expiresAt] is an explicit
    [null]. *)
Record UpdateData := mkUpdateData {
  up_shortCode : option string;
  up_isActive : option bool;
  up_expiresAt : option (option Z)
}.

(** The filter documents the callers of [findAll], [findByUser] and
    [count] build: [{}], [{ isActive }] and [{ userId }]. *)
Record Filter := mkFilter {
  f_isActive : option bool;
  f_userId : option string
}.

(** The result of a JavaScript division rounded up. *)
Inductive JsNumber := Finite (n : nat) | Infinity | NaN.

(** What [getAllUrls] and [getUserUrls] return. *)
Record Page := mkPage {
  p_urls : list Link;
  p_totalCount : nat;
  p_page : nat;
  p_totalPages : JsNumber
}.

(** A row of [getReferrerStats]: [{ referrer, count }]. *)
Definition ReferrerRow : Type := string * nat.

Inductive StoreFailure :=
| DuplicateKey        (* unique index on shortCode violated *)
| ValidationFailed    (* a required path is empty when the document is saved *)
| StoreUnavailable.   (* any other driver error *)

Inductive Error :=
| ShortCodeRequired          (* 'Short code is required' *)
| UrlNotFound                (* 'URL not found' *)
| LinkDeactivated            (* 'This link has been deactivated' *)
| LinkExpired                (* 'This link has expired' *)
| InvalidAliasFormat         (* 'Invalid custom alias format. ...' *)
| AliasInUse                 (* 'Custom alias already in use. ...' *)
| OriginalUrlRequired        (* 'Original URL is required' *)
| InvalidUrlFormat           (* 'Invalid URL format' *)
| StoreError (f : StoreFailure)   (* rethrown by the repository *)
| CacheError                 (* the cache client could not connect *)
| NotAFunction (name : string)    (* TypeError: ... is not a function *)
| BadArguments.              (* TypeError on the arguments of a call *)

(** Calls made on the ports, in the order they happen. *)
Inductive Event :=
| EvCacheGet (key : string)
| EvCacheSet (key value : string) (ttl : option Z)
| EvFindByOriginalUrl (url : string)
| EvFindByShortCode (code : string)
| EvCustomAliasExists (alias : string)
| EvShortCodeExists (code : string)
| EvCreate (doc : Link)
| EvNanoid (size : nat)
| EvRecordClick (code : string) (rd : RequestData)
| EvAggregateReferrers (code : string)
| EvAnalyticsCacheGet (key : string)
| EvAnalyticsCacheSet (key : string) (rows : list ReferrerRow) (ttl : Z)
| EvConsoleError (what : string).

Definition is_create (e : Event) : bool :=
  match e with EvCreate _ => true | _ => false end.

Definition is_alias_check (e : Event) : bool :=
  match e with EvCustomAliasExists _ => true | _ => false end.

Definition is_cache_set (e : Event) : bool :=
  match e with EvCacheSet _ _ _ => true | _ => false end.

(** The sizes asked of [nanoid], in order. *)
Definition nanoid_sizes (evs : list Event) : list nat :=
  flat_map (fun e => match e with EvNanoid n => [n] | _ => [] end) evs.

(** How one call on the cache client goes: it answers, it fails inside its
    own [try] (the client then answers [null] or [false]), or it fails to
    connect and throws. *)
Inductive CacheFault := CacheOk | CacheSoftFail | CacheThrows.

(** The state the use cases run in: the two collections, the cache, the
    generator's length field, and the runtime (clock, [URL] constructor,
    random source).  The fault lists say, call by call, whether the store
    or the cache client fails; an empty list means no failure. *)
Record World := mkWorld {
  now : Z;  (* new Date() *)
  urlParser : string -> bool;  (* does new URL(s) succeed *)
  urls : list Link;  (* Url collection *)
  clicks : list ClickEvent;  (* Analytics collection *)
  storeFaults : list bool;  (* per store call: throws? *)
  cache : gmap string (string * Z);  (* url:... -> value, expiry *)
  acache : gmap string (list ReferrerRow * Z);  (* analytics:... *)
  cacheFaults : list CacheFault;  (* per cache call *)
  redisTtl : Z;  (* config.redis.ttl *)
  urlLength : nat;  (* CreateShortUrl.urlLength *)
  entropy : nat -> nat -> ascii;  (* random source of nanoid *)
  draws : nat  (* nanoid calls so far *)
}.

Definition set_urls (v : list Link) (w : World) : World :=
  mkWorld (now w) (urlParser w) v (clicks w) (storeFaults w) (cache w)
    (acache w) (cacheFaults w) (redisTtl w) (urlLength w) (entropy w)
    (draws w).
Definition set_clicks (v : list ClickEvent) (w : World) : World :=
  mkWorld (now w) (urlParser w) (urls w) v (storeFaults w) (cache w)
    (acache w) (cacheFaults w) (redisTtl w) (urlLength w) (entropy w)
    (draws w).
Definition set_storeFaults (v : list bool) (w : World) : World :=
  mkWorld (now w) (urlParser w) (urls w) (clicks w) v (cache w) (acache w)
    (cacheFaults w) (redisTtl w) (urlLength w) (entropy w) (draws w).
Definition set_cache (v : gmap string (string * Z)) (w : World) : World :=
  mkWorld (now w) (urlParser w) (urls w) (clicks w) (storeFaults w) v
    (acache w) (cacheFaults w) (redisTtl w) (urlLength w) (entropy w)
    (draws w).
Definition set_acache (v : gmap string (list ReferrerRow * Z)) (w : World) : World :=
  mkWorld (now w) (urlParser w) (urls w) (clicks w) (storeFaults w)
    (cache w) v (cacheFaults w) (redisTtl w) (urlLength w) (entropy w)
    (draws w).
Definition set_cacheFaults (v : list CacheFault) (w : World) : World :=
  mkWorld (now w) (urlParser w) (urls w) (clicks w) (storeFaults w)
    (cache w) (acache w) v (redisTtl w) (urlLength w) (entropy w) (draws w).
Definition set_urlLength (v : nat) (w : World) : World :=
  mkWorld (now w) (urlParser w) (urls w) (clicks w) (storeFaults w)
    (cache w) (acache w) (cacheFaults w) (redisTtl w) v (entropy w)
    (draws w).
Definition set_draws (v : nat) (w : World) : World :=
  mkWorld (now w) (urlParser w) (urls w) (clicks w) (storeFaults w)
    (cache w) (acache w) (cacheFaults w) (redisTtl w) (urlLength w)
    (entropy w) v.

(** The world without what belongs to the cache. *)
Definition forget_cache (w : World) : World :=
  set_cacheFaults [] (set_acache ∅ (set_cache ∅ w)).

(** Did a store call made between [w] and [w'] throw?  The calls consume
    the fault list from its head. *)
Definition store_fault_hit (w w' : World) : bool :=
  existsb (fun b : bool => b)
    (firstn (length (storeFaults w) - length (storeFaults w'))
            (storeFaults w)).

(** ** Computations: state, exceptions, a log of port calls *)

Inductive Outcome (A : Type) :=
| Returned (a : A)
| Thrown (e : Error)
| OutOfFuel.
Arguments Returned {A} a.
Arguments Thrown {A} e.
Arguments OutOfFuel {A}.

Record Run (A : Type) := mkRun {
  outcome : Outcome A;
  world : World;
  events : list Event
}.
Arguments mkRun {A} _ _ _.
Arguments outcome {A} _.
Arguments world {A} _.
Arguments events {A} _.

Definition M (A : Type) : Type := World -> Run A.

Definition ret {A} (a : A) : M A := fun w => mkRun (Returned a) w [].
Definition throw {A} (e : Error) : M A := fun w => mkRun (Thrown e) w [].
Definition out_of_fuel {A} : M A := fun w => mkRun OutOfFuel w [].
Definition emit (e : Event) : M unit := fun w => mkRun (Returned tt) w [e].

Definition bind {A B} (m : M A) (k : A -> M B) : M B := fun w =>
  let r := m w in
  match outcome r with
  | Returned a =>
      let r' := k a (world r) in
      mkRun (outcome r') (world r') (events r ++ events r')
  | Thrown e => mkRun (Thrown e) (world r) (events r)
  | OutOfFuel => mkRun OutOfFuel (world r) (events r)
  end.

(** [try { m } catch (error) { h error }] *)
Definition try_catch {A} (m : M A) (h : Error -> M A) : M A := fun w =>
  let r := m w in
  match outcome r with
  | Thrown e =>
      let r' := h e (world r) in
      mkRun (outcome r') (world r') (events r ++ events r')
  | _ => r
  end.

Notation "'let*' x ':=' m 'in' k" := (bind m (fun x => k))
  (at level 10, x name, m at level 100, k at level 200).

Definition read {A} (f : World -> A) : M A := fun w => mkRun (Returned (f w)) w [].

(** ** The Redis client behind RedisCacheRepository *)

Module Cache.

(** [this.defaultTtl = config.redis.ttl || 86400] *)
Definition defaultTtl (w : World) : Z :=
  if (redisTtl w =? 0)%Z then 86400%Z else redisTtl w.

(** [ttl || this.defaultTtl] *)
Definition ttlToUse (ttl : option Z) (w : World) : Z :=
  match ttl with
  | Some t => if (t =? 0)%Z then defaultTtl w else t
  | None => defaultTtl w
  end.

Definition next_fault (w : World) : CacheFault * World :=
  match cacheFaults w with
  | f :: fs => (f, set_cacheFaults fs w)
  | [] => (CacheOk, w)
  end.

(** An entry is served until its expiry. *)
Definition live {A} (t : Z) (e : option (A * Z)) : option A :=
  match e with
  | Some (v, expiry) => if (t <? expiry)%Z then Some v else None
  | None => None
  end.

Definition get (key : string) : M (option string) := fun w =>
  let '(f, w') := next_fault w in
  match f with
  | CacheThrows => mkRun (Thrown CacheError) w' [EvCacheGet key]
  | CacheSoftFail => mkRun (Returned None) w' [EvCacheGet key]
  | CacheOk => mkRun (Returned (live (now w) (cache w !! key))) w'
                     [EvCacheGet key]
  end.

Definition set (key value : string) (ttl : option Z) : M bool := fun w =>
  let '(f, w') := next_fault w in
  match f with
  | CacheThrows => mkRun (Thrown CacheError) w' [EvCacheSet key value ttl]
  | CacheSoftFail => mkRun (Returned false) w' [EvCacheSet key value ttl]
  | CacheOk =>
      let expiry := (now w + 1000 * ttlToUse ttl w)%Z in
      mkRun (Returned true)
            (set_cache (<[key := (value, expiry)]> (cache w')) w')
            [EvCacheSet key value ttl]
  end.

Definition get_rows (key : string) : M (option (list ReferrerRow)) := fun w =>
  let '(f, w') := next_fault w in
  match f with
  | CacheThrows => mkRun (Thrown CacheError) w' [EvAnalyticsCacheGet key]
  | CacheSoftFail => mkRun (Returned None) w' [EvAnalyticsCacheGet key]
  | CacheOk => mkRun (Returned (live (now w) (acache w !! key))) w'
                     [EvAnalyticsCacheGet key]
  end.

Definition set_rows (key : string) (rows : list ReferrerRow) (ttl : Z)
  : M bool := fun w =>
  let '(f, w') := next_fault w in
  match f with
  | CacheThrows =>
      mkRun (Thrown CacheError) w' [EvAnalyticsCacheSet key rows ttl]
  | CacheSoftFail =>
      mkRun (Returned false) w' [EvAnalyticsCacheSet key rows ttl]
  | CacheOk =>
      let expiry := (now w + 1000 * ttlToUse (Some ttl) w)%Z in
      mkRun (Returned true)
            (set_acache (<[key := (rows, expiry)]> (acache w')) w')
            [EvAnalyticsCacheSet key rows ttl]
  end.

(** [redisClient.delete(key)]: the client answers [result > 0] for the
    number of keys [DEL] removed; an entry past its expiry is already
    gone.  The log has no entry for a deletion. *)
Definition delete (key : string) : M bool := fun w =>
  let '(f, w') := next_fault w in
  match f with
  | CacheThrows => mkRun (Thrown CacheError) w' []
  | CacheSoftFail => mkRun (Returned false) w' []
  | CacheOk =>
      mkRun (Returned (match live (now w) (cache w !! key) with
                       | Some _ => true
                       | None => false
                       end))
            (set_cache (base.delete key (cache w')) w') []
  end.

End Cache.

(** ** MongoUrlRepository

    Every method rethrows what the driver throws.  The schema makes
    [shortCode] the only unique field.  The collection is kept in
    insertion order and [findOne] answers with the first match.

    The schema declares [trim: true] for [originalUrl], [shortCode] and
    [customAlias], and [required: true] for the first two.  Mongoose
    applies the setter to a document that is saved and to the values of
    these paths in the filter of [findOne], [countDocuments],
    [findOneAndUpdate] and [deleteOne], and in an update document; the
    required paths are validated when a document is saved, not when one is
    updated. *)

Module MongoUrlRepository.

(** The documents that carry a value, once the filter is cast. *)
Definition first_with_code (c : string) (l : list Link) : option Link :=
  find (fun u => String.eqb (shortCode u) c) l.

Definition first_with_url (url : string) (l : list Link) : option Link :=
  find (fun u => String.eqb (originalUrl u) url) l.

Definition has_code (c : string) (l : list Link) : bool :=
  existsb (fun u => String.eqb (shortCode u) c) l.

Definition has_alias (a : string) (l : list Link) : bool :=
  existsb (fun u => match customAlias u with
                    | Some x => String.eqb x a
                    | None => false
                    end) l.

(** [UrlModel.findOne({ shortCode })] *)
Definition find_by_code (code : string) (l : list Link) : option Link :=
  first_with_code (Js.trim code) l.

(** [UrlModel.findOne({ originalUrl })] *)
Definition find_by_original_url (url : string) (l : list Link)
  : option Link :=
  first_with_url (Js.trim url) l.

(** [UrlModel.countDocuments({ shortCode }) > 0] *)
Definition code_exists (code : string) (l : list Link) : bool :=
  has_code (Js.trim code) l.

(** [UrlModel.countDocuments({ customAlias: alias }) > 0] *)
Definition alias_exists (alias : string) (l : list Link) : bool :=
  has_alias (Js.trim alias) l.

Definition next_fault (w : World) : bool * World :=
  match storeFaults w with
  | f :: fs => (f, set_storeFaults fs w)
  | [] => (false, w)
  end.

(** A query: it throws when the driver does, and answers from the
    collection otherwise. *)
Definition query {A} (ev : Event) (answer : list Link -> A) : M A := fun w =>
  let '(f, w') := next_fault w in
  if f then mkRun (Thrown (StoreError StoreUnavailable)) w' [ev]
  else mkRun (Returned (answer (urls w))) w' [ev].

Definition findByShortCode (code : string) : M (option Link) :=
  query (EvFindByShortCode code) (find_by_code code).

Definition findByOriginalUrl (url : string) : M (option Link) :=
  query (EvFindByOriginalUrl url) (find_by_original_url url).

Definition shortCodeExists (code : string) : M bool :=
  query (EvShortCodeExists code) (code_exists code).

Definition customAliasExists (alias : string) : M bool :=
  query (EvCustomAliasExists alias) (alias_exists alias).

(** [new UrlModel(urlData)]: the setters of the schema trim the three
    strings. *)
Definition cast (doc : Link) : Link :=
  mkLink (Js.trim (originalUrl doc)) (Js.trim (shortCode doc))
         (option_map Js.trim (customAlias doc)) (userId doc) (createdAt doc)
         (expiresAt doc) (isActive doc).

(** The required paths hold a string that is not empty. *)
Definition required_paths (doc : Link) : bool :=
  Js.truthy (originalUrl doc) && Js.truthy (shortCode doc).

(** [const url = new UrlModel(urlData); await url.save();
    return url.toObject();]: the document is cast, then validated (before
    the database is reached), then inserted unless the unique index on
    [shortCode] rejects it. *)
Definition create (doc : Link) : M Link := fun w =>
  let saved := cast doc in
  if negb (required_paths saved)
  then mkRun (Thrown (StoreError ValidationFailed)) w [EvCreate doc]
  else
    let '(f, w') := next_fault w in
    if f then mkRun (Thrown (StoreError StoreUnavailable)) w' [EvCreate doc]
    else if has_code (shortCode saved) (urls w)
    then mkRun (Thrown (StoreError DuplicateKey)) w' [EvCreate doc]
    else mkRun (Returned saved) (set_urls (urls w ++ [saved]) w')
               [EvCreate doc].

(** *** Updates, deletions and listings

    The calls below leave no entry in the log.  What the driver does is
    written out from MongoDB's documented behaviour: [findOneAndUpdate]
    and [deleteOne] act on the first matching document, an update document
    without operators sets the fields it names, the unique index on
    [shortCode] also guards updates, a negative [skip] is rejected and a
    [limit] of 0 means no limit. *)

Definition ask {A} (answer : list Link -> A) : M A := fun w =>
  let '(f, w') := next_fault w in
  if f then mkRun (Thrown (StoreError StoreUnavailable)) w' []
  else mkRun (Returned (answer (urls w))) w' [].

(** [UrlModel.findOne({ customAlias: alias })] *)
Definition find_by_alias (alias : string) (l : list Link) : option Link :=
  find (fun u => match customAlias u with
                 | Some a => String.eqb a (Js.trim alias)
                 | None => false
                 end) l.

Definition findByCustomAlias (alias : string) : M (option Link) :=
  ask (find_by_alias alias).

(** The fields the update names are set; a [shortCode] in the update is
    trimmed by the setter. *)
Definition apply_update (d : UpdateData) (u : Link) : Link :=
  mkLink (originalUrl u)
         (default (shortCode u) (option_map Js.trim (up_shortCode d)))
         (customAlias u) (userId u) (createdAt u)
         (default (expiresAt u) (up_expiresAt d))
         (default (isActive u) (up_isActive d)).

Fixpoint replace_first (code : string) (u' : Link) (l : list Link)
  : list Link :=
  match l with
  | [] => []
  | u :: r =>
      if String.eqb (shortCode u) code then u' :: r
      else u :: replace_first code u' r
  end.

(** [UrlModel.findOneAndUpdate({ shortCode }, updateData, { new: true })] *)
Definition update (code : string) (updateData : UpdateData)
  : M (option Link) := fun w =>
  let '(f, w') := next_fault w in
  if f then mkRun (Thrown (StoreError StoreUnavailable)) w' []
  else
    match find_by_code code (urls w) with
    | None => mkRun (Returned None) w' []
    | Some u =>
        let u' := apply_update updateData u in
        if negb (String.eqb (shortCode u') (shortCode u))
           && has_code (shortCode u') (urls w)
        then mkRun (Thrown (StoreError DuplicateKey)) w' []
        else mkRun (Returned (Some u'))
                   (set_urls (replace_first (Js.trim code) u' (urls w)) w')
                   []
    end.

Fixpoint remove_first (code : string) (l : list Link) : list Link :=
  match l with
  | [] => []
  | u :: r =>
      if String.eqb (shortCode u) code then r
      else u :: remove_first code r
  end.

(** [UrlModel.deleteOne({ shortCode })], answered with
    [result.deletedCount > 0] *)
Definition delete (code : string) : M bool := fun w =>
  let '(f, w') := next_fault w in
  if f then mkRun (Thrown (StoreError StoreUnavailable)) w' []
  else mkRun (Returned (code_exists code (urls w)))
             (set_urls (remove_first (Js.trim code) (urls w)) w') [].

Definition matches (q : Filter) (u : Link) : bool :=
  match f_isActive q with
  | Some b => Bool.eqb (isActive u) b
  | None => true
  end
  &&
  match f_userId q with
  | Some id =>
      match userId u with
      | Some x => String.eqb x id
      | None => false
      end
  | None => true
  end.

Fixpoint insert_newest (u : Link) (l : list Link) : list Link :=
  match l with
  | [] => [u]
  | x :: t =>
      if (createdAt x <=? createdAt u)%Z then u :: l
      else x :: insert_newest u t
  end.

(** [.sort({ createdAt: -1 })]; links created at the same instant keep
    their order, which the database leaves open. *)
Definition newest_first (l : list Link) : list Link :=
  fold_right insert_newest [] l.

(** [.skip(skip).limit(limit)] *)
Definition page_of (skip limit : nat) (l : list Link) : list Link :=
  let rest := skipn skip l in
  if (limit =? 0)%nat then rest else firstn limit rest.

(** [UrlModel.find(filter).sort({ createdAt: -1 }).skip(skip).limit(limit)] *)
Definition findAll (limit : nat) (skip : Z) (filter : Filter)
  : M (list Link) := fun w =>
  let '(f, w') := next_fault w in
  if f || (skip <? 0)%Z
  then mkRun (Thrown (StoreError StoreUnavailable)) w' []
  else mkRun (Returned (page_of (Z.to_nat skip) limit
                          (newest_first
                             (List.filter (matches filter) (urls w)))))
             w' [].

(** [UrlModel.find({ userId }) ...] *)
Definition findByUser (user : string) (limit : nat) (skip : Z)
  : M (list Link) :=
  findAll limit skip (mkFilter None (Some user)).

(** [UrlModel.countDocuments(filter)] *)
Definition count (filter : Filter) : M nat :=
  ask (fun l => length (List.filter (matches filter) l)).

End MongoUrlRepository.

(** ** nanoid *)

(** The alphabet of the library, [urlAlphabet]. *)
Definition urlAlphabet : string :=
  "useandom-26T198340PX75pxJACKVERYMINDBUSHWOLF_GQZbfghjklqvwyzrict".

(** [urlAlphabet[byte & 63]] *)
Definition alphabet_char (byte : ascii) : ascii :=
  nth (nat_of_ascii byte mod 64) (list_ascii_of_string urlAlphabet)
      "u"%char.

(** What the [i]-th next call of [nanoid] returns when asked for [size]
    characters: each random byte picks a character of the alphabet. *)
Definition nanoid_value (w : World) (i size : nat) : string :=
  string_of_list_ascii
    (map (fun j => alphabet_char (entropy w (i + draws w) j)) (seq 0 size)).

(** [nanoid(size)]: [size] characters of the alphabet, picked by the
    random source. *)
Definition nanoid (size : nat) : M string := fun w =>
  mkRun (Returned (nanoid_value w 0 size))
        (set_draws (S (draws w)) w) [EvNanoid size].

(** ** The Url entity *)

Module Url.

Definition _validate (u : Link) : M unit :=
  if negb (Js.truthy (originalUrl u)) then throw OriginalUrlRequired
  else if negb (Js.truthy (shortCode u)) then throw ShortCodeRequired
  else
    let* ok := read (fun w => urlParser w (originalUrl u)) in
    if ok then ret tt else throw InvalidUrlFormat.

(** [new Url({...})] followed by [toObject()] *)
Definition new (u : Link) : M Link :=
  let* _ := _validate u in ret u.

(** [new Date() > this.expiresAt], also the test of [ResolveUrl.execute]
    and of the schema method. *)
Definition isExpired (t : Z) (e : option Z) : bool :=
  match e with
  | Some x => (x <? t)%Z
  | None => false
  end.

(** [this.isActive && !this.isExpired()], also the schema method *)
Definition isValidForRedirect (t : Z) (u : Link) : bool :=
  isActive u && negb (isExpired t (expiresAt u)).

End Url.

(** ** CreateShortUrl *)

Module CreateShortUrl.

(** [this.urlLength = config.url.length || 7] *)
Definition constructor_urlLength (configured : nat) : nat :=
  if (configured =? 0)%nat then 7 else configured.

Definition maxAttempts : nat := 5.

(** A character of the class [[a-zA-Z0-9-_]]. *)
Definition alias_char (c : ascii) : bool :=
  WhatwgUrl.is_alpha c || WhatwgUrl.is_digit c
  || Ascii.eqb c "-" || Ascii.eqb c "_".

(** [/^[a-zA-Z0-9-_]+$/.test(alias) && alias.length >= 3 &&
    alias.length <= 50] *)
Definition _isValidCustomAlias (alias : string) : bool :=
  let cs := list_ascii_of_string alias in
  (match cs with [] => false | _ => forallb alias_char cs end)
  && (3 <=? String.length alias)%nat && (String.length alias <=? 50)%nat.

(** The body of the [do ... while (exists)] loop, once per unit of fuel. *)
Fixpoint generate_loop (fuel attempts : nat) : M string :=
  match fuel with
  | O => out_of_fuel
  | S fuel' =>
      let* len := read urlLength in
      let* shortCode := nanoid len in
      let* exists_ := MongoUrlRepository.shortCodeExists shortCode in
      let attempts1 := S attempts in
      let* attempts2 :=
        (if (maxAttempts <=? attempts1)%nat
         then fun w => mkRun (Returned O)
                             (set_urlLength (S (urlLength w)) w) []
         else ret attempts1) in
      if exists_ then generate_loop fuel' attempts2 else ret shortCode
  end.

Definition _generateUniqueShortCode (fuel : nat) : M string :=
  generate_loop fuel 0.

(** The longest code in the collection, and a number of iterations after
    which the loop has left every stored length behind. *)
Definition max_code_length (l : list Link) : nat :=
  fold_right (fun u m => Nat.max (String.length (shortCode u)) m) 0 l.

Definition enough_fuel (w : World) : nat :=
  5 * S (max_code_length (urls w)) + 1.

Definition _cacheUrl (shortCode longUrl : string) : M unit :=
  try_catch
    (let* ttl := read redisTtl in
     let* _ := Cache.set ("url:" +:+ shortCode) longUrl (Some ttl) in
     ret tt)
    (fun _ => emit (EvConsoleError "Cache storage error:")).

(** The choice of the code: the alias when one is given, a generated code
    otherwise. *)
Definition choose_code (fuel : nat) (alias : option string) : M string :=
  match alias with
  | Some a =>
      if Js.truthy a then
        if negb (_isValidCustomAlias a) then throw InvalidAliasFormat
        else
          let* aliasExists := MongoUrlRepository.customAliasExists a in
          if aliasExists then throw AliasInUse else ret a
      else _generateUniqueShortCode fuel
  | None => _generateUniqueShortCode fuel
  end.

(** The alias step lets the request through: no alias was given, or the
    alias is well formed and no link carries it as its alias. *)
Definition alias_accepted (alias : option string) (l : list Link) : bool :=
  match alias with
  | Some a =>
      if Js.truthy a
      then _isValidCustomAlias a && negb (MongoUrlRepository.alias_exists a l)
      else true
  | None => true
  end.

Definition execute (fuel : nat) (d : UrlData) : M Link :=
  let normalizedUrl := _normalizeUrl (in_originalUrl d) in
  let* existingUrl := MongoUrlRepository.findByOriginalUrl normalizedUrl in
  match existingUrl with
  | Some u => ret u
  | None =>
      let* shortCode := choose_code fuel (in_customAlias d) in
      let* createdAt := read now in
      let* url := Url.new (mkLink normalizedUrl shortCode (in_customAlias d)
                                  (in_userId d) createdAt (in_expiresAt d)
                                  true) in
      let* createdUrl := MongoUrlRepository.create url in
      let* _ := _cacheUrl shortCode normalizedUrl in
      ret createdUrl
  end.

(** *** The persist step

    The repository is handed to the constructor.  [execute_with] is
    [execute] with the [create] of that repository left open, and
    [before_persist] is the part of [execute] that runs before
    [this.urlRepository.create] is called: it ends with the link found
    for the URL, or with the document that is about to be persisted. *)

Definition execute_with (persist : Link -> M Link) (fuel : nat)
  (d : UrlData) : M Link :=
  let normalizedUrl := _normalizeUrl (in_originalUrl d) in
  let* existingUrl := MongoUrlRepository.findByOriginalUrl normalizedUrl in
  match existingUrl with
  | Some u => ret u
  | None =>
      let* shortCode := choose_code fuel (in_customAlias d) in
      let* createdAt := read now in
      let* url := Url.new (mkLink normalizedUrl shortCode (in_customAlias d)
                                  (in_userId d) createdAt (in_expiresAt d)
                                  true) in
      let* createdUrl := persist url in
      let* _ := _cacheUrl shortCode normalizedUrl in
      ret createdUrl
  end.

Definition before_persist (fuel : nat) (d : UrlData) : M (Link + Link) :=
  let normalizedUrl := _normalizeUrl (in_originalUrl d) in
  let* existingUrl := MongoUrlRepository.findByOriginalUrl normalizedUrl in
  match existingUrl with
  | Some u => ret (inl u)
  | None =>
      let* shortCode := choose_code fuel (in_customAlias d) in
      let* createdAt := read now in
      let* url := Url.new (mkLink normalizedUrl shortCode (in_customAlias d)
                                  (in_userId d) createdAt (in_expiresAt d)
                                  true) in
      ret (inr url)
  end.

End CreateShortUrl.

(** ** ResolveUrl *)

Module ResolveUrl.

Record Result := mkResult {
  res_originalUrl : string;
  res_urlEntity : option Link
}.

Definition _getFromCache (shortCode : string) : M (option string) :=
  try_catch
    (Cache.get ("url:" +:+ shortCode))
    (fun _ =>
       let* _ := emit (EvConsoleError "Cache retrieval error:") in
       ret None).

Definition _cacheUrl (shortCode originalUrl : string) : M unit :=
  try_catch
    (let* _ := Cache.set ("url:" +:+ shortCode) originalUrl None in ret tt)
    (fun _ => emit (EvConsoleError "Cache storage error:")).

(** [this.analyticsService.recordClick({...})] on the service the
    constructor was given.  [execute] does not await it: the service is
    called, which the log records, and [execute] returns without waiting
    for what the service then does (it saves an Analytics document and
    updates the metadata of the link) and without looking at its
    outcome.  That later work is not part of the run of [execute] and is
    not modelled: no definition here writes [clicks]. *)
Definition _recordAnalytics (shortCode : string) (rd : RequestData)
  : M unit :=
  emit (EvRecordClick shortCode rd).

(** The branch taken when the cache gave nothing usable. *)
Definition from_repository (shortCode : string) : M Result :=
  let* urlEntity := MongoUrlRepository.findByShortCode shortCode in
  match urlEntity with
  | None => throw UrlNotFound
  | Some u =>
      if negb (isActive u) then throw LinkDeactivated
      else
        let* t := read now in
        if Url.isExpired t (expiresAt u) then throw LinkExpired
        else
          let* _ := _cacheUrl shortCode (originalUrl u) in
          ret (mkResult (originalUrl u) (Some u))
  end.

(** [analyticsService] says whether the instance was built with one. *)
Definition execute (analyticsService : bool) (shortCode : string)
  (requestData : option RequestData) : M Result :=
  if negb (Js.truthy shortCode) then throw ShortCodeRequired
  else
    let* cached := _getFromCache shortCode in
    let* r :=
      (match cached with
       | Some url =>
           if Js.truthy url then ret (mkResult url None)
           else from_repository shortCode
       | None => from_repository shortCode
       end) in
    let* _ :=
      (match requestData with
       | Some rd =>
           if analyticsService then _recordAnalytics shortCode rd
           else ret tt
       | None => ret tt
       end) in
    ret r.

End ResolveUrl.

(** ** ShortenerService, the facade

    The instance is an object with own properties, set by the constructor,
    and a prototype holding the methods of the class.  A property read
    looks at the own properties first. *)

Module ShortenerService.

Inductive UseCase := CreateShortUrlInstance | ResolveUrlInstance.

Inductive Method := shortenUrl | resolveUrl | getUrl.

Inductive Value :=
| VFunction (m : Method)
| VUseCase (u : UseCase)
| VUrlRepository
| VCacheRepository.

Inductive Arg :=
| AString (s : string)
| AUrlData (d : UrlData)
| ARequestData (rd : RequestData)
| ANull.

Inductive Result :=
| RLink (l : Link)
| ROptLink (l : option Link)
| RString (s : string).

Record Object := mkObject {
  own : gmap string Value;
  proto : gmap string Value
}.

(** The methods of the class the model covers. *)
Definition prototype : gmap string Value :=
  <["getUrl" := VFunction getUrl]>
    (<["resolveUrl" := VFunction resolveUrl]>
       (<["shortenUrl" := VFunction shortenUrl]> ∅)).

(** The four assignments of the constructor, in order. *)
Definition constructor : gmap string Value :=
  <["resolveUrl" := VUseCase ResolveUrlInstance]>
    (<["createShortUrl" := VUseCase CreateShortUrlInstance]>
       (<["cacheRepository" := VCacheRepository]>
          (<["urlRepository" := VUrlRepository]> ∅))).

(** [module.exports = new ShortenerService()] *)
Definition shortenerService : Object := mkObject constructor prototype.

Definition get_property (o : Object) (name : string) : option Value :=
  match own o !! name with
  | Some v => Some v
  | None => proto o !! name
  end.

Definition string_arg (a : option Arg) : string :=
  match a with
  | Some (AString s) => s
  | _ => ""
  end.

Definition request_arg (a : option Arg) : option RequestData :=
  match a with
  | Some (ARequestData rd) => Some rd
  | _ => None
  end.

(** The bodies of the methods, run with [this] bound to the object. *)
Definition body (fuel : nat) (m : Method) (this : Object) (args : list Arg)
  : M Result :=
  match m with
  | shortenUrl =>
      match get_property this "createShortUrl", args with
      | Some (VUseCase CreateShortUrlInstance), AUrlData d :: _ =>
          let* l := CreateShortUrl.execute fuel d in ret (RLink l)
      | Some (VUseCase CreateShortUrlInstance), _ => throw BadArguments
      | _, _ => throw (NotAFunction "this.createShortUrl.execute")
      end
  | resolveUrl =>
      match get_property this "resolveUrl" with
      | Some (VUseCase ResolveUrlInstance) =>
          let* r := ResolveUrl.execute false (string_arg (args !! 0%nat))
                                       (request_arg (args !! 1%nat)) in
          ret (RString (ResolveUrl.res_originalUrl r))
      | _ => throw (NotAFunction "this.resolveUrl.execute")
      end
  | getUrl =>
      match get_property this "urlRepository" with
      | Some VUrlRepository =>
          let* u := MongoUrlRepository.findByShortCode
                      (string_arg (args !! 0%nat)) in
          ret (ROptLink u)
      | _ => throw (NotAFunction "this.urlRepository.findByShortCode")
      end
  end.

(** [o.name(args)]: the property is read, then called if it is a
    function. *)
Definition call (fuel : nat) (o : Object) (name : string) (args : list Arg)
  : M Result :=
  match get_property o name with
  | Some (VFunction m) => body fuel m o args
  | _ => throw (NotAFunction name)
  end.

(** [ShortenerService.prototype.name.call(o, args)] *)
Definition call_on_prototype (fuel : nat) (o : Object) (name : string)
  (args : list Arg) : M Result :=
  match proto o !! name with
  | Some (VFunction m) => body fuel m o args
  | _ => throw (NotAFunction name)
  end.

(** *** The methods that write, list and check

    Their bodies read [this.urlRepository] and [this.cacheRepository]
    only, which the constructor sets and nothing shadows; they are given
    directly. *)

(** [if (updateData.shortCode) { delete updateData.shortCode; }] *)
Definition strip_shortCode (d : UpdateData) : UpdateData :=
  match up_shortCode d with
  | Some c =>
      if Js.truthy c then mkUpdateData None (up_isActive d) (up_expiresAt d)
      else d
  | None => d
  end.

(** [if (updatedUrl) { await this.cacheRepository.delete(`url:${shortCode}`); }
    return updatedUrl;] *)
Definition invalidate (code : string) (updatedUrl : option Link)
  : M (option Link) :=
  match updatedUrl with
  | Some _ =>
      let* _ := Cache.delete ("url:" +:+ code) in ret updatedUrl
  | None => ret updatedUrl
  end.

Definition updateUrl (code : string) (updateData : UpdateData)
  : M (option Link) :=
  let* updatedUrl :=
    MongoUrlRepository.update code (strip_shortCode updateData) in
  invalidate code updatedUrl.

Definition deactivateUrl (code : string) : M (option Link) :=
  let* updatedUrl :=
    MongoUrlRepository.update code (mkUpdateData None (Some false) None) in
  invalidate code updatedUrl.



(** [Promise.all([m1, m2])]: both calls are made, and the first failure
    is the result. *)
Definition promise_all2 {A B} (m1 : M A) (m2 : M B) : M (A * B) := fun w =>
  let r1 := m1 w in
  let r2 := m2 (world r1) in
  mkRun (match outcome r1, outcome r2 with
         | Returned a, Returned b => Returned (a, b)
         | Returned _, Thrown e => Thrown e
         | Returned _, OutOfFuel => OutOfFuel
         | Thrown e, _ => Thrown e
         | OutOfFuel, _ => OutOfFuel
         end)
        (world r2) (events r1 ++ events r2).

(** [Math.ceil(totalCount / limit)] *)
Definition ceil_div (totalCount limit : nat) : JsNumber :=
  if (limit =? 0)%nat
  then if (totalCount =? 0)%nat then NaN else Infinity
  else Finite ((totalCount + limit - 1) / limit).

(** [const skip = (page - 1) * limit] *)
Definition skip_of (page limit : nat) : Z :=
  ((Z.of_nat page - 1) * Z.of_nat limit)%Z.

Definition getAllUrls (page limit : nat) (filter : Filter) : M Page :=
  let* found :=
    promise_all2 (MongoUrlRepository.findAll limit (skip_of page limit)
                    filter)
                 (MongoUrlRepository.count filter) in
  ret (mkPage (fst found) (snd found) page (ceil_div (snd found) limit)).

Definition getUserUrls (user : string) (page limit : nat) : M Page :=
  let* found :=
    promise_all2 (MongoUrlRepository.findByUser user limit
                    (skip_of page limit))
                 (MongoUrlRepository.count (mkFilter None (Some user))) in
  ret (mkPage (fst found) (snd found) page (ceil_div (snd found) limit)).

Definition isAliasAvailable (alias : string) : M bool :=
  let* exists_ := MongoUrlRepository.customAliasExists alias in
  ret (negb exists_).

End ShortenerService.

(** ** MongoAnalyticsRepository.getReferrerStats *)

Module MongoAnalyticsRepository.

(** A group of the [$group] stage: the key ([None] for a null or missing
    referrer) and the number of documents. *)
Definition Group : Type := option string * nat.

(** [{ $match: { shortCode } }] *)
Definition match_stage (code : string) (evs : list ClickEvent)
  : list ClickEvent :=
  List.filter (fun e => String.eqb (ev_shortCode e) code) evs.

Fixpoint group_insert (k : option string) (gs : list Group) : list Group :=
  match gs with
  | [] => [(k, 1)]
  | (k', n) :: r =>
      if decide (k = k') then (k', S n) :: r
      else (k', n) :: group_insert k r
  end.

(** [{ $group: { _id: '$referrer', count: { $sum: 1 } } }]; groups come in
    the order of their first document. *)
Definition group_stage (evs : list ClickEvent) : list Group :=
  fold_left (fun gs e => group_insert (ev_referrer e) gs) evs [].

(** [{ $project: { referrer: { $ifNull: ['$_id', 'Direct/None'] },
    count: 1 } }] *)
Definition project_stage (gs : list Group) : list ReferrerRow :=
  map (fun g => (default "Direct/None" (fst g), snd g)) gs.

Fixpoint insert_desc (r : ReferrerRow) (l : list ReferrerRow)
  : list ReferrerRow :=
  match l with
  | [] => [r]
  | x :: t =>
      if (snd x <=? snd r)%nat then r :: l else x :: insert_desc r t
  end.

(** [{ $sort: { count: -1 } }]; rows with equal counts keep their order,
    which the database leaves open. *)
Definition sort_stage (rows : list ReferrerRow) : list ReferrerRow :=
  fold_right insert_desc [] rows.

Definition aggregate (code : string) (evs : list ClickEvent)
  : list ReferrerRow :=
  sort_stage (project_stage (group_stage (match_stage code evs))).

(** [item.referrer || 'Direct/None'] *)
Definition relabel (row : ReferrerRow) : ReferrerRow :=
  (if Js.truthy (fst row) then fst row else "Direct/None", snd row).

Definition getReferrerStats (code : string) : M (list ReferrerRow) :=
  fun w =>
  let '(f, w') := MongoUrlRepository.next_fault w in
  if f then mkRun (Thrown (StoreError StoreUnavailable)) w'
                  [EvAggregateReferrers code]
  else mkRun (Returned (map relabel (aggregate code (clicks w)))) w'
             [EvAggregateReferrers code].

End MongoAnalyticsRepository.

(** ** GetUrlAnalytics, view ['referrers'] *)

Module GetUrlAnalytics.

Definition dq : string := String (ascii_of_nat 34) "".
Definition quoted (s : string) : string := dq +:+ s +:+ dq.

(** [JSON.stringify] of the defaulted options
    [{ from: null, to: null, limit: 100, skip: 0, interval: 'day' }]. *)
Definition default_options_json : string :=
  "{" +:+ quoted "from" +:+ ":null," +:+ quoted "to" +:+ ":null,"
  +:+ quoted "limit" +:+ ":100," +:+ quoted "skip" +:+ ":0,"
  +:+ quoted "interval" +:+ ":" +:+ quoted "day" +:+ "}".

Definition _createCacheKey (shortCode view optionsHash : string) : string :=
  "analytics:" +:+ shortCode +:+ ":" +:+ view +:+ ":" +:+ optionsHash.

Definition _getFromCache (key : string) : M (option (list ReferrerRow)) :=
  try_catch
    (Cache.get_rows key)
    (fun _ =>
       let* _ := emit (EvConsoleError "Cache retrieval error:") in
       ret None).

Definition _cacheData (key : string) (data : list ReferrerRow) : M unit :=
  try_catch
    (let* _ := Cache.set_rows key data 3600 in ret tt)
    (fun _ => emit (EvConsoleError "Cache storage error:")).

(** [execute({ shortCode, view: 'referrers' })] with no options. *)
Definition execute_referrers (shortCode : string) : M (list ReferrerRow) :=
  if negb (Js.truthy shortCode) then throw ShortCodeRequired
  else
    let* urlExists := MongoUrlRepository.shortCodeExists shortCode in
    if negb urlExists then throw UrlNotFound
    else
      let cacheKey :=
        _createCacheKey shortCode "referrers" default_options_json in
      let* cachedData := _getFromCache cacheKey in
      match cachedData with
      | Some data => ret data
      | None =>
          let* analyticsData :=
            MongoAnalyticsRepository.getReferrerStats shortCode in
          let* _ := _cacheData cacheKey analyticsData in
          ret analyticsData
      end.

End GetUrlAnalytics.

(** ** UrlController and the error handler

    The handlers are given for the parts of the request they read.  A
    handler answers the request or hands an error to [next]; it never
    throws. *)

(** [error.message].  The texts of the errors the use cases and the
    entity throw are those of the source; [driver] stands for the text
    of an error raised outside this code (by the database driver or the
    cache client), and a [TypeError] names what was called. *)
Definition message (driver : string) (e : Error) : string :=
  match e with
  | ShortCodeRequired => "Short code is required"
  | UrlNotFound => "URL not found"
  | LinkDeactivated => "This link has been deactivated"
  | LinkExpired => "This link has expired"
  | InvalidAliasFormat =>
      "Invalid custom alias format. Use alphanumeric characters and hyphens only."
  | AliasInUse => "Custom alias already in use. Please choose another one."
  | OriginalUrlRequired => "Original URL is required"
  | InvalidUrlFormat => "Invalid URL format"
  | NotAFunction name => "shortenerService." +:+ name +:+ " is not a function"
  | StoreError _ | CacheError | BadArguments => driver
  end.

Module UrlController.

Inductive Response :=
| Redirect (status : nat) (location : string)
      (* res.redirect(status, location) *)
| Created (status : nat) (url : Link) (shortUrl : string)
      (* res.status(status).json({ success: true, data: formattedUrl }) *)
| Resolved (originalUrl shortCode shortUrl : string)
      (* res.json({ success: true, data: { originalUrl, shortCode, shortUrl } }) *)
| NextHttpError (status : nat) (text : string)
      (* next(createError(status, text)) *)
| NextError (e : Error).
      (* next(error) *)

(** [`${config.url.domain}/${url.shortCode}`], the [shortUrl] that
    [formatUrlForResponse] adds; [domain] is [config.url.domain]. *)
Definition shortUrl_of (domain : string) (u : Link) : string :=
  domain +:+ "/" +:+ shortCode u.

(** [createShortUrl]; [validationOk] is [validationResult(req).isEmpty()],
    [user] is [req.user.id] when the request carries a user, and
    [expiresAt] is the date the body gives, already parsed.  Of the
    formatted link the model keeps the link and its [shortUrl]. *)
Definition createShortUrl (driver domain : string) (fuel : nat)
  (validationOk : bool) (originalUrl : string) (customAlias : option string)
  (expiresAt : option Z) (user : option string) : M Response :=
  try_catch
    (if negb validationOk then ret (NextHttpError 400 "Validation error")
     else
       let* url :=
         ShortenerService.call fuel ShortenerService.shortenerService
           "shortenUrl"
           [ShortenerService.AUrlData
              (mkUrlData originalUrl customAlias user expiresAt)] in
       match url with
       | ShortenerService.RLink l => ret (Created 201 l (shortUrl_of domain l))
       | _ => throw BadArguments
       end)
    (fun error =>
       let text := message driver error in
       if Js.truthy text && Js.includes text "Custom alias already in use"
       then ret (NextHttpError 409 text)
       else if Js.truthy text && Js.includes text "Invalid custom alias"
       then ret (NextHttpError 400 text)
       else ret (NextError error)).

(** [redirectToUrl], the branch taken when
    [lambdaService.isLambdaRedirectEnabled()] is false. *)
Definition redirectToUrl (driver : string) (fuel : nat) (code : string)
  (requestData : RequestData) : M Response :=
  try_catch
    (try_catch
       (let* originalUrl :=
          ShortenerService.call fuel ShortenerService.shortenerService
            "resolveUrl"
            [ShortenerService.AString code;
             ShortenerService.ARequestData requestData] in
        match originalUrl with
        | ShortenerService.RString url => ret (Redirect 302 url)
        | _ => throw BadArguments
        end)
       (fun error =>
          let text := message driver error in
          if Js.includes text "URL not found"
          then ret (NextHttpError 404 "Short URL not found")
          else if Js.includes text "deactivated"
          then ret (NextHttpError 410 "This link has been deactivated")
          else if Js.includes text "expired"
          then ret (NextHttpError 410 "This link has expired")
          else throw error))
    (fun error => ret (NextError error)).

(** [resolveUrl], the handler of [GET /api/v1/resolve/:shortCode] *)
Definition resolveUrl (domain : string) (fuel : nat) (code : string)
  : M Response :=
  try_catch
    (let* url :=
       ShortenerService.call fuel ShortenerService.shortenerService "getUrl"
         [ShortenerService.AString code] in
     match url with
     | ShortenerService.ROptLink None =>
         ret (NextHttpError 404 "Short URL not found")
     | ShortenerService.ROptLink (Some u) =>
         if negb (isActive u)
         then ret (NextHttpError 410 "This link has been deactivated")
         else
           let* t := read now in
           if Url.isExpired t (expiresAt u)
           then ret (NextHttpError 410 "This link has expired")
           else ret (Resolved (originalUrl u) (shortCode u)
                              (shortUrl_of domain u))
     | _ => throw BadArguments
     end)
    (fun error => ret (NextError error)).

(** The status the client receives: the handler's own, or the one
    [handleError] gives to what was handed to [next],
    [err.status || err.statusCode || 500]. *)
Definition http_status (r : Response) : nat :=
  match r with
  | Redirect status _ => status
  | Created status _ _ => status
  | Resolved _ _ _ => 200
  | NextHttpError status _ => if (status =? 0)%nat then 500 else status
  | NextError _ => 500
  end.

End UrlController.

(** ** utils/validator: the two sanitizers *)

Module Validator.

(** [s.replace(/c/g, by)] for one character [c] *)
Fixpoint replace_char (c : ascii) (by_ : string) (s : string) : string :=
  match s with
  | EmptyString => EmptyString
  | String x r =>
      if Ascii.eqb x c then by_ +:+ replace_char c by_ r
      else String x (replace_char c by_ r)
  end.

(** The double quote and the apostrophe. *)
Definition quot : ascii := ascii_of_nat 34.
Definition apos : ascii := ascii_of_nat 39.

(** The four replacements, in the order of the source. *)
Definition sanitizeHtml (html : string) : string :=
  if negb (Js.truthy html) then ""
  else
    replace_char apos "&#39;"
      (replace_char quot "&quot;"
         (replace_char ">" "&gt;" (replace_char "<" "&lt;" html))).

(** A character of the class [[${}()[\]]]. *)
Definition db_operator_char (c : ascii) : bool :=
  existsb (Ascii.eqb c) ["$"; "{"; "}"; "("; ")"; "["; "]"]%char.

Fixpoint remove_chars (p : ascii -> bool) (s : string) : string :=
  match s with
  | EmptyString => EmptyString
  | String x r =>
      if p x then remove_chars p r else String x (remove_chars p r)
  end.

(** [input.replace(/[${}()[\]]/g, '')] *)
Definition sanitizeForDb (input : string) : string :=
  if negb (Js.truthy input) then ""
  else remove_chars db_operator_char input.

End Validator.

(** ** What the referrers view is meant to report *)

(** The label a click is counted under: its referrer, or the sentinel
    when the referrer is null or empty. *)
Definition referrer_label (e : ClickEvent) : string :=
  match ev_referrer e with
  | Some s => if Js.truthy s then s else "Direct/None"
  | None => "Direct/None"
  end.

(** The number of clicks on [code] counted under [label]. *)
Definition clicks_with_label (code label : string) (evs : list ClickEvent)
  : nat :=
  length (List.filter (fun e => String.eqb (referrer_label e) label)
            (MongoAnalyticsRepository.match_stage code evs)).

(** Rows in descending order of count. *)
Definition descending (rows : list ReferrerRow) : Prop :=
  Sorted (fun a b => snd b <= snd a) rows.

(** The count a list of groups holds for a key, 0 when the key has no
    group. *)
Fixpoint count_of (k : option string)
  (gs : list MongoAnalyticsRepository.Group) : nat :=
  match gs with
  | [] => 0
  | (k', n) :: r => if decide (k = k') then n else count_of k r
  end.

(** The number of documents whose referrer is exactly [k]. *)
Definition count_key (k : option string) (evs : list ClickEvent) : nat :=
  length (List.filter (fun e => bool_decide (ev_referrer e = k)) evs).

(** The label of a group key after [$ifNull]. *)
Definition sentinel_or (k : option string) : string :=
  default "Direct/None" k.

(** A referrer that is neither the empty string nor the sentinel itself. *)
Definition plain_key (k : option string) : Prop :=
  k <> Some "" /\ k <> Some "Direct/None".

(** No click on [code] has the empty string or the sentinel itself as its
    referrer. *)
Definition plain_referrers (code : string) (evs : list ClickEvent) : Prop :=
  forall e, In e (MongoAnalyticsRepository.match_stage code evs) ->
    plain_key (ev_referrer e).

(** ** Worlds used in the examples *)

Module Examples.

Fixpoint index_of (c : ascii) (l : list ascii) : nat :=
  match l with
  | [] => 0
  | x :: r => if Ascii.eqb x c then 0 else S (index_of c r)
  end.

(** A random source whose [i]-th draw makes [nanoid] repeat the [i]-th
    letter of the Latin alphabet: its bytes are the position of that
    letter in [urlAlphabet]. *)
Definition letter (i _ : nat) : ascii :=
  ascii_of_nat (index_of (ascii_of_nat (97 + i mod 26))
                         (list_ascii_of_string urlAlphabet)).

(** A healthy world: empty collections and cache, no faults, the default
    configuration (no length configured, a TTL of one day), the clock at
    [t]. *)
Definition fresh (t : Z) : World :=
  mkWorld t WhatwgUrl.accepts [] [] [] ∅ ∅ [] 86400
          (CreateShortUrl.constructor_urlLength 0) letter 0.

(** A link with a generated code that expires at [t]. *)
Definition link_expiring_at (t : Z) : Link :=
  mkLink "https://example.com" "abc1234" None None 0 (Some t) true.

(** A link with a generated code that never expires. *)
Definition plain_link : Link :=
  mkLink "https://example.com/docs" "docs123" None None 0 None true.

(** Four clicks on [docs123]: one without referrer, one whose referrer is
    the empty string, two from the same page. *)
Definition four_clicks : list ClickEvent :=
  [mkClickEvent "docs123" "203.0.113.7" None 10;
   mkClickEvent "docs123" "203.0.113.8" (Some "") 20;
   mkClickEvent "docs123" "203.0.113.9" (Some "https://news.example/") 30;
   mkClickEvent "docs123" "203.0.113.9" (Some "https://news.example/") 40].

(** Links holding the first five codes the random source [letter] gives at
    length 7. *)
Definition five_taken : list Link :=
  map (fun c => mkLink ("https://example.com/" +:+ c) c None None 0 None true)
      ["aaaaaaa"; "bbbbbbb"; "ccccccc"; "ddddddd"; "eeeeeee"].

(** U+00A0, the no-break space, in UTF-8. *)
Definition nbsp : string :=
  String (ascii_of_nat 194) (String (ascii_of_nat 160) EmptyString).

(** Another creator: a link that takes the code [aaaaaaa] while a request
    is under way. *)
Definition rival : Link :=
  mkLink "https://example.org/other" "aaaaaaa" None None 999 None true.

(** The [create] of the store in a race: the rival's link is written
    after the existence check of the request and before its own write. *)
Definition racing_create (doc : Link) : M Link := fun w =>
  MongoUrlRepository.create doc (set_urls (urls w ++ [rival]) w).

End Examples.

(** ** Properties of computations *)

(** [m] never changes the component [f] of the world. *)
Definition keeps {A B} (f : World -> B) (m : M A) : Prop :=
  forall w, f (world (m w)) = f w.

(** [m] never ends with the error [e]. *)
Definition never_throws {A} (e : Error) (m : M A) : Prop :=
  forall w, outcome (m w) <> Thrown e.

(** Every call [m] makes on a port satisfies [P]. *)
Definition emits_only {A} (P : Event -> Prop) (m : M A) : Prop :=
  forall w, Forall P (events (m w)).

(** [m] behaves the same in two worlds that differ only in the cache. *)
Definition cache_blind {A} (m : M A) : Prop :=
  forall w w', forget_cache w = forget_cache w' ->
    outcome (m w) = outcome (m w') /\
    forget_cache (world (m w)) = forget_cache (world (m w')).

Definition any_true (l : list bool) : bool := existsb (fun b : bool => b) l.

(** Every store call [m] makes consumes one entry of the fault list, and a
    call that throws ends [m] with that failure. *)
Definition store_strict {A} (m : M A) : Prop :=
  forall w, exists n,
    storeFaults (world (m w)) = skipn n (storeFaults w) /\
    (any_true (firstn n (storeFaults w)) = true ->
     outcome (m w) = Thrown (StoreError StoreUnavailable)).

(** ** Notions used in the statements *)

(** The event is the hand-over of a click to the analytics service. *)
Definition is_record_click (e : Event) : bool :=
  match e with EvRecordClick _ _ => true | _ => false end.

(** The label a stored referrer value comes out under. *)
Definition key_label (k : option string) : string :=
  match k with
  | Some s => if Js.truthy s then s else "Direct/None"
  | None => "Direct/None"
  end.

(** [c] does not occur in [s]. *)
Definition free_of (c : ascii) (s : string) : Prop :=
  ~ In c (list_ascii_of_string s).

(** ** String lemmas *)

Section StringFacts.

Lemma append_length (a b : string) :
  String.length (a +:+ b) = String.length a + String.length b.
Proof. induction a as [|c a IH]; simpl; [reflexivity | now rewrite IH]. Qed.

Lemma substring_0_length (n : nat) (s : string) :
  String.length (substring 0 n s) = Nat.min n (String.length s).
Proof.
  revert n; induction s as [|c s IH]; intros [|n]; simpl; try reflexivity.
  now rewrite IH.
Qed.

Lemma slice_0_m1_length (s : string) :
  String.length (Js.slice_0_m1 s) = String.length s - 1.
Proof. unfold Js.slice_0_m1. rewrite substring_0_length. lia. Qed.

Lemma substring_0_app (a b : string) :
  substring 0 (String.length a) (a +:+ b) = a.
Proof.
  induction a as [|c a IH]; simpl.
  - now destruct b.
  - now rewrite IH.
Qed.

Lemma slice_0_m1_snoc (a : string) (c : ascii) :
  Js.slice_0_m1 (a +:+ String c "") = a.
Proof.
  unfold Js.slice_0_m1. rewrite append_length. simpl.
  replace (String.length a + 1 - 1) with (String.length a) by lia.
  apply substring_0_app.
Qed.

Lemma endsWith_cons (c : ascii) (r p : string) :
  Js.endsWith (String c r) p = String.eqb (String c r) p || Js.endsWith r p.
Proof. reflexivity. Qed.

Lemma endsWith_slash_split (s : string) :
  Js.endsWith s "/" = true -> exists a, s = a +:+ "/".
Proof.
  induction s as [|c s IH]; [discriminate|].
  rewrite endsWith_cons.
  intros H. apply orb_true_iff in H as [H|H].
  - apply String.eqb_eq in H. exists "". exact H.
  - destruct (IH H) as [a ->]. now exists (String c a).
Qed.

Lemma endsWith_snoc (a p : string) : Js.endsWith (a +:+ p) p = true.
Proof.
  induction a as [|c a IH].
  - change ("" +:+ p) with p. destruct p; [reflexivity|].
    rewrite endsWith_cons, String.eqb_refl. reflexivity.
  - change (String c a +:+ p) with (String c (a +:+ p)).
    rewrite endsWith_cons, IH. apply orb_true_r.
Qed.

Lemma endsWith_nonempty (s : string) :
  Js.endsWith s "/" = true -> 1 <= String.length s.
Proof. destruct s; simpl; [discriminate | lia]. Qed.

Lemma prefix_app (p x : string) : String.prefix p (p +:+ x) = true.
Proof.
  induction p as [|c p IH]; simpl; [now destruct x|].
  destruct (ascii_dec c c); [exact IH | congruence].
Qed.

Lemma prefix_length (p s : string) :
  String.prefix p s = true -> String.length p <= String.length s.
Proof.
  revert s; induction p as [|c p IH]; intros [|d s]; simpl; try lia;
    try discriminate.
  destruct (ascii_dec c d); [|discriminate]. intros H. apply IH in H. lia.
Qed.

End StringFacts.

(** ** Trimming *)

Section Trim.

Import Js.

Lemma strip_spec (p l l' : list ascii) :
  strip p l = Some l' <-> l = (p ++ l')%list.
Proof.
  revert l. induction p as [|c p IH]; intros l; simpl.
  - split; [now intros [= ->] | now intros ->].
  - destruct l as [|x l]; [split; discriminate|].
    destruct (Ascii.eqb_spec x c) as [->|Hne].
    + rewrite IH. split; [now intros -> | now intros [= ->]].
    + split; [discriminate | intros [= E _]; contradiction].
Qed.

Lemma strip_any_some (ps : list (list ascii)) (l l' : list ascii) :
  strip_any ps l = Some l' -> exists p, In p ps /\ l = (p ++ l')%list.
Proof.
  induction ps as [|p ps IH]; simpl; [discriminate|].
  destruct (strip p l) as [x|] eqn:E.
  - intros [= <-]. exists p. split; [now left | now apply strip_spec].
  - intros H. destruct (IH H) as (q & Hq & Hl). exists q. split; [now right | exact Hl].
Qed.

Lemma strip_any_none (ps : list (list ascii)) (l : list ascii) :
  strip_any ps l = None ->
  forall p l', In p ps -> l <> (p ++ l')%list.
Proof.
  induction ps as [|q ps IH]; simpl; [intros _ p l' []|].
  destruct (strip q l) as [x|] eqn:E; [discriminate|].
  intros H p l' [<-|Hin] Hl.
  - apply strip_spec in Hl. congruence.
  - exact (IH H p l' Hin Hl).
Qed.

Lemma strip_any_prefix (ps : list (list ascii)) (p l' : list ascii) :
  In p ps -> strip_any ps (p ++ l')%list <> None.
Proof.
  intros Hin H. exact (strip_any_none ps _ H p l' Hin eq_refl).
Qed.

Lemma drop_all_fix (n : nat) (ps : list (list ascii)) (l : list ascii) :
  strip_any ps l = None -> drop_all n ps l = l.
Proof. destruct n; simpl; [reflexivity|]. now intros ->. Qed.

Lemma drop_all_split (n : nat) (ps : list (list ascii)) (l : list ascii) :
  exists pre, l = (pre ++ drop_all n ps l)%list /\
              Forall (fun c => In c (concat ps)) pre.
Proof.
  revert l. induction n as [|n IH]; intros l; simpl.
  - exists []. now split.
  - destruct (strip_any ps l) as [l'|] eqn:E; [|exists []; now split].
    destruct (strip_any_some _ _ _ E) as (p & Hp & ->).
    destruct (IH l') as (pre & Hl & Hpre).
    exists (p ++ pre)%list. split.
    + rewrite <- app_assoc. now rewrite <- Hl.
    + apply Forall_app. split; [|exact Hpre].
      apply List.Forall_forall. intros c Hc.
      apply in_concat. now exists p.
Qed.

Lemma drop_all_done (n : nat) (ps : list (list ascii)) (l : list ascii) :
  ~ In [] ps -> length l <= n -> strip_any ps (drop_all n ps l) = None.
Proof.
  intros Hne. revert l. induction n as [|n IH]; intros l Hn; simpl.
  - destruct l; [|simpl in Hn; lia].
    destruct (strip_any ps []) as [l'|] eqn:E; [|reflexivity].
    destruct (strip_any_some _ _ _ E) as (p & Hp & Hl).
    symmetry in Hl. apply app_eq_nil in Hl as (-> & _). contradiction.
  - destruct (strip_any ps l) as [l'|] eqn:E; [|exact E].
    apply IH. destruct (strip_any_some _ _ _ E) as (p & Hp & ->).
    rewrite length_app in Hn. destruct p; [contradiction|]. simpl in Hn. lia.
Qed.

Lemma white_space_nonempty : ~ In [] white_space.
Proof. vm_compute. intuition discriminate. Qed.

Lemma white_space_rev_nonempty : ~ In [] (map (@rev ascii) white_space).
Proof. vm_compute. intuition discriminate. Qed.

Lemma ws_byte_spec (c : ascii) :
  In c (concat white_space) -> ws_byte c = true.
Proof.
  intros H. apply in_concat in H as (p & Hp & Hc). unfold ws_byte.
  apply existsb_exists. exists p. split; [exact Hp|].
  apply existsb_exists. exists c. split; [exact Hc | apply Ascii.eqb_refl].
Qed.

Lemma ws_byte_rev_spec (c : ascii) :
  In c (concat (map (@rev ascii) white_space)) -> ws_byte c = true.
Proof.
  intros H. apply in_concat in H as (p & Hp & Hc).
  apply in_map_iff in Hp as (q & <- & Hq). apply in_rev in Hc.
  apply ws_byte_spec. apply in_concat. now exists q.
Qed.

(** Where the two ends are no white space, [drop_all] finds nothing. *)
Lemma strip_any_head (ps : list (list ascii)) (x : ascii) (l : list ascii) :
  ~ In [] ps -> ~ In x (concat ps) -> strip_any ps (x :: l) = None.
Proof.
  intros Hne Hx. destruct (strip_any ps (x :: l)) as [l'|] eqn:E;
    [|reflexivity].
  destruct (strip_any_some _ _ _ E) as (p & Hp & Hl).
  destruct p as [|c p]; [contradiction|]. injection Hl as -> _.
  exfalso. apply Hx. apply in_concat. exists (c :: p). split; [exact Hp | now left].
Qed.

Lemma strip_any_nil (ps : list (list ascii)) :
  ~ In [] ps -> strip_any ps [] = None.
Proof.
  intros Hne. destruct (strip_any ps []) as [l'|] eqn:E; [|reflexivity].
  destruct (strip_any_some _ _ _ E) as (p & Hp & Hl).
  symmetry in Hl. apply app_eq_nil in Hl as (-> & _). contradiction.
Qed.

Lemma trim_list_start (l : list ascii) :
  strip_any white_space (drop_all (length l) white_space l) = None.
Proof. apply drop_all_done; [apply white_space_nonempty | lia]. Qed.

Lemma trim_list_fixed (l : list ascii) :
  strip_any white_space l = None ->
  strip_any (map (@rev ascii) white_space) (rev l) = None ->
  trim_list l = l.
Proof.
  intros H1 H2. unfold trim_list. rewrite (drop_all_fix _ _ _ H1).
  rewrite (drop_all_fix _ _ _ H2). apply rev_involutive.
Qed.

Lemma trim_list_idem (l : list ascii) :
  trim_list (trim_list l) = trim_list l.
Proof.
  apply trim_list_fixed.
  - unfold trim_list. set (x := drop_all (length l) white_space l).
    assert (Hx : strip_any white_space x = None) by apply trim_list_start.
    destruct (drop_all_split (length x) (map (@rev ascii) white_space)
                (rev x)) as (pre & Hl & _).
    set (y := drop_all _ _ (rev x)) in *.
    destruct (strip_any white_space (rev y)) as [l'|] eqn:E; [|reflexivity].
    destruct (strip_any_some _ _ _ E) as (p & Hp & Hy).
    exfalso. apply (strip_any_none _ _ Hx p (l' ++ rev pre)%list Hp).
    rewrite <- (rev_involutive x), Hl, rev_app_distr, Hy.
    now rewrite <- app_assoc.
  - unfold trim_list. rewrite rev_involutive.
    apply drop_all_done; [apply white_space_rev_nonempty|].
    now rewrite length_rev.
Qed.

Lemma trim_idem (s : string) : trim (trim s) = trim s.
Proof.
  unfold trim. rewrite list_ascii_of_string_of_list_ascii.
  now rewrite trim_list_idem.
Qed.

(** A string without any white space byte is left as it is. *)
Lemma trim_list_plain (l : list ascii) :
  Forall (fun c => ws_byte c = false) l -> trim_list l = l.
Proof.
  intros H. apply trim_list_fixed.
  - destruct l as [|x l]; [apply strip_any_nil, white_space_nonempty|].
    apply strip_any_head; [apply white_space_nonempty|].
    intros Hx. apply ws_byte_spec in Hx. inversion H; congruence.
  - destruct (rev l) as [|x r] eqn:E;
      [apply strip_any_nil, white_space_rev_nonempty|].
    apply strip_any_head; [apply white_space_rev_nonempty|].
    intros Hx. apply ws_byte_rev_spec in Hx.
    assert (Hin : In x l) by (apply in_rev; rewrite E; now left).
    rewrite List.Forall_forall in H. specialize (H x Hin). congruence.
Qed.

Lemma alias_char_plain (c : ascii) :
  CreateShortUrl.alias_char c = true -> ws_byte c = false.
Proof.
  destruct c as [[] [] [] [] [] [] [] []]; vm_compute; congruence.
Qed.

Lemma trim_alias_chars (s : string) :
  forallb CreateShortUrl.alias_char (list_ascii_of_string s) = true ->
  trim s = s.
Proof.
  intros H. unfold trim. rewrite trim_list_plain.
  - apply string_of_list_ascii_of_string.
  - apply List.Forall_forall. intros c Hc. apply alias_char_plain.
    rewrite forallb_forall in H. now apply H.
Qed.

(** A first byte that is no white space stays where it is. *)
Lemma trim_list_head (x : ascii) (l : list ascii) :
  ws_byte x = false -> exists l', trim_list (x :: l) = x :: l'.
Proof.
  intros Hx. unfold trim_list.
  assert (H1 : strip_any white_space (x :: l) = None).
  { apply strip_any_head; [apply white_space_nonempty|].
    intros H. apply ws_byte_spec in H. congruence. }
  rewrite (drop_all_fix _ _ _ H1).
  destruct (drop_all_split (length (x :: l)) (map (@rev ascii) white_space)
              (rev (x :: l))) as (pre & Hl & Hpre).
  set (y := drop_all _ _ _) in *.
  assert (E : x :: l = (rev y ++ rev pre)%list).
  { rewrite <- rev_app_distr, <- Hl. now rewrite rev_involutive. }
  destruct (rev y) as [|z r]; [|injection E as <- _; now exists r].
  exfalso. simpl in E.
  assert (Hin : In x pre) by (apply in_rev; rewrite <- E; now left).
  rewrite List.Forall_forall in Hpre. apply Hpre, ws_byte_rev_spec in Hin.
  congruence.
Qed.

Lemma trim_head (x : ascii) (s : string) :
  ws_byte x = false -> exists s', trim (String x s) = String x s'.
Proof.
  intros Hx. unfold trim. cbn [list_ascii_of_string].
  destruct (trim_list_head x (list_ascii_of_string s) Hx) as (l' & ->).
  now exists (string_of_list_ascii l').
Qed.

End Trim.

(** ** Normalizer facts *)

Lemma ensure_protocol_has_prefix (url : string) :
  has_http_prefix (ensure_protocol url) = true.
Proof.
  unfold ensure_protocol, has_http_prefix.
  destruct (Js.startsWith url "http://") eqn:E1; cbn [negb andb orb];
    [now rewrite E1|].
  destruct (Js.startsWith url "https://") eqn:E2; cbn [negb andb orb].
  - rewrite E1, E2. reflexivity.
  - unfold Js.startsWith. rewrite (prefix_app "https://" url).
    apply orb_true_r.
Qed.

Lemma ensure_protocol_id (url : string) :
  has_http_prefix url = true -> ensure_protocol url = url.
Proof.
  unfold has_http_prefix, ensure_protocol. intros H.
  apply orb_true_iff in H as [-> | ->]; cbn [negb andb]; [reflexivity|].
  now rewrite andb_false_r.
Qed.

Lemma ensure_protocol_length (url : string) :
  has_http_prefix url = false ->
  String.length (ensure_protocol url) = 8 + String.length url.
Proof.
  unfold has_http_prefix, ensure_protocol. intros H.
  apply orb_false_iff in H as [-> ->]. cbn [negb andb].
  now rewrite append_length.
Qed.

(** A string is left alone by the normalizer exactly when it carries one of
    the two prefixes and has no trailing slash. *)
Lemma normalize_fixed_point (y : string) :
  _normalizeUrl y = y <->
  has_http_prefix y = true /\ Js.endsWith y "/" = false.
Proof.
  unfold _normalizeUrl, remove_trailing_slash. split.
  - intros H. destruct (has_http_prefix y) eqn:Hp.
    + split; [reflexivity|]. rewrite (ensure_protocol_id y Hp) in H.
      destruct (Js.endsWith y "/") eqn:He; [|reflexivity].
      apply (f_equal String.length) in H.
      rewrite slice_0_m1_length in H.
      apply endsWith_nonempty in He. lia.
    + exfalso. apply (f_equal String.length) in H.
      pose proof (ensure_protocol_length y Hp) as Hl.
      destruct (Js.endsWith (ensure_protocol y) "/").
      * rewrite slice_0_m1_length in H. lia.
      * lia.
  - intros [Hp He]. rewrite (ensure_protocol_id y Hp), He. reflexivity.
Qed.

(** C6, as the code has it: one trailing slash is removed, and a second
    pass changes nothing exactly when the first result kept its prefix
    and lost its last slash. *)
Theorem normalize_strips_one_and_idempotent_iff (x : string) :
  (Js.endsWith x "/" = true ->
     _normalizeUrl x +:+ "/" = ensure_protocol x) /\
  (_normalizeUrl (_normalizeUrl x) = _normalizeUrl x <->
     has_http_prefix (_normalizeUrl x) = true /\
     Js.endsWith (_normalizeUrl x) "/" = false).
Proof.
  split; [|apply normalize_fixed_point].
  intros He. unfold _normalizeUrl, remove_trailing_slash.
  assert (Hp : Js.endsWith (ensure_protocol x) "/" = true).
  { unfold ensure_protocol.
    destruct (negb _ && negb _); [|exact He].
    destruct (endsWith_slash_split x He) as [a ->].
    change ("https://" +:+ (a +:+ "/")) with (("https://" +:+ a) +:+ "/").
    apply endsWith_snoc. }
  rewrite Hp. destruct (endsWith_slash_split _ Hp) as [a Ha].
  rewrite Ha. now rewrite slice_0_m1_snoc.
Qed.

(** C6, as stated, fails: a second normalization strips a second slash. *)
Lemma normalize_twice_differs :
  Js.endsWith "https://a.com//" "/" = true /\
  _normalizeUrl "https://a.com//" = "https://a.com/" /\
  _normalizeUrl (_normalizeUrl "https://a.com//") = "https://a.com" /\
  _normalizeUrl (_normalizeUrl "https://a.com//")
    <> _normalizeUrl "https://a.com//".
Proof. repeat split; try reflexivity. vm_compute. discriminate. Qed.

(** A bare host with a trailing slash: one slash goes, and the result is a
    fixed point. *)
Lemma normalize_strips_one_and_idempotent_iff_witness :
  Js.endsWith "example.com/" "/" = true /\
  _normalizeUrl "example.com/" +:+ "/" = ensure_protocol "example.com/" /\
  _normalizeUrl (_normalizeUrl "example.com/") = _normalizeUrl "example.com/".
Proof.
  split; [reflexivity|]. split.
  - apply (proj1 (normalize_strips_one_and_idempotent_iff "example.com/")).
    reflexivity.
  - apply (proj2 (normalize_strips_one_and_idempotent_iff "example.com/")).
    split; reflexivity.
Defined.

(** The normalized string is never empty. *)
Lemma has_http_prefix_length (y : string) :
  has_http_prefix y = true -> 7 <= String.length y.
Proof.
  unfold has_http_prefix, Js.startsWith. intros H.
  apply orb_true_iff in H as [H|H]; apply prefix_length in H; simpl in H; lia.
Qed.

Lemma normalize_truthy (x : string) : Js.truthy (_normalizeUrl x) = true.
Proof.
  assert (H : 6 <= String.length (_normalizeUrl x)).
  { unfold _normalizeUrl, remove_trailing_slash.
    pose proof (has_http_prefix_length _ (ensure_protocol_has_prefix x)).
    destruct (Js.endsWith _ _); [rewrite slice_0_m1_length|]; lia. }
  unfold Js.truthy. destruct (_normalizeUrl x); [simpl in H; lia | reflexivity].
Qed.

Lemma has_http_prefix_head (y : string) :
  has_http_prefix y = true -> exists r, y = String "h" r.
Proof.
  unfold has_http_prefix, Js.startsWith. intros H.
  destruct y as [|c y]; [discriminate|].
  apply orb_true_iff in H as [H|H]; cbn [String.prefix] in H;
    destruct (ascii_dec "h" c) as [<-|]; try discriminate; now exists y.
Qed.

Lemma normalize_head (x : string) : exists r, _normalizeUrl x = String "h" r.
Proof.
  unfold _normalizeUrl, remove_trailing_slash.
  pose proof (ensure_protocol_has_prefix x) as Hp.
  destruct (has_http_prefix_head _ Hp) as (r & E).
  pose proof (has_http_prefix_length _ Hp) as Hl.
  destruct (Js.endsWith _ _); [|now exists r].
  rewrite E in *. unfold Js.slice_0_m1.
  cbn [String.length] in *.
  replace (S (String.length r) - 1) with (S (String.length r - 1)) by lia.
  cbn [substring]. eauto.
Qed.

(** The normalized URL starts with [h]: trimming leaves it non-empty. *)
Lemma normalize_trim_truthy (x : string) :
  Js.truthy (Js.trim (_normalizeUrl x)) = true.
Proof.
  destruct (normalize_head x) as (r & ->).
  destruct (trim_head "h" r eq_refl) as (s' & ->). reflexivity.
Qed.

(** ** The facade *)

Section Facade.

Import ShortenerService.

Lemma own_resolveUrl :
  own shortenerService !! "resolveUrl" = Some (VUseCase ResolveUrlInstance).
Proof. reflexivity. Qed.

Lemma proto_resolveUrl :
  proto shortenerService !! "resolveUrl" = Some (VFunction resolveUrl).
Proof. reflexivity. Qed.

(** The method itself is sound: called on the prototype with the service
    as [this], it runs the use case. *)
Lemma prototype_method_runs_use_case (fuel : nat) (args : list Arg)
  (w : World) :
  outcome (call_on_prototype fuel shortenerService "resolveUrl" args w) =
  match outcome (ResolveUrl.execute false (string_arg (args !! 0%nat))
                                    (request_arg (args !! 1%nat)) w) with
  | Returned r => Returned (RString (ResolveUrl.res_originalUrl r))
  | Thrown e => Thrown e
  | OutOfFuel => OutOfFuel
  end.
Proof.
  unfold call_on_prototype. rewrite proto_resolveUrl.
  unfold body, get_property. rewrite own_resolveUrl.
  unfold bind, ret.
  destruct (outcome (ResolveUrl.execute _ _ _ w)); reflexivity.
Qed.

(** C3: the own property [resolveUrl] holds the use case and hides the
    method of the prototype, so [shortenerService.resolveUrl(...)] throws
    a type error for every argument list, touches no port, and returns no
    URL. *)
Theorem facade_resolveUrl_is_not_callable :
  own shortenerService !! "resolveUrl" = Some (VUseCase ResolveUrlInstance) /\
  proto shortenerService !! "resolveUrl" = Some (VFunction resolveUrl) /\
  forall (fuel : nat) (args : list Arg) (w : World),
    call fuel shortenerService "resolveUrl" args w =
      mkRun (Thrown (NotAFunction "resolveUrl")) w [] /\
    forall r, outcome (call fuel shortenerService "resolveUrl" args w)
              <> Returned r.
Proof.
  split; [reflexivity|]. split; [reflexivity|].
  intros fuel args w.
  assert (E : call fuel shortenerService "resolveUrl" args w =
              mkRun (Thrown (NotAFunction "resolveUrl")) w []).
  { unfold call, get_property. rewrite own_resolveUrl. reflexivity. }
  split; [exact E|]. intros r. rewrite E. simpl. discriminate.
Qed.

End Facade.

(** ** What a computation leaves alone *)

Section Frames.

Context {B : Type} (f : World -> B).

Lemma keeps_ret {A} (a : A) : keeps f (ret a).
Proof. intros w. reflexivity. Qed.

Lemma keeps_throw {A} (e : Error) : keeps f (@throw A e).
Proof. intros w. reflexivity. Qed.

Lemma keeps_out_of_fuel {A} : keeps f (@out_of_fuel A).
Proof. intros w. reflexivity. Qed.

Lemma keeps_emit (e : Event) : keeps f (emit e).
Proof. intros w. reflexivity. Qed.

Lemma keeps_read {A} (g : World -> A) : keeps f (read g).
Proof. intros w. reflexivity. Qed.

Lemma keeps_bind {A C} (m : M A) (k : A -> M C) :
  keeps f m -> (forall a, keeps f (k a)) -> keeps f (bind m k).
Proof.
  intros Hm Hk w. unfold bind.
  destruct (outcome (m w)) eqn:E; simpl; [|apply Hm..].
  rewrite Hk. apply Hm.
Qed.

Lemma keeps_try_catch {A} (m : M A) (h : Error -> M A) :
  keeps f m -> (forall e, keeps f (h e)) -> keeps f (try_catch m h).
Proof.
  intros Hm Hh w. unfold try_catch.
  destruct (outcome (m w)) eqn:E; simpl; [apply Hm| |apply Hm].
  rewrite Hh. apply Hm.
Qed.

Hypothesis f_storeFaults : forall v w, f (set_storeFaults v w) = f w.

Lemma keeps_query {A} (ev : Event) (answer : list Link -> A) :
  keeps f (MongoUrlRepository.query ev answer).
Proof.
  intros w. unfold MongoUrlRepository.query, MongoUrlRepository.next_fault.
  destruct (storeFaults w) as [|[] fs]; simpl; rewrite ?f_storeFaults;
    reflexivity.
Qed.

Hypothesis f_draws : forall v w, f (set_draws v w) = f w.

Lemma keeps_nanoid (size : nat) : keeps f (nanoid size).
Proof. intros w. unfold nanoid. simpl. apply f_draws. Qed.

Hypothesis f_urlLength : forall v w, f (set_urlLength v w) = f w.

Lemma keeps_generate_loop (fuel attempts : nat) :
  keeps f (CreateShortUrl.generate_loop fuel attempts).
Proof.
  revert attempts. induction fuel as [|fuel IH]; intros attempts.
  - apply keeps_out_of_fuel.
  - cbn [CreateShortUrl.generate_loop].
    apply keeps_bind; [apply keeps_read|intros len].
    apply keeps_bind; [apply keeps_nanoid|intros code].
    apply keeps_bind; [apply keeps_query|intros ex].
    apply keeps_bind.
    + destruct (_ <=? _)%nat; [|apply keeps_ret].
      intros w. simpl. apply f_urlLength.
    + intros a. destruct ex; [apply IH | apply keeps_ret].
Qed.

Lemma keeps_choose_code (fuel : nat) (alias : option string) :
  keeps f (CreateShortUrl.choose_code fuel alias).
Proof.
  unfold CreateShortUrl.choose_code, CreateShortUrl._generateUniqueShortCode.
  destruct alias as [a|]; [|apply keeps_generate_loop].
  destruct (Js.truthy a); [|apply keeps_generate_loop].
  destruct (negb _); [apply keeps_throw|].
  apply keeps_bind; [apply keeps_query|intros ex].
  destruct ex; [apply keeps_throw | apply keeps_ret].
Qed.

Lemma keeps_Url_new (u : Link) : keeps f (Url.new u).
Proof.
  unfold Url.new, Url._validate.
  apply keeps_bind; [|intros; apply keeps_ret].
  destruct (negb _); [apply keeps_throw|].
  destruct (negb _); [apply keeps_throw|].
  apply keeps_bind; [apply keeps_read|intros ok].
  destruct ok; [apply keeps_ret | apply keeps_throw].
Qed.

End Frames.

Section CacheFrames.

Context {B : Type} (f : World -> B).
Hypothesis f_cacheFaults : forall v w, f (set_cacheFaults v w) = f w.
Hypothesis f_cache : forall v w, f (set_cache v w) = f w.

Lemma keeps_cache_get (key : string) : keeps f (Cache.get key).
Proof.
  intros w. unfold Cache.get, Cache.next_fault.
  destruct (cacheFaults w) as [|[] fs]; simpl; rewrite ?f_cacheFaults;
    reflexivity.
Qed.

Lemma keeps_cache_set (key value : string) (ttl : option Z) :
  keeps f (Cache.set key value ttl).
Proof.
  intros w. unfold Cache.set, Cache.next_fault.
  destruct (cacheFaults w) as [|[] fs]; simpl;
    rewrite ?f_cache, ?f_cacheFaults; reflexivity.
Qed.

Lemma keeps_create_cacheUrl (code url : string) :
  keeps f (CreateShortUrl._cacheUrl code url).
Proof.
  unfold CreateShortUrl._cacheUrl.
  apply keeps_try_catch; [|intros; apply keeps_emit].
  apply keeps_bind; [apply keeps_read|intros ttl].
  apply keeps_bind; [apply keeps_cache_set|intros; apply keeps_ret].
Qed.

Lemma keeps_resolve_cacheUrl (code url : string) :
  keeps f (ResolveUrl._cacheUrl code url).
Proof.
  unfold ResolveUrl._cacheUrl.
  apply keeps_try_catch; [|intros; apply keeps_emit].
  apply keeps_bind; [apply keeps_cache_set|intros; apply keeps_ret].
Qed.

Lemma keeps_getFromCache (code : string) :
  keeps f (ResolveUrl._getFromCache code).
Proof.
  unfold ResolveUrl._getFromCache.
  apply keeps_try_catch; [apply keeps_cache_get|intros e].
  apply keeps_bind; [apply keeps_emit|intros; apply keeps_ret].
Qed.

End CacheFrames.

(** Side conditions of the frame lemmas, for the fields of the world. *)
Ltac field_frame := intros; reflexivity.

(** ** Running a sequence *)

Lemma bind_returned {A B} (m : M A) (k : A -> M B) (w w' : World) (a : A)
  (ev : list Event) :
  m w = mkRun (Returned a) w' ev ->
  bind m k w =
    mkRun (outcome (k a w')) (world (k a w')) (ev ++ events (k a w')).
Proof. intros H. unfold bind. rewrite H. reflexivity. Qed.

Lemma bind_thrown {A B} (m : M A) (k : A -> M B) (w w' : World) (e : Error)
  (ev : list Event) :
  m w = mkRun (Thrown e) w' ev -> bind m k w = mkRun (Thrown e) w' ev.
Proof. intros H. unfold bind. rewrite H. reflexivity. Qed.

Lemma bind_read {A B} (g : World -> A) (k : A -> M B) (w : World) :
  bind (read g) k w = k (g w) w.
Proof. unfold bind, read. simpl. now destruct (k (g w) w). Qed.

Lemma bind_outcome_returned {A B} (m : M A) (k : A -> M B) (w : World)
  (a : A) :
  outcome (m w) = Returned a ->
  outcome (bind m k w) = outcome (k a (world (m w))) /\
  world (bind m k w) = world (k a (world (m w))) /\
  events (bind m k w) = (events (m w) ++ events (k a (world (m w))))%list.
Proof. intros H. unfold bind. rewrite H. now repeat split. Qed.

Lemma bind_outcome_thrown {A B} (m : M A) (k : A -> M B) (w : World)
  (e : Error) :
  outcome (m w) = Thrown e ->
  outcome (bind m k w) = Thrown e /\
  world (bind m k w) = world (m w) /\
  events (bind m k w) = events (m w).
Proof. intros H. unfold bind. rewrite H. now repeat split. Qed.

Lemma bind_world {A B} (m : M A) (k : A -> M B) (w : World) :
  world (bind m k w) =
    match outcome (m w) with
    | Returned a => world (k a (world (m w)))
    | _ => world (m w)
    end.
Proof. unfold bind. now destruct (outcome (m w)). Qed.

Lemma bind_outcome {A B} (m : M A) (k : A -> M B) (w : World) :
  outcome (bind m k w) =
    match outcome (m w) with
    | Returned a => outcome (k a (world (m w)))
    | Thrown e => Thrown e
    | OutOfFuel => OutOfFuel
    end.
Proof. unfold bind. now destruct (outcome (m w)). Qed.

Lemma bind_events {A B} (m : M A) (k : A -> M B) (w : World) :
  events (bind m k w) =
    (events (m w) ++
     match outcome (m w) with
     | Returned a => events (k a (world (m w)))
     | _ => []
     end)%list.
Proof.
  unfold bind. destruct (outcome (m w)); cbn [events];
    now rewrite ?app_nil_r.
Qed.

(** ** Single calls on the ports *)

Lemma query_answers {A} (ev : Event) (answer : list Link -> A) (w : World) :
  hd false (storeFaults w) = false ->
  MongoUrlRepository.query ev answer w =
    mkRun (Returned (answer (urls w)))
          (set_storeFaults (tl (storeFaults w)) w) [ev].
Proof.
  unfold MongoUrlRepository.query, MongoUrlRepository.next_fault.
  destruct w as [? ? ? ? sf ? ? ? ? ? ? ?]; simpl.
  destruct sf as [|[] fs]; simpl; intros H; try discriminate; reflexivity.
Qed.

Lemma query_throws {A} (ev : Event) (answer : list Link -> A) (w : World) :
  hd false (storeFaults w) = true ->
  MongoUrlRepository.query ev answer w =
    mkRun (Thrown (StoreError StoreUnavailable))
          (set_storeFaults (tl (storeFaults w)) w) [ev].
Proof.
  unfold MongoUrlRepository.query, MongoUrlRepository.next_fault.
  destruct (storeFaults w) as [|[] fs]; simpl; intros H; try discriminate;
    reflexivity.
Qed.

Lemma getFromCache_returns (code : string) (w : World) :
  exists v, outcome (ResolveUrl._getFromCache code w) = Returned v.
Proof.
  unfold ResolveUrl._getFromCache, try_catch, Cache.get, Cache.next_fault.
  destruct (cacheFaults w) as [|[] fs]; simpl; eauto.
Qed.

Lemma getFromCache_cacheFaults (code : string) (w : World) :
  cacheFaults (world (ResolveUrl._getFromCache code w)) = tl (cacheFaults w).
Proof.
  unfold ResolveUrl._getFromCache, try_catch, Cache.get, Cache.next_fault.
  destruct (cacheFaults w) as [|[] fs] eqn:E; simpl; try reflexivity.
  exact E.
Qed.

Lemma resolve_cacheUrl_run (code url : string) (w : World) :
  outcome (ResolveUrl._cacheUrl code url w) = Returned tt /\
  In (EvCacheSet ("url:" +:+ code) url None)
     (events (ResolveUrl._cacheUrl code url w)) /\
  (hd CacheOk (cacheFaults w) = CacheOk ->
   cache (world (ResolveUrl._cacheUrl code url w)) !! ("url:" +:+ code) =
     Some (url, (now w + 1000 * Cache.defaultTtl w)%Z)).
Proof.
  unfold ResolveUrl._cacheUrl, try_catch, bind, Cache.set, Cache.next_fault.
  destruct (cacheFaults w) as [|[] fs]; simpl;
    (split; [reflexivity|]); (split; [now left|]); intros H;
    try discriminate; apply lookup_insert_eq.
Qed.

(** ** ResolveUrl on a cache miss *)

Lemma from_repository_run (code : string) (w : World) :
  hd false (storeFaults w) = false ->
  let r := ResolveUrl.from_repository code w in
  match MongoUrlRepository.find_by_code code (urls w) with
  | None => outcome r = Thrown UrlNotFound
  | Some u =>
      if negb (isActive u) then outcome r = Thrown LinkDeactivated
      else if Url.isExpired (now w) (expiresAt u)
      then outcome r = Thrown LinkExpired
      else
        outcome r = Returned (ResolveUrl.mkResult (originalUrl u) (Some u)) /\
        In (EvCacheSet ("url:" +:+ code) (originalUrl u) None) (events r) /\
        (hd CacheOk (cacheFaults w) = CacheOk ->
         cache (world r) !! ("url:" +:+ code) =
           Some (originalUrl u, (now w + 1000 * Cache.defaultTtl w)%Z))
  end.
Proof.
  intros Hs r. subst r. unfold ResolveUrl.from_repository,
    MongoUrlRepository.findByShortCode.
  rewrite (bind_returned _ _ _ _ _ _ (query_answers _ _ w Hs)).
  set (w1 := set_storeFaults (tl (storeFaults w)) w).
  destruct (MongoUrlRepository.find_by_code code (urls w)) as [u|];
    [|reflexivity].
  destruct (isActive u); cbn [negb]; [|reflexivity].
  rewrite bind_read. change (now w1) with (now w).
  destruct (Url.isExpired (now w) (expiresAt u)); [reflexivity|].
  destruct (resolve_cacheUrl_run code (originalUrl u) w1) as (Ho & He & Hc).
  destruct (bind_outcome_returned _
              (fun _ => ret (ResolveUrl.mkResult (originalUrl u) (Some u)))
              w1 tt Ho) as (E1 & E2 & E3).
  cbn [outcome world events]. rewrite E1, E2, E3.
  split; [reflexivity|]. split.
  - apply in_or_app. right. apply in_or_app. left. exact He.
  - intros H. apply Hc. exact H.
Qed.

Lemma execute_after_miss (analytics : bool) (code : string)
  (rd : option RequestData) (w : World) :
  Js.truthy code = true ->
  outcome (ResolveUrl._getFromCache code w) = Returned None ->
  let w0 := world (ResolveUrl._getFromCache code w) in
  let r := ResolveUrl.execute analytics code rd w in
  let r0 := ResolveUrl.from_repository code w0 in
  (forall e, outcome r0 = Thrown e -> outcome r = Thrown e) /\
  (forall x, outcome r0 = Returned x ->
     outcome r = Returned x /\
     (forall ev, In ev (events r0) -> In ev (events r)) /\
     cache (world r) = cache (world r0)).
Proof.
  intros Ht Hm w0 r r0. subst r. unfold ResolveUrl.execute.
  rewrite Ht. cbn [negb].
  destruct (bind_outcome_returned (ResolveUrl._getFromCache code)
    (fun cached =>
       let* r := match cached with
                 | Some url =>
                     if Js.truthy url then ret (ResolveUrl.mkResult url None)
                     else ResolveUrl.from_repository code
                 | None => ResolveUrl.from_repository code
                 end in
       let* _ := match rd with
                 | Some rd0 =>
                     if analytics then ResolveUrl._recordAnalytics code rd0
                     else ret tt
                 | None => ret tt
                 end in
       ret r) w None Hm) as (E1 & E2 & E3).
  rewrite E1, E2, E3. fold w0. fold r0. split.
  - intros e He.
    destruct (bind_outcome_thrown (ResolveUrl.from_repository code)
      (fun r => let* _ := match rd with
                          | Some rd0 =>
                              if analytics
                              then ResolveUrl._recordAnalytics code rd0
                              else ret tt
                          | None => ret tt
                          end in ret r) w0 e He) as (F1 & _).
    exact F1.
  - intros x Hx.
    destruct (bind_outcome_returned (ResolveUrl.from_repository code)
      (fun r => let* _ := match rd with
                          | Some rd0 =>
                              if analytics
                              then ResolveUrl._recordAnalytics code rd0
                              else ret tt
                          | None => ret tt
                          end in ret r) w0 x Hx) as (F1 & F2 & F3).
    rewrite F1, F2, F3. fold r0.
    split; [|split].
    + destruct rd as [rd0|]; [destruct analytics|]; reflexivity.
    + intros ev Hev. apply in_or_app. right. apply in_or_app. now left.
    + destruct rd as [rd0|]; [destruct analytics|]; reflexivity.
Qed.

(** C1, as the code has it: on a cache miss the link is looked up in the
    store, which compares the code once white space is trimmed from its
    ends; an absent link gives [UrlNotFound], an inactive one
    [LinkDeactivated], one whose [expiresAt] lies strictly before now
    [LinkExpired]; any other link (also one that expires at this very
    instant) is written to the cache under [url:<code>] and its
    [originalUrl] is returned. *)
Theorem resolve_on_cache_miss (analytics : bool) (code : string)
  (rd : option RequestData) (w : World) :
  Js.truthy code = true ->
  outcome (ResolveUrl._getFromCache code w) = Returned None ->
  hd false (storeFaults w) = false ->
  let r := ResolveUrl.execute analytics code rd w in
  let found := MongoUrlRepository.find_by_code code (urls w) in
  (found = None -> outcome r = Thrown UrlNotFound) /\
  (forall u, found = Some u -> isActive u = false ->
     outcome r = Thrown LinkDeactivated) /\
  (forall u t, found = Some u -> isActive u = true ->
     expiresAt u = Some t -> (t < now w)%Z ->
     outcome r = Thrown LinkExpired) /\
  (forall u, found = Some u -> isActive u = true ->
     (forall t, expiresAt u = Some t -> (now w <= t)%Z) ->
     outcome r = Returned (ResolveUrl.mkResult (originalUrl u) (Some u)) /\
     In (EvCacheSet ("url:" +:+ code) (originalUrl u) None) (events r) /\
     (nth 1 (cacheFaults w) CacheOk = CacheOk ->
      cache (world r) !! ("url:" +:+ code) =
        Some (originalUrl u, (now w + 1000 * Cache.defaultTtl w)%Z))).
Proof.
  intros Ht Hm Hs r found.
  destruct (execute_after_miss analytics code rd w Ht Hm) as [Hthrow Hret].
  set (w0 := world (ResolveUrl._getFromCache code w)) in *.
  assert (Hu : urls w0 = urls w)
    by (apply (keeps_getFromCache urls); field_frame).
  assert (Hn : now w0 = now w)
    by (apply (keeps_getFromCache now); field_frame).
  assert (Hsf : storeFaults w0 = storeFaults w)
    by (apply (keeps_getFromCache storeFaults); field_frame).
  assert (Htl : redisTtl w0 = redisTtl w)
    by (apply (keeps_getFromCache redisTtl); field_frame).
  assert (Hcf : cacheFaults w0 = tl (cacheFaults w))
    by apply getFromCache_cacheFaults.
  assert (Hs0 : hd false (storeFaults w0) = false) by now rewrite Hsf.
  pose proof (from_repository_run code w0 Hs0) as Hrun.
  cbv zeta in Hrun. rewrite Hu, Hn in Hrun. fold found in Hrun.
  assert (Hd : Cache.defaultTtl w0 = Cache.defaultTtl w)
    by (unfold Cache.defaultTtl; now rewrite Htl).
  split; [|split; [|split]].
  - intros Hf. rewrite Hf in Hrun. now apply Hthrow.
  - intros u Hf Ha. rewrite Hf, Ha in Hrun. now apply Hthrow.
  - intros u t Hf Ha He Hlt. rewrite Hf, Ha, He in Hrun. cbn in Hrun.
    apply Z.ltb_lt in Hlt. rewrite Hlt in Hrun. now apply Hthrow.
  - intros u Hf Ha He. rewrite Hf, Ha in Hrun. cbn [negb] in Hrun.
    assert (Hx : Url.isExpired (now w) (expiresAt u) = false).
    { destruct (expiresAt u) as [t|]; [|reflexivity]. cbn.
      apply Z.ltb_ge. now apply He. }
    rewrite Hx in Hrun. destruct Hrun as (Ho & Hev & Hc).
    destruct (Hret _ Ho) as (R1 & R2 & R3).
    split; [exact R1|]. split; [now apply R2|].
    intros Hnth. fold r in R3. rewrite R3. rewrite Hd in Hc. apply Hc.
    rewrite Hcf. destruct (cacheFaults w) as [|? [|? ?]]; try reflexivity.
    exact Hnth.
Qed.

(** C1, as stated, fails at the instant of expiry: with [expiresAt] equal
    to now the link is still resolved. *)
Lemma resolve_at_expiry_instant :
  let u := Examples.link_expiring_at 1000 in
  let w := set_urls [u] (Examples.fresh 1000) in
  outcome (ResolveUrl._getFromCache "abc1234" w) = Returned None /\
  MongoUrlRepository.find_by_code "abc1234" (urls w) = Some u /\
  isActive u = true /\
  expiresAt u = Some 1000%Z /\ (1000 <= now w)%Z /\
  outcome (ResolveUrl.execute false "abc1234" None w) =
    Returned (ResolveUrl.mkResult "https://example.com" (Some u)) /\
  outcome (ResolveUrl.execute false "abc1234" None w) <> Thrown LinkExpired.
Proof.
  cbv zeta. repeat apply conj; try reflexivity.
  vm_compute. discriminate.
Qed.

(** A link that never expires is asked for with a space in front of its
    code: the store finds it, and it is cached for a day under the code
    as it was given. *)
Lemma resolve_on_cache_miss_witness :
  let w := set_urls [Examples.plain_link] (Examples.fresh 1000) in
  MongoUrlRepository.find_by_code " docs123" (urls w) =
    Some Examples.plain_link /\
  outcome (ResolveUrl.execute false " docs123" None w) =
    Returned (ResolveUrl.mkResult "https://example.com/docs"
                                  (Some Examples.plain_link)) /\
  cache (world (ResolveUrl.execute false " docs123" None w))
    !! "url: docs123"
    = Some ("https://example.com/docs", 86401000%Z).
Proof.
  cbv zeta.
  assert (Hf : MongoUrlRepository.find_by_code " docs123"
                 (urls (set_urls [Examples.plain_link]
                          (Examples.fresh 1000))) =
               Some Examples.plain_link) by (vm_compute; reflexivity).
  split; [exact Hf|].
  pose proof (resolve_on_cache_miss false " docs123" None
                (set_urls [Examples.plain_link] (Examples.fresh 1000))
                eq_refl eq_refl eq_refl) as H.
  cbv zeta in H. destruct H as (_ & _ & _ & H).
  destruct (H Examples.plain_link Hf eq_refl) as (H1 & _ & H3).
  - intros t Ht. discriminate Ht.
  - split; [exact H1|]. exact (H3 eq_refl).
Defined.

(** ** CreateShortUrl: an existing link is returned as it is *)

Lemma bind_inv_returned {A B} (m : M A) (k : A -> M B) (w : World) (b : B) :
  outcome (bind m k w) = Returned b ->
  exists a, outcome (m w) = Returned a /\
            outcome (k a (world (m w))) = Returned b /\
            world (bind m k w) = world (k a (world (m w))) /\
            events (bind m k w) =
              (events (m w) ++ events (k a (world (m w))))%list.
Proof.
  unfold bind. destruct (outcome (m w)) as [a| |] eqn:E; simpl;
    try discriminate.
  intros H. exists a. now repeat split.
Qed.

Lemma create_cacheUrl_returns (code url : string) (w : World) :
  outcome (CreateShortUrl._cacheUrl code url w) = Returned tt.
Proof.
  unfold CreateShortUrl._cacheUrl, try_catch. rewrite bind_read.
  unfold bind, Cache.set, Cache.next_fault.
  destruct (cacheFaults w) as [|[] fs]; reflexivity.
Qed.

Lemma find_app_none {A} (p : A -> bool) (l1 l2 : list A) :
  find p l1 = None -> find p (l1 ++ l2) = find p l2.
Proof.
  induction l1 as [|x l1 IH]; simpl; [reflexivity|].
  destruct (p x); [discriminate | exact IH].
Qed.

Lemma find_none_filter {A} (p : A -> bool) (l : list A) :
  find p l = None -> List.filter p l = [].
Proof.
  induction l as [|x l IH]; simpl; [reflexivity|].
  destruct (p x); [discriminate | exact IH].
Qed.

Lemma execute_existing (fuel : nat) (d : UrlData) (w : World) (u : Link) :
  hd false (storeFaults w) = false ->
  MongoUrlRepository.find_by_original_url
    (_normalizeUrl (in_originalUrl d)) (urls w) = Some u ->
  CreateShortUrl.execute fuel d w =
    mkRun (Returned u) (set_storeFaults (tl (storeFaults w)) w)
          [EvFindByOriginalUrl (_normalizeUrl (in_originalUrl d))].
Proof.
  intros Hs Hf. unfold CreateShortUrl.execute,
    MongoUrlRepository.findByOriginalUrl.
  rewrite (bind_returned _ _ _ _ _ _ (query_answers _ _ w Hs)).
  rewrite Hf. reflexivity.
Qed.

Lemma create_inv (doc created : Link) (w : World) :
  outcome (MongoUrlRepository.create doc w) = Returned created ->
  created = MongoUrlRepository.cast doc /\
  MongoUrlRepository.code_exists (shortCode doc) (urls w) = false /\
  urls (world (MongoUrlRepository.create doc w)) =
    (urls w ++ [MongoUrlRepository.cast doc])%list.
Proof.
  unfold MongoUrlRepository.create, MongoUrlRepository.next_fault,
    MongoUrlRepository.code_exists.
  change (shortCode (MongoUrlRepository.cast doc))
    with (Js.trim (shortCode doc)).
  destruct (MongoUrlRepository.required_paths _); cbn [negb];
    [|discriminate].
  destruct (storeFaults w) as [|[] fs];
    destruct (MongoUrlRepository.has_code (Js.trim (shortCode doc)) (urls w));
    cbn [outcome world]; intros H; try discriminate;
    injection H as <-; now repeat split.
Qed.

Lemma create_thrown (doc : Link) (e : Error) (w : World) :
  outcome (MongoUrlRepository.create doc w) = Thrown e ->
  (e = StoreError DuplicateKey ->
   MongoUrlRepository.code_exists (shortCode doc) (urls w) = true) /\
  events (MongoUrlRepository.create doc w) = [EvCreate doc] /\
  urls (world (MongoUrlRepository.create doc w)) = urls w /\
  cache (world (MongoUrlRepository.create doc w)) = cache w.
Proof.
  unfold MongoUrlRepository.create, MongoUrlRepository.next_fault,
    MongoUrlRepository.code_exists.
  change (shortCode (MongoUrlRepository.cast doc))
    with (Js.trim (shortCode doc)).
  destruct (MongoUrlRepository.required_paths _); cbn [negb];
    [|cbn [outcome world events]; intros [= <-];
      repeat split; try reflexivity; discriminate].
  destruct (storeFaults w) as [|[] fs];
    destruct (MongoUrlRepository.has_code (Js.trim (shortCode doc)) (urls w));
    cbn [outcome world events]; intros H; try discriminate;
    injection H as <-; repeat split; try reflexivity; discriminate.
Qed.

(** What a successful creation of a new link leaves behind. *)
Lemma execute_created (fuel : nat) (d : UrlData) (w : World) (u : Link) :
  MongoUrlRepository.find_by_original_url
    (_normalizeUrl (in_originalUrl d)) (urls w) = None ->
  outcome (CreateShortUrl.execute fuel d w) = Returned u ->
  urls (world (CreateShortUrl.execute fuel d w)) = (urls w ++ [u])%list /\
  originalUrl u = Js.trim (_normalizeUrl (in_originalUrl d)) /\
  expiresAt u = in_expiresAt d /\
  MongoUrlRepository.code_exists (shortCode u) (urls w) = false.
Proof.
  intros Hf. unfold CreateShortUrl.execute,
    MongoUrlRepository.findByOriginalUrl.
  set (norm := _normalizeUrl (in_originalUrl d)) in *.
  destruct (hd false (storeFaults w)) eqn:Hs.
  { rewrite (bind_thrown _ _ _ _ _ _ (query_throws _ _ w Hs)).
    discriminate. }
  rewrite (bind_returned _ _ _ _ _ _ (query_answers _ _ w Hs)).
  rewrite Hf. cbn [outcome world events].
  set (w1 := set_storeFaults (tl (storeFaults w)) w).
  intros H.
  apply bind_inv_returned in H as (code & Hcode & H & Hw & _).
  rewrite Hw. clear Hw.
  set (w2 := world (CreateShortUrl.choose_code fuel (in_customAlias d) w1))
    in *.
  assert (Hu2 : urls w2 = urls w).
  { unfold w2. rewrite (keeps_choose_code urls); [reflexivity|field_frame..]. }
  rewrite bind_read in H. rewrite bind_read.
  set (doc := mkLink norm code (in_customAlias d) (in_userId d) (now w2)
                     (in_expiresAt d) true) in *.
  apply bind_inv_returned in H as (url & Hurl & H & Hw & _).
  rewrite Hw. clear Hw.
  assert (Hdoc : url = doc).
  { unfold Url.new in Hurl.
    apply bind_inv_returned in Hurl as (? & _ & Hr & _).
    unfold ret in Hr. simpl in Hr. congruence. }
  subst url.
  set (w3 := world (Url.new doc w2)) in *.
  assert (Hu3 : urls w3 = urls w).
  { unfold w3. rewrite (keeps_Url_new urls). exact Hu2. }
  apply bind_inv_returned in H as (created & Hcr & H & Hw & _).
  rewrite Hw. clear Hw.
  apply create_inv in Hcr as (-> & Hex & Hu4).
  set (w4 := world (MongoUrlRepository.create doc w3)) in *.
  apply bind_inv_returned in H as ([] & _ & H & Hw & _).
  rewrite Hw. unfold ret in H |- *. cbn [outcome world] in H |- *.
  injection H as <-.
  rewrite (keeps_create_cacheUrl urls) by field_frame.
  rewrite Hu4, Hu3. rewrite Hu3 in Hex.
  split; [reflexivity|]. split; [reflexivity|]. split; [reflexivity|].
  unfold MongoUrlRepository.code_exists in *.
  cbn [shortCode MongoUrlRepository.cast doc] in *.
  now rewrite trim_idem.
Qed.

(** C2: when the normalized URL already has a link, [execute] returns that
    link after the one lookup, whatever alias or expiry was asked for: the
    collection, the cache, the generator and its random source are left as
    they were.  The store compares the URL once white space is trimmed
    from its ends, and stores it trimmed.  Hence two creations whose
    normalized URLs are the same once trimmed return the same link and
    leave exactly one link for that URL. *)
Theorem create_is_idempotent_per_url :
  (forall (fuel : nat) (d : UrlData) (w : World) (u : Link),
     hd false (storeFaults w) = false ->
     MongoUrlRepository.find_by_original_url
       (_normalizeUrl (in_originalUrl d)) (urls w) = Some u ->
     CreateShortUrl.execute fuel d w =
       mkRun (Returned u) (set_storeFaults (tl (storeFaults w)) w)
             [EvFindByOriginalUrl (_normalizeUrl (in_originalUrl d))]) /\
  (forall (fuel1 fuel2 : nat) (d1 d2 : UrlData) (w : World) (u : Link),
     Js.trim (_normalizeUrl (in_originalUrl d2)) =
       Js.trim (_normalizeUrl (in_originalUrl d1)) ->
     MongoUrlRepository.find_by_original_url
       (_normalizeUrl (in_originalUrl d1)) (urls w) = None ->
     outcome (CreateShortUrl.execute fuel1 d1 w) = Returned u ->
     let w1 := world (CreateShortUrl.execute fuel1 d1 w) in
     hd false (storeFaults w1) = false ->
     let r2 := CreateShortUrl.execute fuel2 d2 w1 in
     outcome r2 = Returned u /\
     urls (world r2) = (urls w ++ [u])%list /\
     List.filter (fun l => String.eqb (originalUrl l)
                             (Js.trim (_normalizeUrl (in_originalUrl d1))))
                 (urls (world r2)) = [u]).
Proof.
  split; [exact execute_existing|].
  intros fuel1 fuel2 d1 d2 w u Hn Hf Ho w1 Hs r2.
  destruct (execute_created fuel1 d1 w u Hf Ho) as (Hu & Hou & _).
  fold w1 in Hu.
  assert (Hfind : MongoUrlRepository.find_by_original_url
                    (_normalizeUrl (in_originalUrl d2)) (urls w1) = Some u).
  { rewrite Hu. unfold MongoUrlRepository.find_by_original_url,
      MongoUrlRepository.first_with_url in *.
    rewrite Hn. rewrite find_app_none by exact Hf. simpl.
    rewrite Hou, String.eqb_refl. reflexivity. }
  unfold r2. rewrite (execute_existing fuel2 d2 w1 u Hs Hfind).
  cbn [outcome world]. split; [reflexivity|]. split; [exact Hu|].
  change (urls (set_storeFaults (tl (storeFaults w1)) w1)) with (urls w1).
  rewrite Hu, List.filter_app.
  unfold MongoUrlRepository.find_by_original_url,
    MongoUrlRepository.first_with_url in Hf.
  rewrite (find_none_filter _ _ Hf). simpl.
  rewrite Hou, String.eqb_refl. reflexivity.
Qed.

(** The same page asked for twice, first with a space behind the URL and
    then with an alias and an expiry: one link, stored without the space
    and returned both times. *)
Lemma create_is_idempotent_per_url_witness :
  let d1 := mkUrlData "https://example.com/path " None None None in
  let d2 := mkUrlData "example.com/path/" (Some "my-alias") None
                      (Some 5000%Z) in
  let u := mkLink "https://example.com/path" "aaaaaaa" None None 1000 None
                  true in
  let w1 := world (CreateShortUrl.execute 10 d1 (Examples.fresh 1000)) in
  outcome (CreateShortUrl.execute 10 d1 (Examples.fresh 1000)) = Returned u /\
  outcome (CreateShortUrl.execute 10 d2 w1) = Returned u /\
  urls (world (CreateShortUrl.execute 10 d2 w1)) = [u].
Proof.
  cbv zeta. split; [vm_compute; reflexivity|].
  destruct (proj2 create_is_idempotent_per_url 10 10
              (mkUrlData "https://example.com/path " None None None)
              (mkUrlData "example.com/path/" (Some "my-alias") None
                         (Some 5000%Z))
              (Examples.fresh 1000)
              (mkLink "https://example.com/path" "aaaaaaa" None None 1000
                      None true))
    as (H1 & H2 & _); try (vm_compute; reflexivity).
  split; [exact H1 | exact H2].
Defined.

(** ** Errors a computation cannot throw, events it cannot emit *)

Section NeverThrows.

Variable e : Error.

Lemma never_throws_ret {A} (a : A) : never_throws e (ret a).
Proof. intros w. discriminate. Qed.

Lemma never_throws_out_of_fuel {A} : never_throws e (@out_of_fuel A).
Proof. intros w. discriminate. Qed.

Lemma never_throws_emit (ev : Event) : never_throws e (emit ev).
Proof. intros w. discriminate. Qed.

Lemma never_throws_read {A} (g : World -> A) : never_throws e (read g).
Proof. intros w. discriminate. Qed.

Lemma never_throws_nanoid (size : nat) : never_throws e (nanoid size).
Proof. intros w. discriminate. Qed.

Lemma never_throws_throw {A} (e' : Error) :
  e' <> e -> never_throws e (@throw A e').
Proof. intros H w. simpl. congruence. Qed.

Lemma never_throws_bind {A C} (m : M A) (k : A -> M C) :
  never_throws e m -> (forall a, never_throws e (k a)) ->
  never_throws e (bind m k).
Proof.
  intros Hm Hk w. unfold bind.
  destruct (outcome (m w)) eqn:E; simpl.
  - apply Hk.
  - intros Heq. apply (Hm w). rewrite E. congruence.
  - discriminate.
Qed.

Lemma never_throws_try_catch {A} (m : M A) (h : Error -> M A) :
  (forall e', never_throws e (h e')) -> never_throws e (try_catch m h).
Proof.
  intros Hh w. unfold try_catch.
  destruct (outcome (m w)) eqn:E; simpl; try (rewrite E; discriminate).
  apply Hh.
Qed.

Lemma never_throws_query {A} (ev : Event) (answer : list Link -> A) :
  e <> StoreError StoreUnavailable ->
  never_throws e (MongoUrlRepository.query ev answer).
Proof.
  intros H w. unfold MongoUrlRepository.query, MongoUrlRepository.next_fault.
  destruct (storeFaults w) as [|[] fs]; simpl; congruence.
Qed.

Lemma never_throws_generate_loop (fuel attempts : nat) :
  e <> StoreError StoreUnavailable ->
  never_throws e (CreateShortUrl.generate_loop fuel attempts).
Proof.
  intros He. revert attempts.
  induction fuel as [|fuel IH]; intros attempts.
  - apply never_throws_out_of_fuel.
  - cbn [CreateShortUrl.generate_loop].
    apply never_throws_bind; [apply never_throws_read|intros len].
    apply never_throws_bind; [apply never_throws_nanoid|intros code].
    apply never_throws_bind; [now apply never_throws_query|intros ex].
    apply never_throws_bind.
    + destruct (_ <=? _)%nat; [|apply never_throws_ret].
      intros w. discriminate.
    + intros a. destruct ex; [apply IH | apply never_throws_ret].
Qed.

Lemma never_throws_choose_code (fuel : nat) (alias : option string) :
  e <> StoreError StoreUnavailable -> e <> InvalidAliasFormat ->
  e <> AliasInUse ->
  never_throws e (CreateShortUrl.choose_code fuel alias).
Proof.
  intros H1 H2 H3.
  unfold CreateShortUrl.choose_code, CreateShortUrl._generateUniqueShortCode.
  destruct alias as [a|]; [|now apply never_throws_generate_loop].
  destruct (Js.truthy a); [|now apply never_throws_generate_loop].
  destruct (negb _); [now apply never_throws_throw|].
  apply never_throws_bind; [now apply never_throws_query|intros ex].
  destruct ex; [now apply never_throws_throw | apply never_throws_ret].
Qed.

Lemma never_throws_Url_new (u : Link) :
  e <> OriginalUrlRequired -> e <> ShortCodeRequired ->
  e <> InvalidUrlFormat ->
  never_throws e (Url.new u).
Proof.
  intros H1 H2 H3. unfold Url.new, Url._validate.
  apply never_throws_bind; [|intros; apply never_throws_ret].
  destruct (negb _); [now apply never_throws_throw|].
  destruct (negb _); [now apply never_throws_throw|].
  apply never_throws_bind; [apply never_throws_read|intros ok].
  destruct ok; [apply never_throws_ret | now apply never_throws_throw].
Qed.

Lemma never_throws_create (doc : Link) :
  e <> StoreError StoreUnavailable -> e <> StoreError DuplicateKey ->
  e <> StoreError ValidationFailed ->
  never_throws e (MongoUrlRepository.create doc).
Proof.
  intros H1 H2 H3 w.
  unfold MongoUrlRepository.create, MongoUrlRepository.next_fault.
  destruct (negb _); [simpl; congruence|].
  destruct (storeFaults w) as [|[] fs]; cbn [fst snd];
    try (simpl; congruence);
    match goal with
    | |- context [MongoUrlRepository.has_code ?c ?l] =>
        destruct (MongoUrlRepository.has_code c l)
    end; simpl; congruence.
Qed.

Lemma never_throws_create_cacheUrl (code url : string) :
  never_throws e (CreateShortUrl._cacheUrl code url).
Proof.
  unfold CreateShortUrl._cacheUrl.
  apply never_throws_try_catch. intros e'. apply never_throws_emit.
Qed.

Lemma never_throws_resolve_cacheUrl (code url : string) :
  never_throws e (ResolveUrl._cacheUrl code url).
Proof.
  unfold ResolveUrl._cacheUrl.
  apply never_throws_try_catch. intros e'. apply never_throws_emit.
Qed.

Lemma never_throws_getFromCache (code : string) :
  never_throws e (ResolveUrl._getFromCache code).
Proof.
  unfold ResolveUrl._getFromCache.
  apply never_throws_try_catch. intros e'.
  apply never_throws_bind; [apply never_throws_emit|].
  intros; apply never_throws_ret.
Qed.

End NeverThrows.

Section EmitsOnly.

Variable P : Event -> Prop.

Lemma emits_only_ret {A} (a : A) : emits_only P (ret a).
Proof. intros w. constructor. Qed.

Lemma emits_only_throw {A} (e : Error) : emits_only P (@throw A e).
Proof. intros w. constructor. Qed.

Lemma emits_only_out_of_fuel {A} : emits_only P (@out_of_fuel A).
Proof. intros w. constructor. Qed.

Lemma emits_only_read {A} (g : World -> A) : emits_only P (read g).
Proof. intros w. constructor. Qed.

Lemma emits_only_emit (ev : Event) : P ev -> emits_only P (emit ev).
Proof. intros H w. simpl. now repeat constructor. Qed.

Lemma emits_only_bind {A C} (m : M A) (k : A -> M C) :
  emits_only P m -> (forall a, emits_only P (k a)) -> emits_only P (bind m k).
Proof.
  intros Hm Hk w. unfold bind.
  destruct (outcome (m w)); simpl; [|apply Hm..].
  apply Forall_app. split; [apply Hm | apply Hk].
Qed.

Lemma emits_only_try_catch {A} (m : M A) (h : Error -> M A) :
  emits_only P m -> (forall e, emits_only P (h e)) -> emits_only P (try_catch m h).
Proof.
  intros Hm Hh w. unfold try_catch.
  destruct (outcome (m w)); simpl; [apply Hm| |apply Hm].
  apply Forall_app. split; [apply Hm | apply Hh].
Qed.

Lemma emits_only_query {A} (ev : Event) (answer : list Link -> A) :
  P ev -> emits_only P (MongoUrlRepository.query ev answer).
Proof.
  intros H w. unfold MongoUrlRepository.query, MongoUrlRepository.next_fault.
  destruct (storeFaults w) as [|[] fs]; simpl; now repeat constructor.
Qed.

Lemma emits_only_nanoid (size : nat) :
  P (EvNanoid size) -> emits_only P (nanoid size).
Proof. intros H w. simpl. now repeat constructor. Qed.

Lemma emits_only_cache_set (key value : string) (ttl : option Z) :
  P (EvCacheSet key value ttl) -> emits_only P (Cache.set key value ttl).
Proof.
  intros H w. unfold Cache.set, Cache.next_fault.
  destruct (cacheFaults w) as [|[] fs]; simpl; now repeat constructor.
Qed.

Hypothesis P_nanoid : forall n, P (EvNanoid n).
Hypothesis P_exists : forall c, P (EvShortCodeExists c).

Lemma emits_only_generate_loop (fuel attempts : nat) :
  emits_only P (CreateShortUrl.generate_loop fuel attempts).
Proof.
  revert attempts. induction fuel as [|fuel IH]; intros attempts.
  - apply emits_only_out_of_fuel.
  - cbn [CreateShortUrl.generate_loop].
    apply emits_only_bind; [apply emits_only_read|intros len].
    apply emits_only_bind; [now apply emits_only_nanoid|intros code].
    apply emits_only_bind; [now apply emits_only_query|intros ex].
    apply emits_only_bind.
    + destruct (_ <=? _)%nat; [|apply emits_only_ret].
      intros w. constructor.
    + intros a. destruct ex; [apply IH | apply emits_only_ret].
Qed.

Hypothesis P_alias : forall a, P (EvCustomAliasExists a).

Lemma emits_only_choose_code (fuel : nat) (alias : option string) :
  emits_only P (CreateShortUrl.choose_code fuel alias).
Proof.
  unfold CreateShortUrl.choose_code, CreateShortUrl._generateUniqueShortCode.
  destruct alias as [a|]; [|apply emits_only_generate_loop].
  destruct (Js.truthy a); [|apply emits_only_generate_loop].
  destruct (negb _); [apply emits_only_throw|].
  apply emits_only_bind; [now apply emits_only_query|intros ex].
  destruct ex; [apply emits_only_throw | apply emits_only_ret].
Qed.

End EmitsOnly.

Lemma events_Url_new (u : Link) (w : World) : events (Url.new u w) = [].
Proof.
  unfold Url.new, Url._validate, bind, read, ret, throw.
  destruct (negb _); [reflexivity|]. destruct (negb _); [reflexivity|].
  simpl. destruct (urlParser w (originalUrl u)); reflexivity.
Qed.

(** ** CreateShortUrl: a uniqueness conflict at the persist step *)

Lemma filter_nil_of_Forall {A} (p : A -> bool) (l : list A) :
  Forall (fun x => p x = false) l -> List.filter p l = [].
Proof.
  induction 1 as [|x l Hx _ IH]; simpl; [reflexivity|]. now rewrite Hx.
Qed.

Lemma choose_code_alias_checks (fuel : nat) (alias : option string)
  (w : World) :
  length (List.filter is_alias_check
            (events (CreateShortUrl.choose_code fuel alias w))) <= 1.
Proof.
  assert (G : forall w', List.filter is_alias_check
            (events (CreateShortUrl._generateUniqueShortCode fuel w')) = []).
  { intros w'. apply filter_nil_of_Forall.
    apply (emits_only_generate_loop (fun e => is_alias_check e = false));
      reflexivity. }
  unfold CreateShortUrl.choose_code.
  destruct alias as [a|]; [|rewrite G; simpl; lia].
  destruct (Js.truthy a); [|rewrite G; simpl; lia].
  destruct (negb _); [simpl; lia|].
  unfold bind, MongoUrlRepository.customAliasExists,
    MongoUrlRepository.query, MongoUrlRepository.next_fault.
  destruct (storeFaults w) as [|[] fs]; simpl;
    try (destruct (MongoUrlRepository.alias_exists a (urls w))); simpl; lia.
Qed.

Lemma create_cacheUrl_events (code url : string) (w : World) :
  exists ttl rest,
    events (CreateShortUrl._cacheUrl code url w) =
      EvCacheSet ("url:" +:+ code) url ttl :: rest.
Proof.
  unfold CreateShortUrl._cacheUrl, try_catch. rewrite bind_read.
  unfold bind, Cache.set, Cache.next_fault.
  destruct (cacheFaults w) as [|[] fs]; simpl; eauto.
Qed.

(** C5, as the code has it: when the run reaches the persist step and the
    store rejects that call with a uniqueness conflict, whatever the
    repository is and also when another creator took the code after the
    existence check, the use case fails at once with the store's own
    duplicate-key error.  The rejected call is the last call made: the
    run ends in the state and with the log that call left; before it no
    persist was attempted, the alias was checked at most once, the cache
    was not written and the collection was not changed.  With the
    [create] of the Mongo repository the use case is [execute]. *)
Theorem create_conflict_is_not_retried (persist : Link -> M Link)
  (fuel : nat) (d : UrlData) (w : World) (url : Link) :
  let pre := CreateShortUrl.before_persist fuel d w in
  outcome pre = Returned (inr url) ->
  outcome (persist url (world pre)) = Thrown (StoreError DuplicateKey) ->
  let r := CreateShortUrl.execute_with persist fuel d w in
  outcome r = Thrown (StoreError DuplicateKey) /\
  world r = world (persist url (world pre)) /\
  events r = (events pre ++ events (persist url (world pre)))%list /\
  List.filter is_create (events pre) = [] /\
  length (List.filter is_alias_check (events pre)) <= 1 /\
  List.filter is_cache_set (events pre) = [] /\
  urls (world pre) = urls w /\ cache (world pre) = cache w /\
  CreateShortUrl.execute_with MongoUrlRepository.create fuel d w =
    CreateShortUrl.execute fuel d w.
Proof.
  intros pre Hpre Hrej r.
  cut (outcome r = Thrown (StoreError DuplicateKey) /\
       world r = world (persist url (world pre)) /\
       events r = (events pre ++ events (persist url (world pre)))%list /\
       List.filter is_create (events pre) = [] /\
       length (List.filter is_alias_check (events pre)) <= 1 /\
       List.filter is_cache_set (events pre) = [] /\
       urls (world pre) = urls w /\ cache (world pre) = cache w).
  { intros (H1 & H2 & H3 & H4 & H5 & H6 & H7 & H8).
    repeat (split; [assumption|]). reflexivity. }
  subst pre r. revert Hpre Hrej.
  unfold CreateShortUrl.before_persist, CreateShortUrl.execute_with,
    MongoUrlRepository.findByOriginalUrl.
  set (norm := _normalizeUrl (in_originalUrl d)).
  destruct (hd false (storeFaults w)) eqn:Hs.
  { rewrite (bind_thrown _ _ _ _ _ _ (query_throws _ _ w Hs)).
    discriminate. }
  rewrite !(bind_returned _ _ _ _ _ _ (query_answers _ _ w Hs)).
  destruct (MongoUrlRepository.find_by_original_url norm (urls w));
    [discriminate|].
  set (w1 := set_storeFaults (tl (storeFaults w)) w).
  cbn [outcome world events].
  rewrite !bind_outcome, !bind_world, !bind_events.
  set (w2 := world (CreateShortUrl.choose_code fuel (in_customAlias d) w1)).
  set (ev2 := events (CreateShortUrl.choose_code fuel (in_customAlias d) w1)).
  assert (Hu2 : urls w2 = urls w).
  { unfold w2. rewrite (keeps_choose_code urls); [reflexivity|field_frame..]. }
  assert (Hc2 : cache w2 = cache w).
  { unfold w2. rewrite (keeps_choose_code cache); [reflexivity|field_frame..]. }
  assert (Hev2 : List.filter is_create ev2 = [] /\
                 List.filter is_cache_set ev2 = []).
  { split; apply filter_nil_of_Forall.
    - apply (emits_only_choose_code (fun e => is_create e = false));
        reflexivity.
    - apply (emits_only_choose_code (fun e => is_cache_set e = false));
        reflexivity. }
  destruct Hev2 as [Hcr2 Hcs2].
  pose proof (choose_code_alias_checks fuel (in_customAlias d) w1) as Hal2.
  fold ev2 in Hal2.
  destruct (outcome (CreateShortUrl.choose_code fuel (in_customAlias d) w1))
    as [code| |]; [|discriminate..].
  rewrite !bind_read.
  rewrite !bind_outcome, !bind_world, !bind_events.
  set (doc := mkLink norm code (in_customAlias d) (in_userId d) (now w2)
                     (in_expiresAt d) true).
  rewrite events_Url_new, (keeps_Url_new (fun x => x) doc w2).
  destruct (outcome (Url.new doc w2)) as [url'| |] eqn:Hn;
    [|discriminate..].
  cbn [outcome world events ret]. intros [= <-].
  rewrite !bind_outcome, !bind_world, !bind_events.
  intros Hrej. rewrite Hrej.
  rewrite !app_nil_r. cbn [app].
  cbn [List.filter is_create is_alias_check is_cache_set].
  rewrite Hu2, Hc2.
  repeat (split; [first [reflexivity | assumption]|]).
  reflexivity.
Qed.

(** C5, as stated, fails: an alias equal to the generated code of another
    link passes the alias check, the store rejects the insert, and the
    duplicate-key error reaches the caller after that single attempt. *)
Lemma alias_equal_to_existing_code_conflicts :
  let w := set_urls [Examples.plain_link] (Examples.fresh 1000) in
  let d := mkUrlData "https://example.org" (Some "docs123") None None in
  let r := CreateShortUrl.execute 10 d w in
  outcome r = Thrown (StoreError DuplicateKey) /\
  events r =
    [EvFindByOriginalUrl "https://example.org";
     EvCustomAliasExists "docs123";
     EvCreate (mkLink "https://example.org" "docs123" (Some "docs123") None
                      1000 None true)] /\
  urls (world r) = [Examples.plain_link].
Proof. cbv zeta. repeat apply conj; vm_compute; reflexivity. Qed.

(** A race: the request carries no alias, its generated code is free when
    it is checked and taken by another creator before the write.  The
    request fails with the duplicate-key error after one persist
    attempt. *)
Lemma create_conflict_is_not_retried_witness :
  let d := mkUrlData "https://example.com/path" None None None in
  let doc := mkLink "https://example.com/path" "aaaaaaa" None None 1000 None
                    true in
  let r := CreateShortUrl.execute_with Examples.racing_create 10 d
             (Examples.fresh 1000) in
  outcome (CreateShortUrl.before_persist 10 d (Examples.fresh 1000)) =
    Returned (inr doc) /\
  outcome r = Thrown (StoreError DuplicateKey) /\
  events r =
    [EvFindByOriginalUrl "https://example.com/path"; EvNanoid 7;
     EvShortCodeExists "aaaaaaa"; EvCreate doc] /\
  urls (world r) = [Examples.rival].
Proof.
  intros d doc r.
  assert (Hpre : outcome (CreateShortUrl.before_persist 10 d
                            (Examples.fresh 1000)) = Returned (inr doc))
    by (vm_compute; reflexivity).
  split; [exact Hpre|].
  destruct (create_conflict_is_not_retried Examples.racing_create 10 d
              (Examples.fresh 1000) doc Hpre)
    as (H1 & H2 & H3 & _); [vm_compute; reflexivity|].
  split; [exact H1|]. split.
  - fold r in H3. rewrite H3. vm_compute. reflexivity.
  - fold r in H2. rewrite H2. vm_compute. reflexivity.
Defined.

(** ** CreateShortUrl: the expiry of a new link *)

(** C4 at a failing input: an expiry in the past is accepted, the link is
    persisted with it, and the store then holds a link that is expired
    from the start. *)
Theorem create_accepts_past_expiry :
  let d := mkUrlData "https://example.com/promo" None None (Some 0%Z) in
  let w := Examples.fresh 1000000 in
  let u := mkLink "https://example.com/promo" "aaaaaaa" None None 1000000
                  (Some 0%Z) true in
  let r := CreateShortUrl.execute 10 d w in
  (0 <= now w)%Z /\
  outcome r = Returned u /\
  urls (world r) = [u] /\
  outcome (ResolveUrl.from_repository "aaaaaaa" (world r)) =
    Thrown LinkExpired.
Proof. cbv zeta. repeat apply conj; vm_compute; try reflexivity. discriminate. Qed.

(** In general the expiry asked for is the expiry persisted. *)
Lemma create_persists_requested_expiry (fuel : nat) (d : UrlData) (w : World)
  (u : Link) :
  MongoUrlRepository.find_by_original_url
    (_normalizeUrl (in_originalUrl d)) (urls w) = None ->
  outcome (CreateShortUrl.execute fuel d w) = Returned u ->
  expiresAt u = in_expiresAt d /\
  In u (urls (world (CreateShortUrl.execute fuel d w))).
Proof.
  intros Hf Ho. destruct (execute_created fuel d w u Hf Ho) as (Hu & _ & He & _).
  split; [exact He|]. rewrite Hu. apply in_or_app. right. now left.
Qed.

(** ** The code generator *)

Lemma query_cases {A} (ev : Event) (answer : list Link -> A) (w : World) :
  let q := MongoUrlRepository.query ev answer w in
  (if hd false (storeFaults w)
   then outcome q = Thrown (StoreError StoreUnavailable)
   else outcome q = Returned (answer (urls w))) /\
  events q = [ev] /\
  world q = set_storeFaults (tl (storeFaults w)) w.
Proof.
  unfold MongoUrlRepository.query, MongoUrlRepository.next_fault.
  destruct w as [? ? ? ? sf ? ? ? ? ? ? ?]; simpl.
  destruct sf as [|[] fs]; simpl; repeat split; reflexivity.
Qed.

(** One iteration of the loop. *)
Lemma generate_loop_unfold (fuel attempts : nat) (w : World) :
  let len := urlLength w in
  let code := nanoid_value w 0 len in
  let q := MongoUrlRepository.shortCodeExists code
             (set_draws (S (draws w)) w) in
  let escalate := (CreateShortUrl.maxAttempts <=? S attempts)%nat in
  let w2 := if escalate
            then set_urlLength (S (urlLength (world q))) (world q)
            else world q in
  let attempts2 := if escalate then 0 else S attempts in
  CreateShortUrl.generate_loop (S fuel) attempts w =
  match outcome q with
  | Returned true =>
      let r := CreateShortUrl.generate_loop fuel attempts2 w2 in
      mkRun (outcome r) (world r)
            (EvNanoid len :: EvShortCodeExists code :: events r)
  | Returned false =>
      mkRun (Returned code) w2 [EvNanoid len; EvShortCodeExists code]
  | Thrown e =>
      mkRun (Thrown e) (world q) [EvNanoid len; EvShortCodeExists code]
  | OutOfFuel =>
      mkRun OutOfFuel (world q) [EvNanoid len; EvShortCodeExists code]
  end.
Proof.
  cbv zeta. cbn [CreateShortUrl.generate_loop].
  unfold bind, read, nanoid, ret, MongoUrlRepository.shortCodeExists,
    MongoUrlRepository.query, MongoUrlRepository.next_fault.
  cbn [outcome world events storeFaults set_draws urls urlLength draws].
  destruct (storeFaults w) as [|[] fs]; cbn [outcome world events];
    try reflexivity;
    destruct (MongoUrlRepository.code_exists
                (nanoid_value w 0 (urlLength w)) (urls w));
    destruct (CreateShortUrl.maxAttempts <=? S attempts)%nat;
    cbn [outcome world events app]; reflexivity.
Qed.

Lemma shortCodeExists_cases (code : string) (w : World) :
  let q := MongoUrlRepository.shortCodeExists code w in
  (if hd false (storeFaults w)
   then outcome q = Thrown (StoreError StoreUnavailable)
   else outcome q = Returned (MongoUrlRepository.code_exists code (urls w)))
  /\ world q = set_storeFaults (tl (storeFaults w)) w.
Proof.
  destruct (query_cases (EvShortCodeExists code)
              (MongoUrlRepository.code_exists code) w) as (H1 & _ & H3).
  split; [exact H1 | exact H3].
Qed.

(** The target length never goes down, and no draw is shorter than the
    length the loop started with. *)
Lemma generate_loop_monotone (fuel attempts : nat) (w : World) :
  let r := CreateShortUrl.generate_loop fuel attempts w in
  urlLength w <= urlLength (world r) /\
  Forall (fun n => urlLength w <= n) (nanoid_sizes (events r)).
Proof.
  revert attempts w. induction fuel as [|fuel IH]; intros attempts w.
  - simpl. split; [lia | constructor].
  - cbv zeta. pose proof (generate_loop_unfold fuel attempts w) as U.
    cbv zeta in U. rewrite U. clear U.
    set (code := nanoid_value w 0 (urlLength w)).
    set (w1 := set_draws (S (draws w)) w).
    destruct (shortCodeExists_cases code w1) as (_ & Hw).
    cbv zeta in Hw. rewrite Hw.
    set (wq := set_storeFaults (tl (storeFaults w1)) w1).
    assert (Hq : urlLength wq = urlLength w) by reflexivity.
    destruct (outcome (MongoUrlRepository.shortCodeExists code w1))
      as [[]| |]; cbn [outcome world events nanoid_sizes flat_map app].
    + match goal with
      | |- context [CreateShortUrl.generate_loop fuel ?a ?w2] =>
          destruct (IH a w2) as (I1 & I2);
          assert (Hle : urlLength w <= urlLength w2)
            by (destruct (_ <=? _)%nat; simpl; lia)
      end.
      split; [lia|]. constructor; [lia|].
      eapply Forall_impl; [exact I2|]. intros n Hn.
      exact (Nat.le_trans _ _ _ Hle Hn).
    + split; [destruct (_ <=? _)%nat; simpl; lia|].
      repeat constructor.
    + split; [simpl; lia | repeat constructor].
    + split; [simpl; lia | repeat constructor].
Qed.

Lemma nanoid_value_length (w : World) (i size : nat) :
  String.length (nanoid_value w i size) = size.
Proof.
  unfold nanoid_value.
  generalize (fun j => alphabet_char (entropy w (i + draws w) j)) as g.
  generalize 0 as start. induction size as [|n IH]; intros start g; simpl;
    [reflexivity | now rewrite IH].
Qed.

Lemma alphabet_char_alias (c : ascii) :
  CreateShortUrl.alias_char (alphabet_char c) = true.
Proof. destruct c as [[] [] [] [] [] [] [] []]; vm_compute; reflexivity. Qed.

(** A generated code has no white space to trim. *)
Lemma trim_nanoid_value (w : World) (i size : nat) :
  Js.trim (nanoid_value w i size) = nanoid_value w i size.
Proof.
  apply trim_alias_chars. unfold nanoid_value.
  rewrite list_ascii_of_string_of_list_ascii.
  apply forallb_forall. intros c Hc. apply in_map_iff in Hc as (j & <- & _).
  apply alphabet_char_alias.
Qed.

Lemma has_code_length (code : string) (l : list Link) :
  MongoUrlRepository.has_code code l = true ->
  String.length code <= CreateShortUrl.max_code_length l.
Proof.
  unfold MongoUrlRepository.has_code, CreateShortUrl.max_code_length.
  induction l as [|u l IH]; simpl; [discriminate|].
  intros H. apply orb_true_iff in H as [H|H].
  - apply String.eqb_eq in H. subst. lia.
  - apply IH in H. lia.
Qed.

Lemma code_exists_length (code : string) (l : list Link) :
  MongoUrlRepository.code_exists code l = true ->
  String.length (Js.trim code) <= CreateShortUrl.max_code_length l.
Proof. apply has_code_length. Qed.

(** With enough fuel the loop does not run out of it, and what it returns
    is a code of at least the starting length that is not in the
    collection. *)
Lemma generate_loop_terminates (fuel attempts : nat) (w : World) :
  attempts < 5 ->
  5 * (S (CreateShortUrl.max_code_length (urls w)) - urlLength w) - attempts
    + 1 <= fuel ->
  let r := CreateShortUrl.generate_loop fuel attempts w in
  outcome r <> OutOfFuel /\
  (storeFaults w = [] -> exists c, outcome r = Returned c) /\
  (forall c, outcome r = Returned c ->
     urlLength w <= String.length c /\
     MongoUrlRepository.code_exists c (urls w) = false).
Proof.
  revert attempts w. induction fuel as [|fuel IH]; intros attempts w Ha Hf.
  - lia.
  - cbv zeta. pose proof (generate_loop_unfold fuel attempts w) as U.
    cbv zeta in U. rewrite U. clear U.
    set (code := nanoid_value w 0 (urlLength w)).
    set (w1 := set_draws (S (draws w)) w).
    destruct (shortCodeExists_cases code w1) as (Ho & Hw).
    cbv zeta in Ho, Hw. rewrite Hw.
    set (wq := set_storeFaults (tl (storeFaults w1)) w1).
    change (storeFaults w1) with (storeFaults w) in *.
    change (urls w1) with (urls w) in Ho.
    destruct (hd false (storeFaults w)) eqn:Hs.
    + rewrite Ho. cbn [outcome]. split; [discriminate|].
      split; [intros Hnil; rewrite Hnil in Hs; discriminate|].
      intros c Hc. discriminate.
    + rewrite Ho.
      destruct (MongoUrlRepository.code_exists code (urls w)) eqn:Hex.
      * assert (Hlen : urlLength w <= CreateShortUrl.max_code_length (urls w)).
        { apply code_exists_length in Hex. unfold code in Hex.
          unfold code in Hex.
          now rewrite trim_nanoid_value, nanoid_value_length in Hex. }
        match goal with
        | |- context [CreateShortUrl.generate_loop fuel ?a ?w2] =>
            assert (Ha2 : a < 5)
              by (unfold CreateShortUrl.maxAttempts;
                  destruct (5 <=? S attempts)%nat eqn:E;
                  [lia | apply Nat.leb_gt in E; lia]);
            assert (Hw2 : urls w2 = urls w)
              by (destruct (_ <=? _)%nat; reflexivity);
            assert (Hs2 : storeFaults w2 = tl (storeFaults w))
              by (destruct (_ <=? _)%nat; reflexivity);
            assert (Hf2 : 5 * (S (CreateShortUrl.max_code_length (urls w2))
                               - urlLength w2) - a + 1 <= fuel)
              by (rewrite Hw2; unfold CreateShortUrl.maxAttempts;
                  destruct (5 <=? S attempts)%nat eqn:E;
                  [apply Nat.leb_le in E | apply Nat.leb_gt in E];
                  cbn [urlLength set_urlLength wq set_storeFaults w1
                         set_draws]; lia);
            destruct (IH a w2 Ha2 Hf2) as (I1 & I2 & I3);
            assert (Hl2 : urlLength w <= urlLength w2)
              by (destruct (_ <=? _)%nat; simpl; lia)
        end.
        cbn [outcome]. split; [exact I1|].
        split.
        { intros Hnil. apply I2. rewrite Hs2, Hnil. reflexivity. }
        intros c Hc. destruct (I3 c Hc) as (J1 & J2).
        rewrite Hw2 in J2. split; [lia | exact J2].
      * cbn [outcome]. split; [discriminate|]. split; [eauto|].
        intros c [= <-]. unfold code. rewrite nanoid_value_length.
        split; [lia | exact Hex].
Qed.

(** An iteration whose draw collides, the store answering. *)
Lemma generate_loop_collision (fuel attempts : nat) (w : World) :
  storeFaults w = [] ->
  MongoUrlRepository.code_exists (nanoid_value w 0 (urlLength w)) (urls w)
    = true ->
  exists w',
    storeFaults w' = [] /\ urls w' = urls w /\ entropy w' = entropy w /\
    draws w' = S (draws w) /\
    urlLength w' = (if (5 <=? S attempts)%nat then S (urlLength w)
                    else urlLength w) /\
    CreateShortUrl.generate_loop (S fuel) attempts w =
      let r := CreateShortUrl.generate_loop fuel
                 (if (5 <=? S attempts)%nat then 0 else S attempts) w' in
      mkRun (outcome r) (world r)
            (EvNanoid (urlLength w)
             :: EvShortCodeExists (nanoid_value w 0 (urlLength w))
             :: events r).
Proof.
  intros Hs Hex.
  pose proof (generate_loop_unfold fuel attempts w) as U. cbv zeta in U.
  set (code := nanoid_value w 0 (urlLength w)) in *.
  set (w1 := set_draws (S (draws w)) w) in *.
  destruct (shortCodeExists_cases code w1) as (Ho & Hw). cbv zeta in Ho, Hw.
  change (storeFaults w1) with (storeFaults w) in Ho, Hw.
  change (urls w1) with (urls w) in Ho.
  rewrite Hs in Ho, Hw. cbn [hd tl] in Ho, Hw. rewrite Hex in Ho.
  rewrite Ho, Hw in U. unfold CreateShortUrl.maxAttempts in U.
  eexists. repeat apply conj; [..|exact U];
    destruct (5 <=? S attempts)%nat; reflexivity.
Qed.

Lemma nanoid_value_shift (w w' : World) (i k size : nat) :
  entropy w' = entropy w -> draws w' = k + draws w ->
  nanoid_value w' i size = nanoid_value w (i + k) size.
Proof.
  intros He Hd. unfold nanoid_value. rewrite He, Hd.
  now rewrite Nat.add_assoc.
Qed.

Lemma nanoid_sizes_app (l1 l2 : list Event) :
  nanoid_sizes (l1 ++ l2) = (nanoid_sizes l1 ++ nanoid_sizes l2)%list.
Proof. apply flat_map_app. Qed.

(** Five collisions in a row from a fresh call: the loop then stands at
    the next length with its counter back at zero. *)
Lemma generate_loop_five_collisions (fuel : nat) (w : World) :
  storeFaults w = [] ->
  (forall i, i < 5 ->
     MongoUrlRepository.code_exists (nanoid_value w i (urlLength w)) (urls w)
       = true) ->
  exists w5 evs5,
    urlLength w5 = S (urlLength w) /\ draws w5 = 5 + draws w /\
    urls w5 = urls w /\ storeFaults w5 = [] /\
    nanoid_sizes evs5 = repeat (urlLength w) 5 /\
    CreateShortUrl.generate_loop (5 + fuel) 0 w =
      let r := CreateShortUrl.generate_loop fuel 0 w5 in
      mkRun (outcome r) (world r) (evs5 ++ events r).
Proof.
  intros Hs Hcol.
  assert (H0 := Hcol 0 ltac:(lia)).
  destruct (generate_loop_collision (4 + fuel) 0 w Hs H0)
    as (w1 & S1 & U1 & E1 & D1 & L1 & R1).
  cbn [Nat.leb] in L1, R1.
  assert (H1 : MongoUrlRepository.code_exists
                 (nanoid_value w1 0 (urlLength w1)) (urls w1) = true).
  { rewrite L1, U1, (nanoid_value_shift w w1 0 1) by (assumption || lia).
    apply Hcol. lia. }
  destruct (generate_loop_collision (3 + fuel) 1 w1 S1 H1)
    as (w2 & S2 & U2 & E2 & D2 & L2 & R2).
  cbn [Nat.leb] in L2, R2.
  assert (H2 : MongoUrlRepository.code_exists
                 (nanoid_value w2 0 (urlLength w2)) (urls w2) = true).
  { rewrite L2, L1, U2, U1.
    rewrite (nanoid_value_shift w w2 0 2) by (congruence || lia).
    apply Hcol. lia. }
  destruct (generate_loop_collision (2 + fuel) 2 w2 S2 H2)
    as (w3 & S3 & U3 & E3 & D3 & L3 & R3).
  cbn [Nat.leb] in L3, R3.
  assert (H3 : MongoUrlRepository.code_exists
                 (nanoid_value w3 0 (urlLength w3)) (urls w3) = true).
  { rewrite L3, L2, L1, U3, U2, U1.
    rewrite (nanoid_value_shift w w3 0 3) by (congruence || lia).
    apply Hcol. lia. }
  destruct (generate_loop_collision (1 + fuel) 3 w3 S3 H3)
    as (w4 & S4 & U4 & E4 & D4 & L4 & R4).
  cbn [Nat.leb] in L4, R4.
  assert (H4 : MongoUrlRepository.code_exists
                 (nanoid_value w4 0 (urlLength w4)) (urls w4) = true).
  { rewrite L4, L3, L2, L1, U4, U3, U2, U1.
    rewrite (nanoid_value_shift w w4 0 4) by (congruence || lia).
    apply Hcol. lia. }
  destruct (generate_loop_collision fuel 4 w4 S4 H4)
    as (w5 & S5 & U5 & E5 & D5 & L5 & R5).
  cbn [Nat.leb] in L5, R5.
  exists w5.
  exists [EvNanoid (urlLength w);
          EvShortCodeExists (nanoid_value w 0 (urlLength w));
          EvNanoid (urlLength w1);
          EvShortCodeExists (nanoid_value w1 0 (urlLength w1));
          EvNanoid (urlLength w2);
          EvShortCodeExists (nanoid_value w2 0 (urlLength w2));
          EvNanoid (urlLength w3);
          EvShortCodeExists (nanoid_value w3 0 (urlLength w3));
          EvNanoid (urlLength w4);
          EvShortCodeExists (nanoid_value w4 0 (urlLength w4))].
  repeat apply conj.
  - congruence.
  - lia.
  - congruence.
  - exact S5.
  - simpl. congruence.
  - change (5 + fuel) with (S (4 + fuel)). rewrite R1. cbv zeta.
    change (4 + fuel) with (S (3 + fuel)). rewrite R2. cbv zeta.
    change (3 + fuel) with (S (2 + fuel)). rewrite R3. cbv zeta.
    change (2 + fuel) with (S (1 + fuel)). rewrite R4. cbv zeta.
    change (1 + fuel) with (S fuel). rewrite R5. cbv zeta.
    reflexivity.
Qed.

(** C8: when the first five draws of a call all collide, the loop moves
    to the next length and restarts its counter, so the sixth draw asks
    for one character more; this and every later generation by the same
    instance draw at that length or above. *)
Theorem generator_escalates_after_five_collisions (fuel : nat) (w : World) :
  storeFaults w = [] ->
  (forall i, i < 5 ->
     MongoUrlRepository.code_exists (nanoid_value w i (urlLength w)) (urls w)
       = true) ->
  6 <= fuel ->
  let len := urlLength w in
  let r := CreateShortUrl._generateUniqueShortCode fuel w in
  (exists w5 evs5,
     urlLength w5 = S len /\ nanoid_sizes evs5 = repeat len 5 /\
     let r5 := CreateShortUrl.generate_loop (fuel - 5) 0 w5 in
     r = mkRun (outcome r5) (world r5) (evs5 ++ events r5)) /\
  firstn 6 (nanoid_sizes (events r)) = [len; len; len; len; len; S len] /\
  S len <= urlLength (world r) /\
  (forall fuel' w',
     urlLength w' = urlLength (world r) ->
     let r' := CreateShortUrl._generateUniqueShortCode fuel' w' in
     Forall (fun n => S len <= n) (nanoid_sizes (events r')) /\
     S len <= urlLength (world r')).
Proof.
  intros Hs Hcol Hfuel len r.
  destruct (generate_loop_five_collisions (fuel - 5) w Hs Hcol)
    as (w5 & evs5 & L5 & _ & _ & _ & N5 & R5).
  replace (5 + (fuel - 5)) with fuel in R5 by lia.
  cbv zeta in R5.
  assert (Hr : r = mkRun
                 (outcome (CreateShortUrl.generate_loop (fuel - 5) 0 w5))
                 (world (CreateShortUrl.generate_loop (fuel - 5) 0 w5))
                 (evs5 ++ events (CreateShortUrl.generate_loop (fuel - 5) 0
                                    w5))) by exact R5.
  destruct (generate_loop_monotone (fuel - 5) 0 w5) as (M1 & M2).
  assert (Hlen : S len <= urlLength (world r)).
  { rewrite Hr. cbn [world]. fold len in L5. lia. }
  split; [|split; [|split]].
  - exists w5, evs5. split; [exact L5|]. split; [exact N5|]. exact Hr.
  - rewrite Hr. cbn [events]. rewrite nanoid_sizes_app, N5.
    destruct (fuel - 5) as [|f] eqn:Ef; [lia|].
    pose proof (generate_loop_unfold f 0 w5) as U. cbv zeta in U.
    set (q := outcome (MongoUrlRepository.shortCodeExists
                         (nanoid_value w5 0 (urlLength w5))
                         (set_draws (S (draws w5)) w5))) in U.
    rewrite U, L5. fold len.
    destruct q as [[]| |]; reflexivity.
  - exact Hlen.
  - intros fuel' w' Hw' r'.
    destruct (generate_loop_monotone fuel' 0 w') as (P1 & P2).
    split.
    + eapply Forall_impl; [exact P2|]. intros n Hn.
      cbv beta in Hn. rewrite Hw' in Hn. lia.
    + unfold r', CreateShortUrl._generateUniqueShortCode. lia.
Qed.

(** The first five codes of length 7 are taken: the sixth draw has eight
    characters and is returned. *)
Lemma generator_escalates_after_five_collisions_witness :
  let w := set_urls Examples.five_taken (Examples.fresh 1000) in
  let r := CreateShortUrl._generateUniqueShortCode 10 w in
  urlLength w = 7 /\
  firstn 6 (nanoid_sizes (events r)) = [7; 7; 7; 7; 7; 8] /\
  8 <= urlLength (world r) /\
  outcome r = Returned "ffffffff".
Proof.
  cbv zeta. split; [reflexivity|].
  assert (Hcol : forall i, i < 5 ->
            MongoUrlRepository.code_exists
              (nanoid_value (set_urls Examples.five_taken
                                      (Examples.fresh 1000)) i
                 (urlLength (set_urls Examples.five_taken
                                      (Examples.fresh 1000))))
              (urls (set_urls Examples.five_taken (Examples.fresh 1000)))
            = true).
  { intros i Hi. do 5 (destruct i as [|i]; [vm_compute; reflexivity|]). lia. }
  destruct (generator_escalates_after_five_collisions 10
              (set_urls Examples.five_taken (Examples.fresh 1000))
              eq_refl Hcol ltac:(lia)) as (_ & H2 & H3 & _).
  split; [exact H2|]. split; [exact H3|]. vm_compute. reflexivity.
Defined.

(** ** CreateShortUrl: the URL check *)

Lemma choose_code_returned_accepted (fuel : nat) (alias : option string)
  (w : World) (c : string) :
  outcome (CreateShortUrl.choose_code fuel alias w) = Returned c ->
  CreateShortUrl.alias_accepted alias (urls w) = true.
Proof.
  unfold CreateShortUrl.choose_code, CreateShortUrl.alias_accepted.
  destruct alias as [a|]; [|reflexivity].
  destruct (Js.truthy a); [|reflexivity].
  destruct (CreateShortUrl._isValidCustomAlias a); cbn [negb andb];
    [|discriminate].
  unfold bind, MongoUrlRepository.customAliasExists,
    MongoUrlRepository.query, MongoUrlRepository.next_fault.
  destruct (storeFaults w) as [|[] fs]; cbn [outcome world events];
    try discriminate;
    destruct (MongoUrlRepository.alias_exists a (urls w));
    cbn [outcome negb]; intros H; try discriminate; reflexivity.
Qed.

Lemma enough_fuel_bound (w : World) (fuel : nat) :
  CreateShortUrl.enough_fuel w <= fuel ->
  5 * (S (CreateShortUrl.max_code_length (urls w)) - urlLength w) - 0 + 1
    <= fuel.
Proof. unfold CreateShortUrl.enough_fuel. lia. Qed.

Lemma length_truthy (c : string) : 0 < String.length c -> Js.truthy c = true.
Proof. destruct c; simpl; [lia | reflexivity]. Qed.

(** With a store that answers and enough fuel, the alias step yields a
    non-empty code exactly when it lets the request through. *)
Lemma choose_code_healthy (fuel : nat) (alias : option string) (w : World) :
  storeFaults w = [] -> 0 < urlLength w ->
  CreateShortUrl.enough_fuel w <= fuel ->
  CreateShortUrl.alias_accepted alias (urls w) = true ->
  exists c, outcome (CreateShortUrl.choose_code fuel alias w) = Returned c /\
            Js.truthy c = true.
Proof.
  intros Hs Hl Hf.
  assert (G : exists c,
            outcome (CreateShortUrl._generateUniqueShortCode fuel w)
              = Returned c /\ Js.truthy c = true).
  { destruct (generate_loop_terminates fuel 0 w ltac:(lia)
                (enough_fuel_bound w fuel Hf)) as (_ & H2 & H3).
    destruct (H2 Hs) as [c Hc]. exists c. split; [exact Hc|].
    destruct (H3 c Hc) as (Hlen & _). apply length_truthy. lia. }
  unfold CreateShortUrl.choose_code, CreateShortUrl.alias_accepted.
  destruct alias as [a|]; [|intros _; exact G].
  destruct (Js.truthy a) eqn:Ht; [|intros _; exact G].
  destruct (CreateShortUrl._isValidCustomAlias a); cbn [negb andb];
    [|discriminate].
  unfold bind, MongoUrlRepository.customAliasExists,
    MongoUrlRepository.query, MongoUrlRepository.next_fault.
  rewrite Hs. cbn [outcome world events].
  destruct (MongoUrlRepository.alias_exists a (urls w)); cbn [negb outcome];
    [discriminate|].
  intros _. exists a. split; [reflexivity | exact Ht].
Qed.

Lemma Url_new_world (u : Link) (w : World) : world (Url.new u w) = w.
Proof. exact (keeps_Url_new (fun x => x) u w). Qed.

Lemma Url_new_invalid (u : Link) (w : World) :
  outcome (Url.new u w) = Thrown InvalidUrlFormat ->
  urlParser w (originalUrl u) = false.
Proof.
  unfold Url.new, Url._validate, bind, read, ret, throw.
  destruct (negb _); [discriminate|]. destruct (negb _); [discriminate|].
  cbn [outcome world events].
  destruct (urlParser w (originalUrl u)); [discriminate | reflexivity].
Qed.

Lemma Url_new_checked (u : Link) (w : World) :
  Js.truthy (originalUrl u) = true -> Js.truthy (shortCode u) = true ->
  outcome (Url.new u w) =
    if urlParser w (originalUrl u) then Returned u
    else Thrown InvalidUrlFormat.
Proof.
  intros H1 H2. unfold Url.new, Url._validate, bind, read, ret, throw.
  rewrite H1, H2. cbn [negb outcome world events].
  destruct (urlParser w (originalUrl u)); reflexivity.
Qed.

(** Whenever [execute] ends with the URL error, the lookup found nothing,
    the alias step let the request through, the parser refused the
    normalized string, and nothing was sent to the store to persist. *)
Lemma execute_invalid_url_inv (fuel : nat) (d : UrlData) (w : World) :
  let norm := _normalizeUrl (in_originalUrl d) in
  let r := CreateShortUrl.execute fuel d w in
  outcome r = Thrown InvalidUrlFormat ->
  MongoUrlRepository.find_by_original_url norm (urls w) = None /\
  CreateShortUrl.alias_accepted (in_customAlias d) (urls w) = true /\
  urlParser w norm = false /\
  urls (world r) = urls w /\
  List.filter is_create (events r) = [].
Proof.
  intros norm r. subst r.
  unfold CreateShortUrl.execute, MongoUrlRepository.findByOriginalUrl.
  fold norm.
  destruct (hd false (storeFaults w)) eqn:Hs.
  { rewrite (bind_thrown _ _ _ _ _ _ (query_throws _ _ w Hs)).
    discriminate. }
  rewrite (bind_returned _ _ _ _ _ _ (query_answers _ _ w Hs)).
  destruct (MongoUrlRepository.find_by_original_url norm (urls w));
    [discriminate|].
  set (w1 := set_storeFaults (tl (storeFaults w)) w).
  cbn [outcome world events].
  set (rest1 := fun shortCode : string => _).
  destruct (outcome (CreateShortUrl.choose_code fuel (in_customAlias d) w1))
    as [code|e|] eqn:Hc.
  2:{ destruct (bind_outcome_thrown _ rest1 w1 e Hc) as (E1 & _).
      rewrite E1. intros [= ->]. exfalso.
      now apply (never_throws_choose_code InvalidUrlFormat fuel
                   (in_customAlias d)) in Hc. }
  2:{ unfold bind. rewrite Hc. discriminate. }
  destruct (bind_outcome_returned _ rest1 w1 code Hc) as (E1 & E2 & E3).
  rewrite E1, E2, E3. clear E1 E2 E3. unfold rest1. clear rest1.
  set (w2 := world (CreateShortUrl.choose_code fuel (in_customAlias d) w1)).
  set (ev2 := events (CreateShortUrl.choose_code fuel (in_customAlias d) w1)).
  assert (Hu2 : urls w2 = urls w).
  { unfold w2. rewrite (keeps_choose_code urls); [reflexivity|field_frame..]. }
  assert (Hp2 : urlParser w2 = urlParser w).
  { unfold w2. rewrite (keeps_choose_code urlParser);
      [reflexivity|field_frame..]. }
  assert (Hcr2 : List.filter is_create ev2 = []).
  { apply filter_nil_of_Forall.
    apply (emits_only_choose_code (fun e => is_create e = false));
      reflexivity. }
  apply choose_code_returned_accepted in Hc.
  change (urls w1) with (urls w) in Hc.
  rewrite bind_read.
  set (doc := mkLink norm code (in_customAlias d) (in_userId d) (now w2)
                     (in_expiresAt d) true).
  set (rest2 := fun url : Link => _).
  destruct (outcome (Url.new doc w2)) as [url|e|] eqn:Hn.
  - destruct (bind_outcome_returned _ rest2 w2 url Hn) as (E1 & _).
    rewrite E1. unfold rest2. intros H. exfalso. revert H.
    apply never_throws_bind.
    + apply never_throws_create; discriminate.
    + intros a. apply never_throws_bind;
        [apply never_throws_create_cacheUrl | intros; apply never_throws_ret].
  - destruct (bind_outcome_thrown _ rest2 w2 e Hn) as (E1 & E2 & E3).
    rewrite E1, E2, E3. intros [= ->].
    apply Url_new_invalid in Hn. cbn [originalUrl doc] in Hn.
    rewrite Hp2 in Hn. rewrite Url_new_world, events_Url_new.
    split; [reflexivity|]. split; [exact Hc|]. split; [exact Hn|].
    split; [exact Hu2|].
    rewrite app_nil_r. cbn [app List.filter is_create]. exact Hcr2.
  - unfold bind. rewrite Hn. discriminate.
Qed.

(** C7, as the code has it: with a store that answers and enough fuel,
    [execute] fails with the URL error exactly when the store finds no
    link for the normalized string (which it compares once white space is
    trimmed from its ends), the alias step lets the request through, and
    the runtime's URL parser refuses the normalized string; in that case
    nothing is persisted.  No check of the scheme is made. *)
Theorem create_fails_with_invalid_url_iff (fuel : nat) (d : UrlData)
  (w : World) :
  storeFaults w = [] -> 0 < urlLength w ->
  CreateShortUrl.enough_fuel w <= fuel ->
  let norm := _normalizeUrl (in_originalUrl d) in
  let r := CreateShortUrl.execute fuel d w in
  (outcome r = Thrown InvalidUrlFormat <->
     MongoUrlRepository.find_by_original_url norm (urls w) = None /\
     CreateShortUrl.alias_accepted (in_customAlias d) (urls w) = true /\
     urlParser w norm = false) /\
  (outcome r = Thrown InvalidUrlFormat ->
     urls (world r) = urls w /\ List.filter is_create (events r) = []).
Proof.
  intros Hs Hl Hf norm r.
  split; [split|].
  - intros H. destruct (execute_invalid_url_inv fuel d w H)
      as (H1 & H2 & H3 & _). now repeat split.
  - intros (Hfind & Hal & Hp). subst r.
    unfold CreateShortUrl.execute, MongoUrlRepository.findByOriginalUrl.
    fold norm.
    assert (Hs0 : hd false (storeFaults w) = false) by now rewrite Hs.
    rewrite (bind_returned _ _ _ _ _ _ (query_answers _ _ w Hs0)).
    rewrite Hfind. cbn [outcome world events].
    set (w1 := set_storeFaults (tl (storeFaults w)) w).
    assert (Hs1 : storeFaults w1 = []) by (unfold w1; now rewrite Hs).
    destruct (choose_code_healthy fuel (in_customAlias d) w1 Hs1 Hl Hf Hal)
      as (code & Hc & Ht).
    set (rest1 := fun shortCode : string => _).
    destruct (bind_outcome_returned _ rest1 w1 code Hc) as (E1 & _).
    rewrite E1. unfold rest1. clear E1 rest1.
    set (w2 := world (CreateShortUrl.choose_code fuel (in_customAlias d) w1)).
    assert (Hp2 : urlParser w2 = urlParser w).
    { unfold w2. rewrite (keeps_choose_code urlParser);
        [reflexivity|field_frame..]. }
    rewrite bind_read.
    set (doc := mkLink norm code (in_customAlias d) (in_userId d) (now w2)
                       (in_expiresAt d) true).
    set (rest2 := fun url : Link => _).
    assert (Hn : outcome (Url.new doc w2) = Thrown InvalidUrlFormat).
    { rewrite Url_new_checked; [|apply normalize_truthy | exact Ht].
      cbn [originalUrl doc]. now rewrite Hp2, Hp. }
    destruct (bind_outcome_thrown _ rest2 w2 _ Hn) as (E1 & _).
    exact E1.
  - intros H. destruct (execute_invalid_url_inv fuel d w H)
      as (_ & _ & _ & H4 & H5). now split.
Qed.

(** C7, as stated, fails: a string with another scheme gets [https://] in
    front and is shortened; and an unparseable string sent with a
    malformed alias fails with the alias error, not the URL error. *)
Lemma other_scheme_is_shortened :
  let d := mkUrlData "ftp://example.com" None None None in
  let u := mkLink "https://ftp://example.com" "aaaaaaa" None None 1000 None
                  true in
  let r := CreateShortUrl.execute 10 d (Examples.fresh 1000) in
  has_http_prefix "ftp://example.com" = false /\
  WhatwgUrl.parse "https://ftp://example.com" = WhatwgUrl.Accepted /\
  outcome r = Returned u /\
  outcome r <> Thrown InvalidUrlFormat /\
  urls (world r) = [u] /\
  WhatwgUrl.parse (_normalizeUrl "") = WhatwgUrl.Failure /\
  outcome (CreateShortUrl.execute 10 (mkUrlData "" (Some "a b!") None None)
                                  (Examples.fresh 1000))
    = Thrown InvalidAliasFormat.
Proof.
  cbv zeta. repeat apply conj; try (vm_compute; reflexivity).
  vm_compute. discriminate.
Qed.

(** A host with a space in it is refused by the parser, and nothing is
    persisted.  A host followed by a no-break space is refused by the
    parser as well, but when the store holds a link for the URL without
    that space, the link is found first and returned. *)
Lemma create_fails_with_invalid_url_iff_witness :
  let d := mkUrlData "https://exa mple.com/" None None None in
  let r := CreateShortUrl.execute 10 d (Examples.fresh 1000) in
  let u := mkLink "https://example.com" "abc1234" None None 0 None true in
  let d' := mkUrlData ("example.com" +:+ Examples.nbsp) None None None in
  let r' := CreateShortUrl.execute 10 d'
              (set_urls [u] (Examples.fresh 1000)) in
  (outcome r = Thrown InvalidUrlFormat /\ urls (world r) = []) /\
  urlParser (Examples.fresh 1000) (_normalizeUrl (in_originalUrl d'))
    = false /\
  outcome r' = Returned u /\ outcome r' <> Thrown InvalidUrlFormat.
Proof.
  cbv zeta.
  split; [|split; [vm_compute; reflexivity|
                   split; [vm_compute; reflexivity|
                           vm_compute; discriminate]]].
  destruct (create_fails_with_invalid_url_iff 10
              (mkUrlData "https://exa mple.com/" None None None)
              (Examples.fresh 1000) eq_refl ltac:(vm_compute; lia)
              ltac:(vm_compute; lia)) as (Hiff & Hkeep).
  assert (H : outcome (CreateShortUrl.execute 10
                (mkUrlData "https://exa mple.com/" None None None)
                (Examples.fresh 1000)) = Thrown InvalidUrlFormat).
  { apply Hiff. repeat apply conj; vm_compute; reflexivity. }
  split; [exact H|]. exact (proj1 (Hkeep H)).
Defined.

(** ** Failures of the cache and of the store *)

Section CacheBlind.

Lemma forget_cache_fields (w w' : World) :
  forget_cache w = forget_cache w' ->
  now w = now w' /\ urlParser w = urlParser w' /\ urls w = urls w' /\
  storeFaults w = storeFaults w' /\ redisTtl w = redisTtl w' /\
  urlLength w = urlLength w' /\ entropy w = entropy w' /\
  draws w = draws w'.
Proof.
  destruct w, w'. unfold forget_cache. simpl. intros H.
  injection H as -> -> -> -> -> -> -> -> ->. now repeat split.
Qed.

Lemma cache_blind_ret {A} (a : A) : cache_blind (ret a).
Proof. intros w w' H. now split. Qed.

Lemma cache_blind_throw {A} (e : Error) : cache_blind (@throw A e).
Proof. intros w w' H. now split. Qed.

Lemma cache_blind_out_of_fuel {A} : cache_blind (@out_of_fuel A).
Proof. intros w w' H. now split. Qed.

Lemma cache_blind_emit (ev : Event) : cache_blind (emit ev).
Proof. intros w w' H. now split. Qed.

Lemma cache_blind_bind {A C} (m : M A) (k : A -> M C) :
  cache_blind m -> (forall a, cache_blind (k a)) -> cache_blind (bind m k).
Proof.
  intros Hm Hk w w' H. destruct (Hm w w' H) as (Ho & Hw).
  unfold bind. rewrite <- Ho.
  destruct (outcome (m w)) as [a| |]; cbn [outcome world]; try now split.
  apply Hk. exact Hw.
Qed.

Lemma cache_blind_read {A} (g : World -> A) :
  (forall w w', forget_cache w = forget_cache w' -> g w = g w') ->
  cache_blind (read g).
Proof. intros Hg w w' H. split; [simpl; f_equal; now apply Hg | exact H]. Qed.

Lemma cache_blind_query {A} (ev : Event) (answer : list Link -> A) :
  cache_blind (MongoUrlRepository.query ev answer).
Proof.
  intros w w' H. destruct w, w'. unfold forget_cache in H. simpl in H.
  injection H as -> -> -> -> -> -> -> -> ->.
  unfold MongoUrlRepository.query, MongoUrlRepository.next_fault. simpl.
  destruct storeFaults1 as [|[] fs]; simpl; now split.
Qed.

Lemma cache_blind_create (doc : Link) :
  cache_blind (MongoUrlRepository.create doc).
Proof.
  intros w w' H. destruct w, w'. unfold forget_cache in H. simpl in H.
  injection H as -> -> -> -> -> -> -> -> ->.
  unfold MongoUrlRepository.create, MongoUrlRepository.next_fault. simpl.
  destruct (negb _); [now split|].
  destruct storeFaults1 as [|[] fs]; simpl; try now split.
  all: match goal with
       | |- context [MongoUrlRepository.has_code ?c ?l] =>
           destruct (MongoUrlRepository.has_code c l)
       end; simpl; now split.
Qed.

Lemma cache_blind_nanoid (size : nat) : cache_blind (nanoid size).
Proof.
  intros w w' H. destruct w, w'. unfold forget_cache in H. simpl in H.
  injection H as -> -> -> -> -> -> -> -> ->.
  unfold nanoid, nanoid_value. simpl. now split.
Qed.

Lemma cache_blind_generate_loop (fuel attempts : nat) :
  cache_blind (CreateShortUrl.generate_loop fuel attempts).
Proof.
  revert attempts. induction fuel as [|fuel IH]; intros attempts.
  - apply cache_blind_out_of_fuel.
  - cbn [CreateShortUrl.generate_loop].
    apply cache_blind_bind.
    { apply cache_blind_read. intros w w' H.
      now apply forget_cache_fields in H. }
    intros len. apply cache_blind_bind; [apply cache_blind_nanoid|].
    intros code. apply cache_blind_bind; [apply cache_blind_query|].
    intros ex. apply cache_blind_bind.
    + destruct (_ <=? _)%nat; [|apply cache_blind_ret].
      intros w w' H. destruct w, w'. unfold forget_cache in H. simpl in H.
      injection H as -> -> -> -> -> -> -> -> ->. now split.
    + intros a. destruct ex; [apply IH | apply cache_blind_ret].
Qed.

Lemma cache_blind_choose_code (fuel : nat) (alias : option string) :
  cache_blind (CreateShortUrl.choose_code fuel alias).
Proof.
  unfold CreateShortUrl.choose_code, CreateShortUrl._generateUniqueShortCode.
  destruct alias as [a|]; [|apply cache_blind_generate_loop].
  destruct (Js.truthy a); [|apply cache_blind_generate_loop].
  destruct (negb _); [apply cache_blind_throw|].
  apply cache_blind_bind; [apply cache_blind_query|intros ex].
  destruct ex; [apply cache_blind_throw | apply cache_blind_ret].
Qed.

Lemma cache_blind_Url_new (u : Link) : cache_blind (Url.new u).
Proof.
  unfold Url.new, Url._validate.
  apply cache_blind_bind; [|intros; apply cache_blind_ret].
  destruct (negb _); [apply cache_blind_throw|].
  destruct (negb _); [apply cache_blind_throw|].
  apply cache_blind_bind.
  - apply cache_blind_read. intros w w' H.
    apply forget_cache_fields in H as (_ & -> & _). reflexivity.
  - intros ok. destruct ok; [apply cache_blind_ret | apply cache_blind_throw].
Qed.

(** A computation that always returns the same value and only writes to
    the cache is blind to it. *)
Lemma cache_blind_of_keeps {A} (m : M A) (a : A) :
  (forall w, outcome (m w) = Returned a) ->
  keeps forget_cache m -> cache_blind m.
Proof.
  intros Ho Hk w w' H. split; [now rewrite !Ho|]. now rewrite !Hk.
Qed.

Lemma cache_blind_create_cacheUrl (code url : string) :
  cache_blind (CreateShortUrl._cacheUrl code url).
Proof.
  apply (cache_blind_of_keeps _ tt).
  - apply create_cacheUrl_returns.
  - apply keeps_create_cacheUrl; intros v w; destruct w; reflexivity.
Qed.

Lemma resolve_cacheUrl_returns (code url : string) (w : World) :
  outcome (ResolveUrl._cacheUrl code url w) = Returned tt.
Proof. apply resolve_cacheUrl_run. Qed.

Lemma cache_blind_resolve_cacheUrl (code url : string) :
  cache_blind (ResolveUrl._cacheUrl code url).
Proof.
  apply (cache_blind_of_keeps _ tt).
  - apply resolve_cacheUrl_returns.
  - apply keeps_resolve_cacheUrl; intros v w; destruct w; reflexivity.
Qed.

Lemma cache_blind_create_execute (fuel : nat) (d : UrlData) :
  cache_blind (CreateShortUrl.execute fuel d).
Proof.
  unfold CreateShortUrl.execute.
  apply cache_blind_bind; [apply cache_blind_query|intros existing].
  destruct existing; [apply cache_blind_ret|].
  apply cache_blind_bind; [apply cache_blind_choose_code|intros code].
  apply cache_blind_bind.
  { apply cache_blind_read. intros w w' H.
    now apply forget_cache_fields in H. }
  intros t. apply cache_blind_bind; [apply cache_blind_Url_new|intros url].
  apply cache_blind_bind; [apply cache_blind_create|intros created].
  apply cache_blind_bind; [apply cache_blind_create_cacheUrl|].
  intros; apply cache_blind_ret.
Qed.

Lemma cache_blind_from_repository (code : string) :
  cache_blind (ResolveUrl.from_repository code).
Proof.
  unfold ResolveUrl.from_repository.
  apply cache_blind_bind; [apply cache_blind_query|intros entity].
  destruct entity as [u|]; [|apply cache_blind_throw].
  destruct (negb _); [apply cache_blind_throw|].
  apply cache_blind_bind.
  { apply cache_blind_read. intros w w' H.
    now apply forget_cache_fields in H. }
  intros t. destruct (Url.isExpired _ _); [apply cache_blind_throw|].
  apply cache_blind_bind; [apply cache_blind_resolve_cacheUrl|].
  intros; apply cache_blind_ret.
Qed.

End CacheBlind.

Section StoreStrict.

Lemma skipn_add {A} (n1 n2 : nat) (l : list A) :
  skipn n2 (skipn n1 l) = skipn (n1 + n2) l.
Proof.
  revert l. induction n1 as [|n1 IH]; intros l; [reflexivity|].
  destruct l as [|x l]; simpl; [now destruct n2 | apply IH].
Qed.

Lemma any_true_firstn_add (n1 n2 : nat) (l : list bool) :
  any_true (firstn (n1 + n2) l) =
  any_true (firstn n1 l) || any_true (firstn n2 (skipn n1 l)).
Proof.
  revert l. induction n1 as [|n1 IH]; intros l; [reflexivity|].
  destruct l as [|x l]; simpl.
  - now destruct n2.
  - unfold any_true in *. simpl. rewrite IH. now rewrite orb_assoc.
Qed.

Lemma store_strict_of_keeps {A} (m : M A) :
  keeps storeFaults m -> store_strict m.
Proof.
  intros Hk w. exists 0. split; [apply Hk | discriminate].
Qed.

Lemma store_strict_bind {A C} (m : M A) (k : A -> M C) :
  store_strict m -> (forall a, store_strict (k a)) ->
  store_strict (bind m k).
Proof.
  intros Hm Hk w. destruct (Hm w) as (n1 & E1 & T1). unfold bind.
  destruct (outcome (m w)) as [a| |] eqn:Ho; cbn [outcome world].
  - destruct (Hk a (world (m w))) as (n2 & E2 & T2).
    exists (n1 + n2). split.
    + rewrite E2, E1. apply skipn_add.
    + rewrite any_true_firstn_add. intros H.
      apply orb_true_iff in H as [H|H].
      * apply T1 in H. discriminate.
      * apply T2. now rewrite E1.
  - exists n1. split; [exact E1|]. intros H. apply T1 in H. congruence.
  - exists n1. split; [exact E1|]. intros H. apply T1 in H. discriminate.
Qed.

Lemma store_strict_query {A} (ev : Event) (answer : list Link -> A) :
  store_strict (MongoUrlRepository.query ev answer).
Proof.
  intros w. exists 1.
  unfold MongoUrlRepository.query, MongoUrlRepository.next_fault.
  destruct (storeFaults w) as [|[] fs] eqn:E; cbn; rewrite ?E;
    split; try reflexivity; discriminate.
Qed.

Lemma store_strict_create (doc : Link) :
  store_strict (MongoUrlRepository.create doc).
Proof.
  intros w.
  unfold MongoUrlRepository.create, MongoUrlRepository.next_fault.
  destruct (negb _);
    [exists 0; split; [reflexivity | discriminate]|].
  exists 1.
  destruct (storeFaults w) as [|[] fs] eqn:E;
    try match goal with
    | |- context [MongoUrlRepository.has_code ?c ?l] =>
        destruct (MongoUrlRepository.has_code c l)
    end;
    cbn; rewrite ?E; split; try reflexivity; discriminate.
Qed.

Lemma store_strict_generate_loop (fuel attempts : nat) :
  store_strict (CreateShortUrl.generate_loop fuel attempts).
Proof.
  revert attempts. induction fuel as [|fuel IH]; intros attempts.
  - apply store_strict_of_keeps, keeps_out_of_fuel.
  - cbn [CreateShortUrl.generate_loop].
    apply store_strict_bind;
      [apply store_strict_of_keeps, keeps_read|intros len].
    apply store_strict_bind;
      [apply store_strict_of_keeps, keeps_nanoid; field_frame|intros code].
    apply store_strict_bind; [apply store_strict_query|intros ex].
    apply store_strict_bind.
    + apply store_strict_of_keeps.
      destruct (_ <=? _)%nat; [|apply keeps_ret]. intros w. reflexivity.
    + intros a. destruct ex; [apply IH|].
      apply store_strict_of_keeps, keeps_ret.
Qed.

Lemma store_strict_choose_code (fuel : nat) (alias : option string) :
  store_strict (CreateShortUrl.choose_code fuel alias).
Proof.
  unfold CreateShortUrl.choose_code, CreateShortUrl._generateUniqueShortCode.
  destruct alias as [a|]; [|apply store_strict_generate_loop].
  destruct (Js.truthy a); [|apply store_strict_generate_loop].
  destruct (negb _); [apply store_strict_of_keeps, keeps_throw|].
  apply store_strict_bind; [apply store_strict_query|intros ex].
  destruct ex; apply store_strict_of_keeps;
    [apply keeps_throw | apply keeps_ret].
Qed.

Lemma store_strict_create_execute (fuel : nat) (d : UrlData) :
  store_strict (CreateShortUrl.execute fuel d).
Proof.
  unfold CreateShortUrl.execute.
  apply store_strict_bind; [apply store_strict_query|intros existing].
  destruct existing; [apply store_strict_of_keeps, keeps_ret|].
  apply store_strict_bind; [apply store_strict_choose_code|intros code].
  apply store_strict_bind;
    [apply store_strict_of_keeps, keeps_read|intros t].
  apply store_strict_bind;
    [apply store_strict_of_keeps, keeps_Url_new|intros url].
  apply store_strict_bind; [apply store_strict_create|intros created].
  apply store_strict_bind.
  - apply store_strict_of_keeps, keeps_create_cacheUrl; field_frame.
  - intros; apply store_strict_of_keeps, keeps_ret.
Qed.

Lemma store_strict_from_repository (code : string) :
  store_strict (ResolveUrl.from_repository code).
Proof.
  unfold ResolveUrl.from_repository.
  apply store_strict_bind; [apply store_strict_query|intros entity].
  destruct entity as [u|]; [|apply store_strict_of_keeps, keeps_throw].
  destruct (negb _); [apply store_strict_of_keeps, keeps_throw|].
  apply store_strict_bind;
    [apply store_strict_of_keeps, keeps_read|intros t].
  destruct (Url.isExpired _ _); [apply store_strict_of_keeps, keeps_throw|].
  apply store_strict_bind.
  - apply store_strict_of_keeps, keeps_resolve_cacheUrl; field_frame.
  - intros; apply store_strict_of_keeps, keeps_ret.
Qed.

Lemma store_strict_resolve_execute (analytics : bool) (code : string)
  (rd : option RequestData) :
  store_strict (ResolveUrl.execute analytics code rd).
Proof.
  unfold ResolveUrl.execute.
  destruct (negb _); [apply store_strict_of_keeps, keeps_throw|].
  apply store_strict_bind.
  { apply store_strict_of_keeps, keeps_getFromCache; field_frame. }
  intros cached. apply store_strict_bind.
  - destruct cached as [url|]; [|apply store_strict_from_repository].
    destruct (Js.truthy url); [|apply store_strict_from_repository].
    apply store_strict_of_keeps, keeps_ret.
  - intros r. apply store_strict_bind.
    + apply store_strict_of_keeps.
      destruct rd as [rd0|]; [destruct analytics|];
        first [apply keeps_emit | apply keeps_ret].
    + intros; apply store_strict_of_keeps, keeps_ret.
Qed.

Lemma firstn_all_min {A} (n : nat) (l : list A) :
  firstn (length l - length (skipn n l)) l = firstn n l.
Proof.
  revert l. induction n as [|n IH]; intros l; simpl.
  - now rewrite Nat.sub_diag.
  - destruct l as [|x l]; [reflexivity|]. simpl.
    assert (H : length (skipn n l) <= length l).
    { rewrite length_skipn. lia. }
    replace (S (length l) - length (skipn n l))
      with (S (length l - length (skipn n l))) by lia.
    simpl. now rewrite IH.
Qed.

Lemma store_strict_hit {A} (m : M A) (w : World) :
  store_strict m ->
  store_fault_hit w (world (m w)) = true ->
  outcome (m w) = Thrown (StoreError StoreUnavailable).
Proof.
  intros Hm. destruct (Hm w) as (n & E & T). unfold store_fault_hit.
  rewrite E, firstn_all_min. exact T.
Qed.

End StoreStrict.

Lemma bind_events_prefix {A B} (m : M A) (k : A -> M B) (w : World) :
  exists rest, events (bind m k w) = (events (m w) ++ rest)%list.
Proof.
  unfold bind. destruct (outcome (m w)); cbn [events].
  - eauto.
  - exists []. now rewrite app_nil_r.
  - exists []. now rewrite app_nil_r.
Qed.

Lemma from_repository_asks_store (code : string) (w : World) :
  In (EvFindByShortCode code) (events (ResolveUrl.from_repository code w)).
Proof.
  unfold ResolveUrl.from_repository, MongoUrlRepository.findByShortCode.
  destruct (bind_events_prefix
              (MongoUrlRepository.query (EvFindByShortCode code)
                 (MongoUrlRepository.find_by_code code))
              (fun urlEntity =>
                 match urlEntity with
                 | Some u =>
                     if negb (isActive u) then throw LinkDeactivated
                     else
                       let* t := read now in
                       if Url.isExpired t (expiresAt u)
                       then throw LinkExpired
                       else
                         let* _ := ResolveUrl._cacheUrl code (originalUrl u) in
                         ret (ResolveUrl.mkResult (originalUrl u) (Some u))
                 | None => throw UrlNotFound
                 end) w) as (rest & ->).
  destruct (query_cases (EvFindByShortCode code)
              (MongoUrlRepository.find_by_code code) w) as (_ & -> & _).
  now left.
Qed.

Lemma getFromCache_failed (code : string) (w : World) (f : CacheFault)
  (fs : list CacheFault) :
  cacheFaults w = f :: fs -> f <> CacheOk ->
  outcome (ResolveUrl._getFromCache code w) = Returned None /\
  world (ResolveUrl._getFromCache code w) = set_cacheFaults fs w.
Proof.
  intros E Hf.
  unfold ResolveUrl._getFromCache, try_catch, Cache.get, Cache.next_fault.
  rewrite E. destruct f; [congruence| |]; now split.
Qed.

Lemma getFromCache_empty (code : string) (w : World)
  (fs : list CacheFault) :
  cacheFaults w = CacheOk :: fs -> cache w = ∅ ->
  outcome (ResolveUrl._getFromCache code w) = Returned None /\
  world (ResolveUrl._getFromCache code w) = set_cacheFaults fs w.
Proof.
  intros E Hc.
  unfold ResolveUrl._getFromCache, try_catch, Cache.get, Cache.next_fault.
  rewrite E, Hc. cbn. now rewrite lookup_empty.
Qed.

Lemma never_throws_cache_create (fuel : nat) (d : UrlData) :
  never_throws CacheError (CreateShortUrl.execute fuel d).
Proof.
  unfold CreateShortUrl.execute.
  apply never_throws_bind;
    [apply never_throws_query; discriminate|intros existing].
  destruct existing; [apply never_throws_ret|].
  apply never_throws_bind;
    [apply never_throws_choose_code; discriminate|intros code].
  apply never_throws_bind; [apply never_throws_read|intros t].
  apply never_throws_bind;
    [apply never_throws_Url_new; discriminate|intros url].
  apply never_throws_bind;
    [apply never_throws_create; discriminate|intros created].
  apply never_throws_bind; [apply never_throws_create_cacheUrl|].
  intros; apply never_throws_ret.
Qed.

Lemma never_throws_cache_from_repository (code : string) :
  never_throws CacheError (ResolveUrl.from_repository code).
Proof.
  unfold ResolveUrl.from_repository.
  apply never_throws_bind;
    [apply never_throws_query; discriminate|intros entity].
  destruct entity as [u|]; [|apply never_throws_throw; discriminate].
  destruct (negb _); [apply never_throws_throw; discriminate|].
  apply never_throws_bind; [apply never_throws_read|intros t].
  destruct (Url.isExpired _ _); [apply never_throws_throw; discriminate|].
  apply never_throws_bind; [apply never_throws_resolve_cacheUrl|].
  intros; apply never_throws_ret.
Qed.

Lemma never_throws_cache_resolve (analytics : bool) (code : string)
  (rd : option RequestData) :
  never_throws CacheError (ResolveUrl.execute analytics code rd).
Proof.
  unfold ResolveUrl.execute.
  destruct (negb _); [apply never_throws_throw; discriminate|].
  apply never_throws_bind; [apply never_throws_getFromCache|].
  intros cached. apply never_throws_bind.
  - destruct cached as [url|]; [|apply never_throws_cache_from_repository].
    destruct (Js.truthy url); [apply never_throws_ret|].
    apply never_throws_cache_from_repository.
  - intros r. apply never_throws_bind.
    + destruct rd as [rd0|]; [destruct analytics|];
        first [apply never_throws_emit | apply never_throws_ret].
    + intros; apply never_throws_ret.
Qed.

(** After a cache read that failed or found nothing, resolution goes on
    from the store the same way. *)
Lemma resolve_after_failed_get (analytics : bool) (code : string)
  (rd : option RequestData) (w : World) (f : CacheFault)
  (fs : list CacheFault) :
  cacheFaults w = f :: fs -> f <> CacheOk ->
  let miss := set_cache ∅ (set_cacheFaults (CacheOk :: fs) w) in
  outcome (ResolveUrl.execute analytics code rd w) =
    outcome (ResolveUrl.execute analytics code rd miss) /\
  (Js.truthy code = true ->
   In (EvFindByShortCode code)
      (events (ResolveUrl.execute analytics code rd w))).
Proof.
  intros E Hf miss. unfold ResolveUrl.execute.
  destruct (Js.truthy code); cbn [negb]; [|split; [reflexivity|discriminate]].
  destruct (getFromCache_failed code w f fs E Hf) as (O1 & W1).
  destruct (getFromCache_empty code miss fs eq_refl eq_refl) as (O2 & W2).
  set (k := fun cached : option string => _).
  destruct (bind_outcome_returned _ k w None O1) as (A1 & _ & A3).
  destruct (bind_outcome_returned _ k miss None O2) as (B1 & _).
  rewrite A1, B1, A3, W1, W2. split.
  - unfold k.
    assert (Hb : cache_blind
              (let* r := ResolveUrl.from_repository code in
               let* _ := match rd with
                         | Some rd0 =>
                             if analytics
                             then ResolveUrl._recordAnalytics code rd0
                             else ret tt
                         | None => ret tt
                         end in
               ret r)).
    { apply cache_blind_bind; [apply cache_blind_from_repository|].
      intros r. apply cache_blind_bind; [|intros; apply cache_blind_ret].
      destruct rd as [rd0|]; [destruct analytics|];
        first [apply cache_blind_emit | apply cache_blind_ret]. }
    apply Hb. destruct w. reflexivity.
  - intros _. apply in_or_app. right. unfold k.
    destruct (bind_events_prefix (ResolveUrl.from_repository code)
      (fun r => let* _ := match rd with
                          | Some rd0 =>
                              if analytics
                              then ResolveUrl._recordAnalytics code rd0
                              else ret tt
                          | None => ret tt
                          end in ret r) (set_cacheFaults fs w))
      as (rest & ->).
    apply in_or_app. left. apply from_repository_asks_store.
Qed.

(** C9: no failure of a cache call ever reaches the caller of creation or
    resolution.  Creation has the same outcome and leaves the same
    collection whatever the cache does, so it succeeds when the cache
    write fails; resolution after a failed cache read has the outcome of
    a miss and asks the store.  A store call that throws always ends the
    operation with that store error. *)
Theorem cache_failures_absorbed_store_failures_propagate :
  (forall fuel d w,
     outcome (CreateShortUrl.execute fuel d w) <> Thrown CacheError) /\
  (forall fuel d w w',
     forget_cache w = forget_cache w' ->
     outcome (CreateShortUrl.execute fuel d w) =
       outcome (CreateShortUrl.execute fuel d w') /\
     urls (world (CreateShortUrl.execute fuel d w)) =
       urls (world (CreateShortUrl.execute fuel d w'))) /\
  (forall analytics code rd w,
     outcome (ResolveUrl.execute analytics code rd w) <> Thrown CacheError) /\
  (forall analytics code rd w f fs,
     cacheFaults w = f :: fs -> f <> CacheOk ->
     outcome (ResolveUrl.execute analytics code rd w) =
       outcome (ResolveUrl.execute analytics code rd
                  (set_cache ∅ (set_cacheFaults (CacheOk :: fs) w))) /\
     (Js.truthy code = true ->
      In (EvFindByShortCode code)
         (events (ResolveUrl.execute analytics code rd w)))) /\
  (forall fuel d w,
     store_fault_hit w (world (CreateShortUrl.execute fuel d w)) = true ->
     outcome (CreateShortUrl.execute fuel d w) =
       Thrown (StoreError StoreUnavailable)) /\
  (forall analytics code rd w,
     store_fault_hit w (world (ResolveUrl.execute analytics code rd w))
       = true ->
     outcome (ResolveUrl.execute analytics code rd w) =
       Thrown (StoreError StoreUnavailable)).
Proof.
  repeat apply conj.
  - intros fuel d w. apply never_throws_cache_create.
  - intros fuel d w w' H.
    destruct (cache_blind_create_execute fuel d w w' H) as (Ho & Hw).
    split; [exact Ho|]. now apply forget_cache_fields in Hw.
  - intros analytics code rd w. apply never_throws_cache_resolve.
  - intros analytics code rd w f fs E Hf.
    exact (resolve_after_failed_get analytics code rd w f fs E Hf).
  - intros fuel d w. apply store_strict_hit, store_strict_create_execute.
  - intros analytics code rd w.
    apply store_strict_hit, store_strict_resolve_execute.
Qed.

(** A cache that throws on its first call, and a store that does. *)
Lemma cache_failures_absorbed_store_failures_propagate_witness :
  let d := mkUrlData "https://example.com/path/" None None None in
  let u := mkLink "https://example.com/path" "aaaaaaa" None None 1000 None
                  true in
  let broken := set_cacheFaults [CacheThrows] (Examples.fresh 1000) in
  let down := set_storeFaults [true] (Examples.fresh 1000) in
  outcome (CreateShortUrl.execute 10 d broken) = Returned u /\
  outcome (ResolveUrl.execute false "docs123" None
             (set_urls [Examples.plain_link] broken)) =
    Returned (ResolveUrl.mkResult "https://example.com/docs"
                                  (Some Examples.plain_link)) /\
  outcome (CreateShortUrl.execute 10 d down) =
    Thrown (StoreError StoreUnavailable).
Proof.
  cbv zeta.
  destruct cache_failures_absorbed_store_failures_propagate
    as (_ & H2 & _ & H4 & H5 & _).
  split; [|split].
  - destruct (H2 10 (mkUrlData "https://example.com/path/" None None None)
                (set_cacheFaults [CacheThrows] (Examples.fresh 1000))
                (Examples.fresh 1000) eq_refl) as (Ho & _).
    rewrite Ho. vm_compute. reflexivity.
  - destruct (H4 false "docs123" None
                (set_urls [Examples.plain_link]
                   (set_cacheFaults [CacheThrows] (Examples.fresh 1000)))
                CacheThrows [] eq_refl ltac:(discriminate)) as (Ho & _).
    rewrite Ho. vm_compute. reflexivity.
  - apply H5. vm_compute. reflexivity.
Defined.

(** ** Creation of a new link succeeds *)

Lemma store_strict_healthy {A} (m : M A) (w : World) :
  store_strict m -> storeFaults w = [] -> storeFaults (world (m w)) = [].
Proof.
  intros Hm Hs. destruct (Hm w) as (n & E & _). rewrite E, Hs.
  now destruct n.
Qed.

Lemma choose_code_free (fuel : nat) (alias : option string) (w : World)
  (c : string) :
  outcome (CreateShortUrl.choose_code fuel alias w) = Returned c ->
  match alias with
  | Some a =>
      if Js.truthy a then c = a
      else MongoUrlRepository.code_exists c (urls w) = false
  | None => MongoUrlRepository.code_exists c (urls w) = false
  end.
Proof.
  assert (G : forall fuel' attempts w' c',
            outcome (CreateShortUrl.generate_loop fuel' attempts w')
              = Returned c' ->
            MongoUrlRepository.code_exists c' (urls w') = false).
  { induction fuel' as [|f IH]; intros attempts w' c'; [discriminate|].
    pose proof (generate_loop_unfold f attempts w') as U. cbv zeta in U.
    rewrite U. clear U.
    set (code := nanoid_value w' 0 (urlLength w')).
    set (w1 := set_draws (S (draws w')) w').
    destruct (shortCodeExists_cases code w1) as (Ho & Hw).
    cbv zeta in Ho, Hw. rewrite Hw.
    change (storeFaults w1) with (storeFaults w') in *.
    change (urls w1) with (urls w') in Ho.
    destruct (hd false (storeFaults w')); rewrite Ho; [discriminate|].
    destruct (MongoUrlRepository.code_exists code (urls w')) eqn:Hex.
    - cbn [outcome]. intros H. apply IH in H.
      destruct (_ <=? _)%nat in H; exact H.
    - cbn [outcome]. intros [= <-]. exact Hex. }
  unfold CreateShortUrl.choose_code, CreateShortUrl._generateUniqueShortCode.
  destruct alias as [a|]; [|apply G].
  destruct (Js.truthy a); [|apply G].
  destruct (negb _); [discriminate|].
  unfold bind, MongoUrlRepository.customAliasExists,
    MongoUrlRepository.query, MongoUrlRepository.next_fault.
  destruct (storeFaults w) as [|[] fs]; cbn [outcome world events];
    try discriminate;
    destruct (MongoUrlRepository.alias_exists a (urls w));
    cbn [outcome]; intros H; try discriminate; now injection H.
Qed.

(** What code selection returns has no white space to trim: it is a valid
    alias or a generated code. *)
Lemma choose_code_trim (fuel : nat) (alias : option string) (w : World)
  (c : string) :
  outcome (CreateShortUrl.choose_code fuel alias w) = Returned c ->
  Js.trim c = c.
Proof.
  assert (G : forall fuel' attempts w' c',
            outcome (CreateShortUrl.generate_loop fuel' attempts w')
              = Returned c' -> Js.trim c' = c').
  { induction fuel' as [|f IH]; intros attempts w' c'; [discriminate|].
    pose proof (generate_loop_unfold f attempts w') as U. cbv zeta in U.
    rewrite U. clear U.
    set (code := nanoid_value w' 0 (urlLength w')).
    set (w1 := set_draws (S (draws w')) w').
    destruct (shortCodeExists_cases code w1) as (Ho & Hw).
    cbv zeta in Ho, Hw. rewrite Hw.
    change (storeFaults w1) with (storeFaults w') in *.
    change (urls w1) with (urls w') in Ho.
    destruct (hd false (storeFaults w')); rewrite Ho; [discriminate|].
    destruct (MongoUrlRepository.code_exists code (urls w')) eqn:Hex.
    - cbn [outcome]. intros H. now apply IH in H.
    - cbn [outcome]. intros [= <-]. apply trim_nanoid_value. }
  unfold CreateShortUrl.choose_code, CreateShortUrl._generateUniqueShortCode.
  destruct alias as [a|]; [|apply G].
  destruct (Js.truthy a); [|apply G].
  destruct (CreateShortUrl._isValidCustomAlias a) eqn:Hv; cbn [negb];
    [|discriminate].
  assert (Ha : Js.trim a = a).
  { apply trim_alias_chars. unfold CreateShortUrl._isValidCustomAlias in Hv.
    apply andb_true_iff in Hv as (Hv & _).
    apply andb_true_iff in Hv as (Hv & _).
    destruct (list_ascii_of_string a); [reflexivity | exact Hv]. }
  unfold bind, MongoUrlRepository.customAliasExists,
    MongoUrlRepository.query, MongoUrlRepository.next_fault.
  destruct (storeFaults w) as [|[] fs]; cbn [outcome world events];
    try discriminate;
    destruct (MongoUrlRepository.alias_exists a (urls w));
    cbn [outcome]; intros H; try discriminate; now injection H as <-.
Qed.

(** When code selection returns, the alias of the request is one the
    setter leaves as it is: none, the empty string, or a valid alias. *)
Lemma choose_code_alias_trim (fuel : nat) (alias : option string)
  (w : World) (c : string) :
  outcome (CreateShortUrl.choose_code fuel alias w) = Returned c ->
  option_map Js.trim alias = alias.
Proof.
  destruct alias as [a|]; [|reflexivity]. cbn [option_map].
  unfold CreateShortUrl.choose_code.
  destruct (Js.truthy a) eqn:Ht.
  - destruct (CreateShortUrl._isValidCustomAlias a) eqn:Hv; cbn [negb];
      [|discriminate].
    intros _. f_equal. apply trim_alias_chars.
    unfold CreateShortUrl._isValidCustomAlias in Hv.
    apply andb_true_iff in Hv as (Hv & _).
    apply andb_true_iff in Hv as (Hv & _).
    destruct (list_ascii_of_string a); [reflexivity | exact Hv].
  - intros _. unfold Js.truthy in Ht. apply negb_false_iff in Ht.
    apply String.eqb_eq in Ht. subst a. reflexivity.
Qed.

Lemma create_inserts (doc : Link) (w : World) :
  storeFaults w = [] ->
  MongoUrlRepository.required_paths (MongoUrlRepository.cast doc) = true ->
  MongoUrlRepository.code_exists (shortCode doc) (urls w) = false ->
  outcome (MongoUrlRepository.create doc w) =
    Returned (MongoUrlRepository.cast doc).
Proof.
  intros Hs Hv Hex.
  unfold MongoUrlRepository.create, MongoUrlRepository.next_fault.
  unfold MongoUrlRepository.code_exists in Hex.
  change (shortCode (MongoUrlRepository.cast doc))
    with (Js.trim (shortCode doc)).
  now rewrite Hv, Hs, Hex.
Qed.

(** With a store that answers and enough fuel, a request for a URL that has
    no link yet, passes the alias step and parses is answered with a new
    link, which is persisted. *)
Lemma create_new_link_succeeds (fuel : nat) (d : UrlData) (w : World) :
  storeFaults w = [] -> 0 < urlLength w ->
  CreateShortUrl.enough_fuel w <= fuel ->
  let norm := _normalizeUrl (in_originalUrl d) in
  MongoUrlRepository.find_by_original_url norm (urls w) = None ->
  CreateShortUrl.alias_accepted (in_customAlias d) (urls w) = true ->
  (forall a, in_customAlias d = Some a -> Js.truthy a = true ->
     MongoUrlRepository.code_exists a (urls w) = false) ->
  urlParser w norm = true ->
  exists u, outcome (CreateShortUrl.execute fuel d w) = Returned u /\
            originalUrl u = Js.trim norm /\
            urls (world (CreateShortUrl.execute fuel d w))
              = (urls w ++ [u])%list.
Proof.
  intros Hs Hl Hf norm Hfind Hal Halias Hp.
  assert (Hex : exists u,
            outcome (CreateShortUrl.execute fuel d w) = Returned u).
  { unfold CreateShortUrl.execute, MongoUrlRepository.findByOriginalUrl.
    fold norm.
    assert (Hs0 : hd false (storeFaults w) = false) by now rewrite Hs.
    rewrite (bind_returned _ _ _ _ _ _ (query_answers _ _ w Hs0)).
    rewrite Hfind. cbn [outcome world events].
    set (w1 := set_storeFaults (tl (storeFaults w)) w).
    assert (Hs1 : storeFaults w1 = []) by (unfold w1; now rewrite Hs).
    destruct (choose_code_healthy fuel (in_customAlias d) w1 Hs1 Hl Hf Hal)
      as (code & Hc & Ht).
    pose proof (choose_code_free fuel (in_customAlias d) w1 code Hc) as Hfree.
    change (urls w1) with (urls w) in Hfree.
    set (rest1 := fun shortCode : string => _).
    destruct (bind_outcome_returned _ rest1 w1 code Hc) as (E1 & _).
    rewrite E1. unfold rest1. clear E1 rest1.
    set (w2 := world (CreateShortUrl.choose_code fuel (in_customAlias d) w1)).
    assert (Hp2 : urlParser w2 = urlParser w).
    { unfold w2. rewrite (keeps_choose_code urlParser);
        [reflexivity|field_frame..]. }
    assert (Hu2 : urls w2 = urls w).
    { unfold w2. rewrite (keeps_choose_code urls);
        [reflexivity|field_frame..]. }
    assert (Hs2 : storeFaults w2 = []).
    { apply store_strict_healthy;
        [apply store_strict_choose_code | exact Hs1]. }
    rewrite bind_read.
    set (doc := mkLink norm code (in_customAlias d) (in_userId d) (now w2)
                       (in_expiresAt d) true).
    assert (Hn : outcome (Url.new doc w2) = Returned doc).
    { rewrite Url_new_checked; [|apply normalize_truthy | exact Ht].
      cbn [originalUrl doc]. now rewrite Hp2, Hp. }
    match goal with
    | |- context [bind (Url.new doc) ?k] =>
        destruct (bind_outcome_returned _ k w2 doc Hn) as (E1 & _)
    end.
    rewrite E1. clear E1. rewrite Url_new_world.
    assert (Hcode : MongoUrlRepository.code_exists code (urls w) = false).
    { clear Hn. revert Hfree Halias. clear.
      destruct (in_customAlias d) as [a|]; intros Hfree Halias;
        [|exact Hfree].
      destruct (Js.truthy a) eqn:Hta; [|exact Hfree].
      subst code. now apply Halias. }
    assert (Hcr : outcome (MongoUrlRepository.create doc w2) =
                  Returned (MongoUrlRepository.cast doc)).
    { apply create_inserts; [exact Hs2| |cbn [shortCode doc];
                                          now rewrite Hu2].
      unfold MongoUrlRepository.required_paths.
      cbn [MongoUrlRepository.cast originalUrl shortCode doc].
      unfold norm. rewrite normalize_trim_truthy.
      now rewrite (choose_code_trim _ _ _ _ Hc), Ht. }
    match goal with
    | |- context [bind (MongoUrlRepository.create doc) ?k] =>
        destruct (bind_outcome_returned _ k w2 _ Hcr) as (E1 & _)
    end.
    rewrite E1. clear E1.
    match goal with
    | |- exists u, outcome (bind ?m ?k ?w') = _ =>
        destruct (bind_outcome_returned m k w' tt
                    (create_cacheUrl_returns _ _ _)) as (F1 & _);
        rewrite F1
    end.
    now exists (MongoUrlRepository.cast doc). }
  destruct Hex as [u Hu]. exists u. split; [exact Hu|].
  destruct (execute_created fuel d w u Hfind Hu) as (H1 & H2 & _).
  split; [exact H2 | exact H1].
Qed.

(** ** The aggregation behind the referrers view *)

Section ReferrerFacts.

Import MongoAnalyticsRepository.

Lemma count_of_insert_same (k : option string) (gs : list Group) :
  count_of k (group_insert k gs) = S (count_of k gs).
Proof.
  induction gs as [|[k' n] r IH]; simpl.
  - now rewrite decide_True.
  - destruct (decide (k = k')) as [->|Hne]; simpl.
    + now rewrite decide_True.
    + now rewrite decide_False.
Qed.

Lemma count_of_insert_other (k k0 : option string) (gs : list Group) :
  k <> k0 -> count_of k (group_insert k0 gs) = count_of k gs.
Proof.
  intros Hne. induction gs as [|[k' n] r IH]; simpl.
  - now rewrite decide_False.
  - destruct (decide (k0 = k')) as [->|Hne']; simpl.
    + now rewrite !decide_False.
    + destruct (decide (k = k')); [reflexivity | exact IH].
Qed.

Lemma in_keys_insert (x k : option string) (gs : list Group) :
  In x (map fst (group_insert k gs)) -> x = k \/ In x (map fst gs).
Proof.
  induction gs as [|[k' n] r IH]; simpl.
  - intros [H|[]]. now left.
  - destruct (decide (k = k')) as [->|Hne]; simpl.
    + intros [H|H]; right; [now left | now right].
    + intros [H|H]; [right; now left|].
      destruct (IH H) as [H'|H']; [now left | right; now right].
Qed.

Lemma NoDup_keys_insert (k : option string) (gs : list Group) :
  List.NoDup (map fst gs) -> List.NoDup (map fst (group_insert k gs)).
Proof.
  induction gs as [|[k' n] r IH]; simpl; intros H.
  - constructor; [intros [] | constructor].
  - inversion H as [|? ? Hnot Hnd]; subst.
    destruct (decide (k = k')) as [->|Hne]; simpl.
    + now constructor.
    + constructor; [|now apply IH].
      intros Hin. apply in_keys_insert in Hin as [Hin|Hin]; congruence.
Qed.

Lemma positive_insert (k : option string) (gs : list Group) :
  List.Forall (fun g => 0 < snd g) gs ->
  List.Forall (fun g => 0 < snd g) (group_insert k gs).
Proof.
  induction gs as [|[k' n] r IH]; simpl; intros H.
  - repeat constructor.
  - inversion H; subst.
    destruct (decide (k = k')); constructor; simpl in *; auto; lia.
Qed.

Lemma count_of_In (k : option string) (n : nat) (gs : list Group) :
  List.NoDup (map fst gs) -> In (k, n) gs -> count_of k gs = n.
Proof.
  induction gs as [|[k' n'] r IH]; simpl; intros Hnd Hin; [contradiction|].
  inversion Hnd as [|? ? Hnot Hnd']; subst.
  destruct Hin as [[= -> ->]|Hin].
  - now rewrite decide_True.
  - destruct (decide (k = k')) as [->|Hne]; [|now apply IH].
    exfalso. apply Hnot. now apply (in_map fst) in Hin.
Qed.

Lemma In_of_count_of (k : option string) (n : nat) (gs : list Group) :
  count_of k gs = n -> 0 < n -> In (k, n) gs.
Proof.
  induction gs as [|[k' n'] r IH]; simpl; intros Hc Hn; [lia|].
  destruct (decide (k = k')) as [->|Hne]; [left; congruence|].
  right. now apply IH.
Qed.

Lemma count_key_cons (k : option string) (e : ClickEvent)
  (evs : list ClickEvent) :
  count_key k (e :: evs) =
  (if decide (ev_referrer e = k) then 1 else 0) + count_key k evs.
Proof.
  unfold count_key. simpl.
  destruct (decide (ev_referrer e = k)) as [H|H].
  - now rewrite bool_decide_true.
  - now rewrite bool_decide_false.
Qed.

(** The grouping stage: distinct keys, positive counts, and for each key
    the number of documents with that referrer. *)
Lemma group_fold_spec (evs : list ClickEvent) (gs : list Group) :
  List.NoDup (map fst gs) -> List.Forall (fun g => 0 < snd g) gs ->
  let out := fold_left (fun gs e => group_insert (ev_referrer e) gs) evs gs in
  List.NoDup (map fst out) /\
  List.Forall (fun g => 0 < snd g) out /\
  forall k, count_of k out = count_of k gs + count_key k evs.
Proof.
  revert gs. induction evs as [|e evs IH]; intros gs Hnd Hpos; simpl.
  - repeat split; try assumption. intros k. unfold count_key. simpl. lia.
  - destruct (IH (group_insert (ev_referrer e) gs)
                (NoDup_keys_insert _ _ Hnd) (positive_insert _ _ Hpos))
      as (H1 & H2 & H3).
    repeat split; try assumption.
    intros k. rewrite H3, count_key_cons.
    destruct (decide (ev_referrer e = k)) as [<-|Hne].
    + rewrite count_of_insert_same. lia.
    + rewrite count_of_insert_other by congruence. lia.
Qed.

Lemma group_stage_spec (evs : list ClickEvent) :
  List.NoDup (map fst (group_stage evs)) /\
  forall k n, In (k, n) (group_stage evs) <-> 0 < n /\ n = count_key k evs.
Proof.
  destruct (group_fold_spec evs [] (List.NoDup_nil _) (List.Forall_nil _))
    as (H1 & H2 & H3).
  cbv zeta in H1, H2, H3. fold (group_stage evs) in H1, H2, H3.
  split; [exact H1|]. intros k n. split.
  - intros Hin. split.
    + rewrite List.Forall_forall in H2. exact (H2 _ Hin).
    + rewrite <- (count_of_In k n _ H1 Hin), H3. reflexivity.
  - intros [Hn ->]. apply In_of_count_of; [|exact Hn].
    rewrite H3. reflexivity.
Qed.

(** The sorting stage. *)
Lemma insert_desc_perm (r : ReferrerRow) (l : list ReferrerRow) :
  Permutation (insert_desc r l) (r :: l).
Proof.
  induction l as [|x t IH]; simpl; [reflexivity|].
  destruct (snd x <=? snd r)%nat; [reflexivity|].
  rewrite IH. apply perm_swap.
Qed.

Lemma sort_stage_perm (l : list ReferrerRow) : Permutation (sort_stage l) l.
Proof.
  unfold sort_stage. induction l as [|x t IH]; simpl; [reflexivity|].
  rewrite insert_desc_perm. now constructor.
Qed.

Lemma insert_desc_sorted (r : ReferrerRow) (l : list ReferrerRow) :
  descending l -> descending (insert_desc r l).
Proof.
  unfold descending. induction l as [|x t IH]; simpl; intros H.
  - repeat constructor.
  - destruct (snd x <=? snd r)%nat eqn:E.
    + apply Nat.leb_le in E. constructor; [exact H|]. now constructor.
    + apply Nat.leb_gt in E. inversion H as [|? ? Hs Hh]; subst.
      constructor; [now apply IH|].
      destruct t as [|y t']; simpl.
      * constructor. lia.
      * destruct (snd y <=? snd r)%nat; constructor;
          [lia | now inversion Hh].
Qed.

Lemma sort_stage_sorted (l : list ReferrerRow) : descending (sort_stage l).
Proof.
  unfold sort_stage. induction l as [|x t IH]; simpl.
  - constructor.
  - now apply insert_desc_sorted.
Qed.

Lemma descending_relabel (l : list ReferrerRow) :
  descending l -> descending (map relabel l).
Proof.
  unfold descending. induction 1 as [|x t Hs IH Hh]; simpl; constructor.
  - exact IH.
  - destruct Hh; simpl; constructor. exact H.
Qed.

(** X13: whatever the clicks, the rows of the referrers view come in
    descending order of count. *)
Lemma referrer_rows_descending (code : string) (evs : list ClickEvent) :
  descending (map relabel (aggregate code evs)).
Proof. apply descending_relabel, sort_stage_sorted. Qed.

End ReferrerFacts.

Section ReferrerRows.

Import MongoAnalyticsRepository.

Lemma sentinel_or_inj (k1 k2 : option string) :
  plain_key k1 -> plain_key k2 -> sentinel_or k1 = sentinel_or k2 -> k1 = k2.
Proof.
  intros [_ H1] [_ H2]. destruct k1 as [s1|], k2 as [s2|]; simpl; intros E;
    subst; congruence.
Qed.

Lemma relabel_plain (k : option string) (n : nat) :
  plain_key k -> relabel (sentinel_or k, n) = (sentinel_or k, n).
Proof.
  intros [H _]. unfold relabel. simpl.
  destruct k as [s|]; simpl; [|reflexivity].
  destruct s; [congruence | reflexivity].
Qed.

Lemma referrer_label_plain (e : ClickEvent) :
  plain_key (ev_referrer e) -> referrer_label e = sentinel_or (ev_referrer e).
Proof.
  intros [H _]. unfold referrer_label. destruct (ev_referrer e) as [s|];
    simpl; [|reflexivity].
  destruct s; [congruence | reflexivity].
Qed.

Lemma filter_length_pos {A} (p : A -> bool) (l : list A) :
  0 < length (List.filter p l) -> exists x, In x l /\ p x = true.
Proof.
  induction l as [|x l IH]; simpl; [lia|].
  destruct (p x) eqn:E; [eauto|].
  intros H. destruct (IH H) as (y & Hy & Hp). eauto.
Qed.

Lemma NoDup_map_on {A B} (f : A -> B) (l : list A) :
  (forall x y, In x l -> In y l -> f x = f y -> x = y) ->
  List.NoDup l -> List.NoDup (map f l).
Proof.
  intros Hinj. induction 1 as [|x l Hx Hnd IH]; simpl; constructor.
  - intros Hin. apply in_map_iff in Hin as (y & Hy & Hin).
    apply Hx. rewrite (Hinj x y); auto; [now left | now right].
  - apply IH. intros a b Ha Hb. apply Hinj; now right.
Qed.

(** X14: when no click on the code has the empty string (or the sentinel
    itself) as referrer, the rows are one row per label, with the number
    of clicks counted under it: clicks without referrer under
    [Direct/None], the others under their referrer; no label comes
    twice and no row has count 0. *)
Lemma referrer_rows_exact (code : string) (evs : list ClickEvent) :
  plain_referrers code evs ->
  let rows := map relabel (aggregate code evs) in
  List.NoDup (map fst rows) /\
  forall label n,
    In (label, n) rows <->
    0 < n /\ n = clicks_with_label code label evs.
Proof.
  intros Hplain rows. unfold plain_referrers in Hplain.
  set (E := match_stage code evs) in *.
  destruct (group_stage_spec E) as (Hnd & Hraw).
  set (raw := group_stage E) in *.
  assert (Hplain' : forall e, In e E -> plain_key (ev_referrer e))
    by exact Hplain.
  assert (Hcount : forall k, plain_key k ->
            count_key k E =
            length (List.filter
                      (fun e => String.eqb (referrer_label e) (sentinel_or k))
                      E)).
  { intros k Hk. unfold count_key. f_equal. apply filter_ext_in.
    intros e He. rewrite (referrer_label_plain e (Hplain' e He)).
    destruct (decide (ev_referrer e = k)) as [->|Hne].
    - now rewrite bool_decide_true, String.eqb_refl.
    - rewrite bool_decide_false by exact Hne. symmetry.
      apply String.eqb_neq. intros Heq. apply Hne.
      now apply sentinel_or_inj; [apply Hplain'| |]. }
  assert (Hkeys : forall k n, In (k, n) raw -> plain_key k).
  { intros k n Hin. apply Hraw in Hin as [Hn ->].
    apply filter_length_pos in Hn as (e & He & Hk).
    apply bool_decide_eq_true in Hk. subst k. now apply Hplain'. }
  set (rows1 := project_stage raw).
  assert (Hrows1 : forall r, In r rows1 <->
            exists k, In (k, snd r) raw /\ fst r = sentinel_or k).
  { intros [l n]. unfold rows1, project_stage. rewrite in_map_iff. split.
    - intros ([k m] & [= <- <-] & Hin). exists k. now split.
    - intros (k & Hin & Hl). simpl in *. subst l. exists (k, n). now split. }
  assert (Hperm : Permutation (sort_stage rows1) rows1)
    by apply sort_stage_perm.
  assert (Hid : map relabel (sort_stage rows1) = sort_stage rows1).
  { rewrite <- (map_id (sort_stage rows1)) at 2. apply map_ext_in.
    intros [l n] Hin. apply (Permutation_in _ Hperm) in Hin.
    apply Hrows1 in Hin as (k & Hin & Hl). simpl in Hl. subst l.
    apply relabel_plain. exact (Hkeys _ _ Hin). }
  assert (Hrows : rows = sort_stage rows1) by exact Hid.
  rewrite Hrows. split.
  - apply (Permutation_NoDup (l := map fst rows1));
      [symmetry; now apply Permutation_map|].
    unfold rows1, project_stage. rewrite map_map. simpl.
    rewrite <- (map_map fst sentinel_or).
    apply NoDup_map_on; [|exact Hnd].
    intros k1 k2 H1 H2. apply in_map_iff in H1 as ([? n1] & <- & H1).
    apply in_map_iff in H2 as ([? n2] & <- & H2). simpl.
    apply sentinel_or_inj; eauto.
  - intros label n. split.
    + intros Hin. apply (Permutation_in _ Hperm) in Hin.
      apply Hrows1 in Hin as (k & Hin & Hl). simpl in Hin, Hl. subst label.
      pose proof (Hkeys _ _ Hin) as Hk.
      apply Hraw in Hin as [Hn ->]. split; [exact Hn|].
      unfold clicks_with_label. fold E. now apply Hcount.
    + intros [Hn ->]. apply (Permutation_in _ (Permutation_sym Hperm)).
      apply Hrows1. simpl.
      unfold clicks_with_label in Hn |- *. fold E in Hn |- *.
      destruct (filter_length_pos _ _ Hn) as (e & He & Hl).
      apply String.eqb_eq in Hl.
      pose proof (Hplain' e He) as Hk.
      rewrite (referrer_label_plain e Hk) in Hl. subst label.
      exists (ev_referrer e). split; [|reflexivity].
      apply Hraw. rewrite (Hcount _ Hk). split; [exact Hn | reflexivity].
Qed.

End ReferrerRows.

(** ** Referrer statistics *)

(** X15: for a code that has a link, with a store that answers and
    nothing cached for the view, the view answers with the rows
    aggregated from the clicks recorded at that moment. *)
Lemma execute_referrers_on_miss (code : string) (w : World) :
  Js.truthy code = true -> storeFaults w = [] ->
  MongoUrlRepository.code_exists code (urls w) = true ->
  outcome (GetUrlAnalytics._getFromCache
             (GetUrlAnalytics._createCacheKey code "referrers"
                GetUrlAnalytics.default_options_json) w) = Returned None ->
  outcome (GetUrlAnalytics.execute_referrers code w) =
    Returned (map MongoAnalyticsRepository.relabel
                (MongoAnalyticsRepository.aggregate code (clicks w))).
Proof.
  intros Ht Hs Hex Hmiss. unfold GetUrlAnalytics.execute_referrers.
  rewrite Ht. cbn [negb].
  assert (Hs0 : hd false (storeFaults w) = false) by now rewrite Hs.
  unfold MongoUrlRepository.shortCodeExists.
  rewrite (bind_returned _ _ _ _ _ _ (query_answers _ _ w Hs0)).
  rewrite Hex. cbn [negb outcome world events].
  set (w1 := set_storeFaults (tl (storeFaults w)) w).
  set (key := GetUrlAnalytics._createCacheKey code "referrers"
                GetUrlAnalytics.default_options_json) in *.
  assert (Hmiss1 : outcome (GetUrlAnalytics._getFromCache key w1)
                   = Returned None).
  { revert Hmiss. unfold GetUrlAnalytics._getFromCache, try_catch,
      Cache.get_rows, Cache.next_fault.
    change (cacheFaults w1) with (cacheFaults w).
    destruct (cacheFaults w) as [|[] fs]; cbn; auto. }
  match goal with
  | |- context [bind (GetUrlAnalytics._getFromCache key) ?k] =>
      destruct (bind_outcome_returned _ k w1 None Hmiss1) as (E1 & _)
  end.
  rewrite E1. clear E1.
  set (w2 := world (GetUrlAnalytics._getFromCache key w1)).
  assert (Hs2 : storeFaults w2 = []).
  { unfold w2, GetUrlAnalytics._getFromCache, try_catch, Cache.get_rows,
      Cache.next_fault. change (cacheFaults w1) with (cacheFaults w).
    destruct (cacheFaults w) as [|[] fs]; cbn; now rewrite Hs. }
  assert (Hc2 : clicks w2 = clicks w).
  { unfold w2, GetUrlAnalytics._getFromCache, try_catch, Cache.get_rows,
      Cache.next_fault. change (cacheFaults w1) with (cacheFaults w).
    destruct (cacheFaults w) as [|[] fs]; reflexivity. }
  unfold bind, MongoAnalyticsRepository.getReferrerStats,
    MongoUrlRepository.next_fault.
  rewrite Hs2, Hc2. cbn [outcome world events].
  unfold GetUrlAnalytics._cacheData, try_catch, bind, Cache.set_rows,
    Cache.next_fault.
  cbn [cacheFaults].
  destruct (cacheFaults w2) as [|[] fs]; reflexivity.
Qed.

(** C10 at a failing input: clicks without referrer and clicks whose
    referrer is the empty string are counted in two groups, and both rows
    come out under the same label, where one row with both clicks is
    due. *)
Theorem referrers_view_repeats_the_direct_row :
  let w := set_clicks Examples.four_clicks
             (set_urls [Examples.plain_link] (Examples.fresh 1000)) in
  clicks_with_label "docs123" "Direct/None" (clicks w) = 2 /\
  outcome (GetUrlAnalytics.execute_referrers "docs123" w) =
    Returned [("https://news.example/", 2); ("Direct/None", 1);
              ("Direct/None", 1)] /\
  outcome (GetUrlAnalytics.execute_referrers "docs123" w) <>
    Returned [("https://news.example/", 2); ("Direct/None", 2)].
Proof.
  cbv zeta. split; [reflexivity|].
  split; [vm_compute; reflexivity|]. vm_compute. discriminate.
Qed.

(** ** Creation, resolution and the referrers view: further properties *)

Lemma generate_loop_fresh (fuel attempts : nat) (w : World) (c : string) :
  outcome (CreateShortUrl.generate_loop fuel attempts w) = Returned c ->
  MongoUrlRepository.code_exists c (urls w) = false /\
  urlLength w <= String.length c <=
    urlLength (world (CreateShortUrl.generate_loop fuel attempts w)).
Proof.
  revert attempts w. induction fuel as [|fuel IH]; intros attempts w;
    [discriminate|].
  pose proof (generate_loop_unfold fuel attempts w) as U. cbv zeta in U.
  rewrite U. clear U.
  set (code := nanoid_value w 0 (urlLength w)).
  set (w1 := set_draws (S (draws w)) w).
  destruct (shortCodeExists_cases code w1) as (Ho & Hw).
  cbv zeta in Ho, Hw. rewrite Hw.
  change (storeFaults w1) with (storeFaults w) in *.
  change (urls w1) with (urls w) in Ho.
  destruct (hd false (storeFaults w)); rewrite Ho; [discriminate|].
  destruct (MongoUrlRepository.code_exists code (urls w)) eqn:Hex.
  - cbn [outcome world]. intros H.
    match type of H with
    | outcome (CreateShortUrl.generate_loop fuel ?a ?w2) = _ =>
        destruct (IH a w2 H) as (I1 & I2 & I3);
        assert (Hle : urlLength w <= urlLength w2)
          by (destruct (_ <=? _)%nat; simpl; lia);
        assert (Hu : urls w2 = urls w)
          by (destruct (_ <=? _)%nat; reflexivity)
    end.
    rewrite Hu in I1. split; [exact I1|]. split; [lia | exact I3].
  - cbn [outcome world]. intros [= <-]. split; [exact Hex|].
    unfold code. rewrite nanoid_value_length.
    split; [lia|]. destruct (_ <=? _)%nat; simpl; lia.
Qed.

(** X1: a code that [_generateUniqueShortCode] returns is held by no link
    of the collection, and it is at least as long as the code length
    configured when the call starts and at most as long as the one the
    call leaves behind; the call never changes the collection; with a
    store that answers and enough fuel it does return a code. *)
Theorem generator_returns_unused_code (fuel : nat) (w : World) :
  let r := CreateShortUrl._generateUniqueShortCode fuel w in
  (forall c, outcome r = Returned c ->
     MongoUrlRepository.code_exists c (urls w) = false /\
     urlLength w <= String.length c <= urlLength (world r)) /\
  urls (world r) = urls w /\
  (storeFaults w = [] -> CreateShortUrl.enough_fuel w <= fuel ->
   exists c, outcome r = Returned c).
Proof.
  intros r. subst r. unfold CreateShortUrl._generateUniqueShortCode.
  split; [|split].
  - intros c. apply generate_loop_fresh.
  - apply (keeps_generate_loop urls); field_frame.
  - intros Hs Hf.
    destruct (generate_loop_terminates fuel 0 w) as (_ & H & _);
      [lia | unfold CreateShortUrl.enough_fuel in Hf; lia |].
    exact (H Hs).
Qed.

(** The first five codes of length 7 are taken: a code is returned, it is
    unused and has at least seven characters. *)
Lemma generator_returns_unused_code_witness :
  let w := set_urls Examples.five_taken (Examples.fresh 1000) in
  exists c,
    outcome (CreateShortUrl._generateUniqueShortCode 41 w) = Returned c /\
    MongoUrlRepository.code_exists c (urls w) = false /\
    7 <= String.length c.
Proof.
  intros w.
  destruct (generator_returns_unused_code 41 w) as (H1 & _ & H3).
  destruct (H3 eq_refl) as [c Hc]; [vm_compute; lia|].
  exists c. split; [exact Hc|].
  destruct (H1 c Hc) as (Hfree & Hlen & _).
  split; [exact Hfree | exact Hlen].
Defined.

(** What runs once the URL is known to be new. *)
Lemma execute_new_url (fuel : nat) (d : UrlData) (w : World) :
  hd false (storeFaults w) = false ->
  MongoUrlRepository.find_by_original_url
    (_normalizeUrl (in_originalUrl d)) (urls w) = None ->
  exists k : string -> M Link,
    (forall e, e <> StoreError StoreUnavailable ->
       e <> StoreError DuplicateKey -> e <> StoreError ValidationFailed ->
       e <> OriginalUrlRequired ->
       e <> ShortCodeRequired -> e <> InvalidUrlFormat ->
       forall c, never_throws e (k c)) /\
    let r1 := bind (CreateShortUrl.choose_code fuel (in_customAlias d)) k
                (set_storeFaults (tl (storeFaults w)) w) in
    CreateShortUrl.execute fuel d w =
      mkRun (outcome r1) (world r1)
        (EvFindByOriginalUrl (_normalizeUrl (in_originalUrl d)) :: events r1).
Proof.
  intros Hs Hf. eexists. split; cycle 1.
  - cbv zeta. unfold CreateShortUrl.execute,
      MongoUrlRepository.findByOriginalUrl.
    rewrite (bind_returned _ _ _ _ _ _ (query_answers _ _ w Hs)).
    rewrite Hf. cbn [outcome world events app]. reflexivity.
  - intros e H1 H2 H2' H3 H4 H5 c. cbv beta.
    apply never_throws_bind; [apply never_throws_read|intros t].
    apply never_throws_bind; [now apply never_throws_Url_new|intros url].
    apply never_throws_bind; [now apply never_throws_create|intros cr].
    apply never_throws_bind; [apply never_throws_create_cacheUrl|intros _].
    apply never_throws_ret.
Qed.

Lemma bind_thrown_inv {A B} (m : M A) (k : A -> M B) (w : World) (e : Error) :
  (forall a, never_throws e (k a)) ->
  outcome (bind m k w) = Thrown e ->
  outcome (m w) = Thrown e /\
  world (bind m k w) = world (m w) /\ events (bind m k w) = events (m w).
Proof.
  intros Hk. unfold bind. destruct (outcome (m w)) as [a|e'|] eqn:E;
    cbn [outcome world events]; intros H.
  - exfalso. exact (Hk a _ H).
  - split; [congruence | split; reflexivity].
  - discriminate.
Qed.

(** X2: with a store that answers the first lookup, creation ends with the
    invalid-alias error exactly when the store finds no link for the
    normalized URL (compared once white space is trimmed from its ends)
    and the request carries a non-empty alias that [_isValidCustomAlias]
    refuses; the lookup by URL is then the only call made and nothing is
    written. *)
Theorem create_throws_invalid_alias_iff (fuel : nat) (d : UrlData)
  (w : World) :
  hd false (storeFaults w) = false ->
  let norm := _normalizeUrl (in_originalUrl d) in
  let r := CreateShortUrl.execute fuel d w in
  (outcome r = Thrown InvalidAliasFormat <->
   MongoUrlRepository.find_by_original_url norm (urls w) = None /\
   exists a, in_customAlias d = Some a /\ Js.truthy a = true /\
             CreateShortUrl._isValidCustomAlias a = false) /\
  (outcome r = Thrown InvalidAliasFormat ->
   events r = [EvFindByOriginalUrl norm] /\
   world r = set_storeFaults (tl (storeFaults w)) w).
Proof.
  intros Hs norm r.
  destruct (MongoUrlRepository.find_by_original_url norm (urls w))
    as [u|] eqn:Hf.
  { unfold r. rewrite (execute_existing fuel d w u Hs Hf).
    cbn [outcome]. split; [split|]; try discriminate.
    intros (H & _). discriminate. }
  destruct (execute_new_url fuel d w Hs Hf) as (k & Hk & E).
  cbv zeta in E. fold norm in E.
  set (w1 := set_storeFaults (tl (storeFaults w)) w) in *.
  assert (Hk' : forall c, never_throws InvalidAliasFormat (k c))
    by (intros c; apply Hk; discriminate).
  assert (Hcode : outcome r = Thrown InvalidAliasFormat ->
            outcome (CreateShortUrl.choose_code fuel (in_customAlias d) w1)
              = Thrown InvalidAliasFormat /\
            world r = world (CreateShortUrl.choose_code fuel
                               (in_customAlias d) w1) /\
            events r = EvFindByOriginalUrl norm ::
              events (CreateShortUrl.choose_code fuel (in_customAlias d) w1)).
  { unfold r. rewrite E. cbn [outcome world events]. intros H.
    destruct (bind_thrown_inv _ _ _ _ Hk' H) as (H1 & H2 & H3).
    rewrite H2, H3. now repeat split. }
  assert (Hgen : forall w', outcome (CreateShortUrl._generateUniqueShortCode
                                        fuel w') <> Thrown InvalidAliasFormat).
  { intros w'. apply never_throws_generate_loop. discriminate. }
  unfold CreateShortUrl.choose_code in Hcode.
  destruct (in_customAlias d) as [a|] eqn:Ea.
  2:{ split; [split|].
      - intros H. destruct (Hcode H) as (H1 & _). now apply Hgen in H1.
      - intros (_ & a & Ha & _). discriminate.
      - intros H. destruct (Hcode H) as (H1 & _). now apply Hgen in H1. }
  destruct (Js.truthy a) eqn:Ht.
  2:{ split; [split|].
      - intros H. destruct (Hcode H) as (H1 & _). now apply Hgen in H1.
      - intros (_ & a' & [= <-] & Ht' & _). congruence.
      - intros H. destruct (Hcode H) as (H1 & _). now apply Hgen in H1. }
  destruct (CreateShortUrl._isValidCustomAlias a) eqn:Hv; cbn [negb] in Hcode.
  - assert (Hno : outcome r <> Thrown InvalidAliasFormat).
    { intros H. destruct (Hcode H) as (H1 & _). revert H1.
      apply never_throws_bind;
        [apply never_throws_query; discriminate|intros ex].
      destruct ex; [apply never_throws_throw; discriminate
                   |apply never_throws_ret]. }
    split; [split|]; try (intros H; now apply Hno in H).
    intros (_ & a' & [= <-] & _ & Hv'). congruence.
  - assert (Hyes : outcome r = Thrown InvalidAliasFormat).
    { unfold r. rewrite E. cbn [outcome].
      unfold bind, CreateShortUrl.choose_code. rewrite Ht, Hv.
      reflexivity. }
    split; [split|].
    + intros _. split; [reflexivity|]. exists a. now repeat split.
    + intros _. exact Hyes.
    + intros H. destruct (Hcode H) as (_ & H2 & H3).
      rewrite H2, H3. split; reflexivity.
Qed.

(** An alias with a space in it is refused, and nothing is persisted. *)
Lemma create_throws_invalid_alias_iff_witness :
  let d := mkUrlData "example.com/a" (Some "my alias") None None in
  outcome (CreateShortUrl.execute 10 d (Examples.fresh 1000))
    = Thrown InvalidAliasFormat /\
  urls (world (CreateShortUrl.execute 10 d (Examples.fresh 1000))) = [].
Proof.
  intros d.
  destruct (create_throws_invalid_alias_iff 10 d (Examples.fresh 1000)
              eq_refl) as (H1 & H2).
  assert (H : outcome (CreateShortUrl.execute 10 d (Examples.fresh 1000))
              = Thrown InvalidAliasFormat).
  { apply H1. split; [reflexivity|]. exists "my alias".
    repeat split; reflexivity. }
  split; [exact H|]. destruct (H2 H) as (_ & Hw). rewrite Hw. reflexivity.
Defined.

Lemma alias_step_run (fuel : nat) (a : string) (w : World) :
  hd false (storeFaults w) = false -> Js.truthy a = true ->
  CreateShortUrl._isValidCustomAlias a = true ->
  CreateShortUrl.choose_code fuel (Some a) w =
    mkRun (if MongoUrlRepository.alias_exists a (urls w)
           then Thrown AliasInUse else Returned a)
          (set_storeFaults (tl (storeFaults w)) w)
          [EvCustomAliasExists a].
Proof.
  intros Hs Ht Hv. unfold CreateShortUrl.choose_code. rewrite Ht, Hv.
  cbn [negb]. unfold MongoUrlRepository.customAliasExists.
  rewrite (bind_returned _ _ _ _ _ _ (query_answers _ _ w Hs)).
  destruct (MongoUrlRepository.alias_exists a (urls w)); reflexivity.
Qed.

(** X3: with a store that answers its first two calls, creation ends with
    the alias-in-use error exactly when the store finds no link for the
    normalized URL (compared once white space is trimmed from its ends)
    and the request carries a non-empty, well-formed alias that some
    link already has as its [customAlias]; the store has then been asked
    twice, for the URL and for the alias, and nothing is written. *)
Theorem create_throws_alias_in_use_iff (fuel : nat) (d : UrlData)
  (w : World) :
  hd false (storeFaults w) = false ->
  hd false (tl (storeFaults w)) = false ->
  let norm := _normalizeUrl (in_originalUrl d) in
  let r := CreateShortUrl.execute fuel d w in
  (outcome r = Thrown AliasInUse <->
   MongoUrlRepository.find_by_original_url norm (urls w) = None /\
   exists a, in_customAlias d = Some a /\ Js.truthy a = true /\
             CreateShortUrl._isValidCustomAlias a = true /\
             MongoUrlRepository.alias_exists a (urls w) = true) /\
  (outcome r = Thrown AliasInUse ->
   exists a, in_customAlias d = Some a /\
     events r = [EvFindByOriginalUrl norm; EvCustomAliasExists a] /\
     world r = set_storeFaults (tl (tl (storeFaults w))) w).
Proof.
  intros Hs Hs2 norm r.
  destruct (MongoUrlRepository.find_by_original_url norm (urls w))
    as [u|] eqn:Hf.
  { unfold r. rewrite (execute_existing fuel d w u Hs Hf).
    cbn [outcome]. split; [split|]; try discriminate.
    intros (H & _). discriminate. }
  destruct (execute_new_url fuel d w Hs Hf) as (k & Hk & E).
  cbv zeta in E. fold norm in E.
  set (w1 := set_storeFaults (tl (storeFaults w)) w) in *.
  assert (Hk' : forall c, never_throws AliasInUse (k c))
    by (intros c; apply Hk; discriminate).
  assert (Hcode : outcome r = Thrown AliasInUse ->
            outcome (CreateShortUrl.choose_code fuel (in_customAlias d) w1)
              = Thrown AliasInUse /\
            world r = world (CreateShortUrl.choose_code fuel
                               (in_customAlias d) w1) /\
            events r = EvFindByOriginalUrl norm ::
              events (CreateShortUrl.choose_code fuel (in_customAlias d) w1)).
  { unfold r. rewrite E. cbn [outcome world events]. intros H.
    destruct (bind_thrown_inv _ _ _ _ Hk' H) as (H1 & H2 & H3).
    rewrite H2, H3. now repeat split. }
  assert (Hgen : forall w', outcome (CreateShortUrl._generateUniqueShortCode
                                        fuel w') <> Thrown AliasInUse).
  { intros w'. apply never_throws_generate_loop. discriminate. }
  destruct (in_customAlias d) as [a|] eqn:Ea.
  2:{ split; [split|].
      - intros H. destruct (Hcode H) as (H1 & _). now apply Hgen in H1.
      - intros (_ & a & Ha & _). discriminate.
      - intros H. destruct (Hcode H) as (H1 & _). now apply Hgen in H1. }
  destruct (Js.truthy a) eqn:Ht.
  2:{ unfold CreateShortUrl.choose_code in Hcode. rewrite Ht in Hcode.
      split; [split|].
      - intros H. destruct (Hcode H) as (H1 & _). now apply Hgen in H1.
      - intros (_ & a' & [= <-] & Ht' & _). congruence.
      - intros H. destruct (Hcode H) as (H1 & _). now apply Hgen in H1. }
  destruct (CreateShortUrl._isValidCustomAlias a) eqn:Hv.
  2:{ unfold CreateShortUrl.choose_code in Hcode. rewrite Ht, Hv in Hcode.
      cbn [negb] in Hcode. split; [split|].
      - intros H. destruct (Hcode H) as (H1 & _). discriminate.
      - intros (_ & a' & [= <-] & _ & Hv' & _). congruence.
      - intros H. destruct (Hcode H) as (H1 & _). discriminate. }
  assert (Hs1 : hd false (storeFaults w1) = false) by exact Hs2.
  fold (CreateShortUrl.choose_code fuel (Some a)) in Hcode.
  pose proof (alias_step_run fuel a w1 Hs1 Ht Hv) as Hstep.
  change (urls w1) with (urls w) in Hstep.
  change (set_storeFaults (tl (storeFaults w1)) w1)
    with (set_storeFaults (tl (tl (storeFaults w))) w) in Hstep.
  rewrite Hstep in Hcode. cbn [outcome world events] in Hcode.
  destruct (MongoUrlRepository.alias_exists a (urls w)) eqn:Hex.
  - assert (Hyes : outcome r = Thrown AliasInUse).
    { unfold r. rewrite E. cbn [outcome].
      unfold bind at 1. rewrite Hstep. reflexivity. }
    split; [split|].
    + intros _. split; [reflexivity|]. exists a. now repeat split.
    + intros _. exact Hyes.
    + intros H. destruct (Hcode H) as (_ & H2 & H3).
      exists a. rewrite H2, H3. now repeat split.
  - split; [split|].
    + intros H. destruct (Hcode H) as (H1 & _). discriminate.
    + intros (_ & a' & [= <-] & _ & _ & Hex'). congruence.
    + intros H. destruct (Hcode H) as (H1 & _). discriminate.
Qed.

(** An alias another link already has: the store is asked twice and the
    request is refused. *)
Lemma create_throws_alias_in_use_iff_witness :
  let taken := mkLink "https://example.com/docs" "docs" (Some "docs") None 0
                      None true in
  let d := mkUrlData "example.com/other" (Some "docs") None None in
  let w := set_urls [taken] (Examples.fresh 1000) in
  outcome (CreateShortUrl.execute 10 d w) = Thrown AliasInUse /\
  events (CreateShortUrl.execute 10 d w) =
    [EvFindByOriginalUrl "https://example.com/other";
     EvCustomAliasExists "docs"].
Proof.
  intros taken d w.
  destruct (create_throws_alias_in_use_iff 10 d w eq_refl eq_refl)
    as (H1 & H2).
  assert (H : outcome (CreateShortUrl.execute 10 d w) = Thrown AliasInUse).
  { apply H1. split; [reflexivity|]. exists "docs".
    repeat split; reflexivity. }
  split; [exact H|]. destruct (H2 H) as (a & Ha & He & _).
  injection Ha as <-. exact He.
Defined.

Lemma create_keeps_urls_unless_returned (doc : Link) (w : World) :
  (exists u, outcome (MongoUrlRepository.create doc w) = Returned u) \/
  urls (world (MongoUrlRepository.create doc w)) = urls w.
Proof.
  unfold MongoUrlRepository.create, MongoUrlRepository.next_fault.
  destruct (negb _); [now right|].
  destruct (storeFaults w) as [|[] fs];
    try match goal with
    | |- context [MongoUrlRepository.has_code ?c ?l] =>
        destruct (MongoUrlRepository.has_code c l)
    end;
    cbn [outcome world]; eauto.
Qed.

Lemma execute_keeps_urls_unless_returned (fuel : nat) (d : UrlData)
  (w : World) :
  (exists u, outcome (CreateShortUrl.execute fuel d w) = Returned u) \/
  urls (world (CreateShortUrl.execute fuel d w)) = urls w.
Proof.
  unfold CreateShortUrl.execute.
  rewrite bind_world, bind_outcome.
  pose proof (keeps_query urls ltac:(field_frame)
                (EvFindByOriginalUrl (_normalizeUrl (in_originalUrl d)))
                (MongoUrlRepository.find_by_original_url
                   (_normalizeUrl (in_originalUrl d))) w) as K0.
  fold (MongoUrlRepository.findByOriginalUrl
          (_normalizeUrl (in_originalUrl d))) in K0.
  set (r0 := MongoUrlRepository.findByOriginalUrl
               (_normalizeUrl (in_originalUrl d)) w) in *.
  destruct (outcome r0) as [[u|]| |]; [left; eexists; reflexivity| |now right..].
  rewrite bind_world, bind_outcome.
  pose proof (keeps_choose_code urls ltac:(field_frame) ltac:(field_frame)
                ltac:(field_frame) fuel (in_customAlias d) (world r0)) as K1.
  set (r1 := CreateShortUrl.choose_code fuel (in_customAlias d) (world r0))
    in *.
  destruct (outcome r1) as [c| |]; [|right; congruence..].
  rewrite bind_read.
  rewrite bind_world, bind_outcome.
  match goal with
  | |- context [Url.new ?doc (world r1)] =>
      pose proof (keeps_Url_new urls doc (world r1)) as K2;
      set (r2 := Url.new doc (world r1)) in *
  end.
  destruct (outcome r2) as [url| |]; [|right; congruence..].
  rewrite bind_world, bind_outcome.
  destruct (create_keeps_urls_unless_returned url (world r2)) as [[cr Hc]|Hc].
  - rewrite Hc. left. rewrite bind_outcome, create_cacheUrl_returns.
    eexists. reflexivity.
  - destruct (outcome (MongoUrlRepository.create url (world r2)))
      as [cr| |] eqn:Ecr; [|right; congruence..].
    left. rewrite bind_outcome, create_cacheUrl_returns.
    eexists. reflexivity.
Qed.

Lemma Url_new_returned (u v : Link) (w : World) :
  outcome (Url.new u w) = Returned v ->
  v = u /\ Js.truthy (originalUrl u) = true /\
  Js.truthy (shortCode u) = true /\ urlParser w (originalUrl u) = true.
Proof.
  unfold Url.new, Url._validate, bind, read, ret, throw.
  destruct (Js.truthy (originalUrl u)); cbn [negb]; [|discriminate].
  destruct (Js.truthy (shortCode u)); cbn [negb]; [|discriminate].
  cbn [outcome world events].
  destruct (urlParser w (originalUrl u)); cbn [outcome]; [|discriminate].
  intros [= <-]. now repeat split.
Qed.

(** The document a successful creation persists. *)
Lemma execute_created_doc (fuel : nat) (d : UrlData) (w : World) (u : Link) :
  MongoUrlRepository.find_by_original_url
    (_normalizeUrl (in_originalUrl d)) (urls w) = None ->
  outcome (CreateShortUrl.execute fuel d w) = Returned u ->
  exists code,
    outcome (CreateShortUrl.choose_code fuel (in_customAlias d)
               (set_storeFaults (tl (storeFaults w)) w)) = Returned code /\
    u = mkLink (Js.trim (_normalizeUrl (in_originalUrl d))) code
               (in_customAlias d) (in_userId d) (now w) (in_expiresAt d)
               true /\
    Js.truthy code = true /\
    urlParser w (_normalizeUrl (in_originalUrl d)) = true.
Proof.
  intros Hf. unfold CreateShortUrl.execute,
    MongoUrlRepository.findByOriginalUrl.
  set (norm := _normalizeUrl (in_originalUrl d)) in *.
  destruct (hd false (storeFaults w)) eqn:Hs.
  { rewrite (bind_thrown _ _ _ _ _ _ (query_throws _ _ w Hs)).
    discriminate. }
  rewrite (bind_returned _ _ _ _ _ _ (query_answers _ _ w Hs)).
  rewrite Hf. cbn [outcome world events].
  set (w1 := set_storeFaults (tl (storeFaults w)) w).
  intros H.
  apply bind_inv_returned in H as (code & Hcode & H & _).
  exists code. split; [exact Hcode|].
  set (w2 := world (CreateShortUrl.choose_code fuel (in_customAlias d) w1))
    in *.
  assert (Hn2 : now w2 = now w).
  { unfold w2. rewrite (keeps_choose_code now); [reflexivity|field_frame..]. }
  assert (Hp2 : urlParser w2 = urlParser w).
  { unfold w2. rewrite (keeps_choose_code urlParser);
      [reflexivity|field_frame..]. }
  rewrite bind_read in H.
  apply bind_inv_returned in H as (url & Hurl & H & _).
  apply Url_new_returned in Hurl as (-> & _ & Ht & Hp).
  cbn [shortCode originalUrl] in Ht, Hp.
  apply bind_inv_returned in H as (created & Hcr & H & _).
  apply create_inv in Hcr as (-> & _ & _).
  apply bind_inv_returned in H as ([] & _ & H & _).
  unfold ret in H. cbn [outcome] in H. injection H as <-.
  rewrite Hn2. rewrite Hp2 in Hp.
  split; [|now split].
  unfold MongoUrlRepository.cast.
  cbn [originalUrl shortCode customAlias userId createdAt expiresAt
       isActive].
  rewrite (choose_code_trim _ _ _ _ Hcode).
  rewrite (choose_code_alias_trim _ _ _ _ Hcode). reflexivity.
Qed.

Lemma execute_created_trim (fuel : nat) (d : UrlData) (w : World)
  (u : Link) :
  MongoUrlRepository.find_by_original_url
    (_normalizeUrl (in_originalUrl d)) (urls w) = None ->
  outcome (CreateShortUrl.execute fuel d w) = Returned u ->
  Js.trim (shortCode u) = shortCode u.
Proof.
  intros Hf Ho.
  destruct (execute_created_doc fuel d w u Hf Ho) as (code & Hc & -> & _).
  exact (choose_code_trim _ _ _ _ Hc).
Qed.

Lemma find_by_code_app_new (u : Link) (l : list Link) :
  Js.trim (shortCode u) = shortCode u ->
  MongoUrlRepository.code_exists (shortCode u) l = false ->
  MongoUrlRepository.find_by_code (shortCode u) (l ++ [u]) = Some u.
Proof.
  unfold MongoUrlRepository.code_exists, MongoUrlRepository.find_by_code,
    MongoUrlRepository.has_code, MongoUrlRepository.first_with_code.
  intros ->.
  induction l as [|x l IH]; simpl.
  - intros _. now rewrite String.eqb_refl.
  - intros H. apply orb_false_iff in H as (H1 & H2). rewrite H1. auto.
Qed.

(** X4: the link that creation returns for a URL that had none is the one
    asked for: the normalized URL with white space trimmed from its ends,
    as the store saves it, the alias, user and expiry of the request, the
    time of the clock as [createdAt], active.  Its code is
    the alias when a non-empty one is given and otherwise a generated
    code of at least the configured length; the code is not empty, no
    link had it before, and the stored link is found under it. *)
Theorem created_link_is_as_requested (fuel : nat) (d : UrlData) (w : World)
  (u : Link) :
  MongoUrlRepository.find_by_original_url
    (_normalizeUrl (in_originalUrl d)) (urls w) = None ->
  outcome (CreateShortUrl.execute fuel d w) = Returned u ->
  u = mkLink (Js.trim (_normalizeUrl (in_originalUrl d))) (shortCode u)
             (in_customAlias d) (in_userId d) (now w) (in_expiresAt d)
             true /\
  (forall a, in_customAlias d = Some a -> Js.truthy a = true ->
     shortCode u = a) /\
  ((forall a, in_customAlias d = Some a -> Js.truthy a = false) ->
     urlLength w <= String.length (shortCode u)) /\
  Js.truthy (shortCode u) = true /\
  MongoUrlRepository.code_exists (shortCode u) (urls w) = false /\
  MongoUrlRepository.find_by_code (shortCode u)
    (urls (world (CreateShortUrl.execute fuel d w))) = Some u.
Proof.
  intros Hf Ho.
  destruct (execute_created_doc fuel d w u Hf Ho) as (code & Hc & Hu & Ht & _).
  destruct (execute_created fuel d w u Hf Ho) as (Hurls & _ & _ & Hex).
  assert (Hcode : shortCode u = code) by now rewrite Hu.
  split; [rewrite Hcode; exact Hu|].
  pose proof (choose_code_free _ _ _ _ Hc) as Hfree.
  split; [|split; [|split; [|split]]].
  - intros a Ha Hta. rewrite Ha, Hta in Hfree. congruence.
  - intros Hno. rewrite Hcode.
    assert (G : outcome (CreateShortUrl._generateUniqueShortCode fuel
                           (set_storeFaults (tl (storeFaults w)) w))
                = Returned code).
    { revert Hc. unfold CreateShortUrl.choose_code.
      destruct (in_customAlias d) as [a|]; [|auto].
      rewrite (Hno a eq_refl). auto. }
    apply generate_loop_fresh in G as (_ & G & _). exact G.
  - now rewrite Hcode.
  - exact Hex.
  - rewrite Hurls. apply find_by_code_app_new; [|exact Hex].
    rewrite Hcode. exact (choose_code_trim _ _ _ _ Hc).
Qed.

(** A request with alias, user and expiry on an empty collection, its URL
    followed by a space. *)
Lemma created_link_is_as_requested_witness :
  let d := mkUrlData "example.com/a " (Some "my-alias") (Some "user123")
                     (Some 5000%Z) in
  outcome (CreateShortUrl.execute 10 d (Examples.fresh 1000)) =
    Returned (mkLink "https://example.com/a" "my-alias" (Some "my-alias")
                     (Some "user123") 1000 (Some 5000%Z) true).
Proof.
  intros d.
  assert (H : exists u,
            outcome (CreateShortUrl.execute 10 d (Examples.fresh 1000))
              = Returned u) by (eexists; vm_compute; reflexivity).
  destruct H as [u Hu]. rewrite Hu.
  destruct (created_link_is_as_requested 10 d (Examples.fresh 1000) u
              eq_refl Hu) as (E & Ha & _).
  rewrite E, (Ha "my-alias" eq_refl eq_refl). reflexivity.
Defined.

Lemma execute_collection (fuel : nat) (d : UrlData) (w : World) :
  let r := CreateShortUrl.execute fuel d w in
  urls (world r) = urls w \/
  exists u, outcome r = Returned u /\
            urls (world r) = (urls w ++ [u])%list /\
            MongoUrlRepository.has_code (shortCode u) (urls w) = false.
Proof.
  intros r.
  destruct (execute_keeps_urls_unless_returned fuel d w) as [[u Hu]|H];
    [|now left].
  destruct (MongoUrlRepository.find_by_original_url
              (_normalizeUrl (in_originalUrl d)) (urls w)) as [v|] eqn:Hf.
  - left. destruct (hd false (storeFaults w)) eqn:Hs.
    + unfold r, CreateShortUrl.execute, MongoUrlRepository.findByOriginalUrl.
      rewrite (bind_thrown _ _ _ _ _ _ (query_throws _ _ w Hs)).
      reflexivity.
    + unfold r. rewrite (execute_existing fuel d w v Hs Hf). reflexivity.
  - right. exists u. split; [exact Hu|].
    destruct (execute_created fuel d w u Hf Hu) as (H1 & _ & _ & H4).
    split; [exact H1|].
    unfold MongoUrlRepository.code_exists in H4.
    now rewrite (execute_created_trim fuel d w u Hf Hu) in H4.
Qed.

(** X5: creation changes the collection of links at most by appending the
    link it returns; whenever it does not return, the collection is as it
    was; the recorded clicks are never touched. *)
Theorem create_only_appends (fuel : nat) (d : UrlData) (w : World) :
  let r := CreateShortUrl.execute fuel d w in
  (urls (world r) = urls w \/
   exists u, outcome r = Returned u /\
             urls (world r) = (urls w ++ [u])%list) /\
  ((forall u, outcome r <> Returned u) -> urls (world r) = urls w) /\
  clicks (world r) = clicks w.
Proof.
  intros r. split; [|split].
  - destruct (execute_collection fuel d w) as [H|(u & H1 & H2 & _)];
      [now left | right; eauto].
  - intros Hno.
    destruct (execute_keeps_urls_unless_returned fuel d w) as [[u Hu]|H];
      [now apply Hno in Hu | exact H].
  - unfold r, CreateShortUrl.execute.
    apply (keeps_bind clicks); [apply keeps_query; field_frame|].
    intros [u|]; [apply keeps_ret|].
    apply keeps_bind; [apply keeps_choose_code; field_frame|intros c].
    apply keeps_bind; [apply keeps_read|intros t].
    apply keeps_bind; [apply keeps_Url_new|intros url].
    apply keeps_bind.
    + intros w'. unfold MongoUrlRepository.create,
        MongoUrlRepository.next_fault.
      destruct (negb _); [reflexivity|].
      destruct (storeFaults w') as [|[] fs];
        try match goal with
        | |- context [MongoUrlRepository.has_code ?c ?l] =>
            destruct (MongoUrlRepository.has_code c l)
        end;
        reflexivity.
    + intros cr. apply keeps_bind; [|intros; apply keeps_ret].
      apply keeps_create_cacheUrl; field_frame.
Qed.

Lemma NoDup_codes_app (l : list Link) (u : Link) :
  List.NoDup (map shortCode l) ->
  MongoUrlRepository.has_code (shortCode u) l = false ->
  List.NoDup (map shortCode (l ++ [u])).
Proof.
  intros Hnd Hex. rewrite map_app. simpl.
  apply List.NoDup_app; [exact Hnd | repeat constructor; intros [] |].
  intros c Hin [<-|[]]. apply in_map_iff in Hin as (x & Hx & Hin).
  unfold MongoUrlRepository.has_code in Hex.
  assert (existsb (fun u0 : Link => (shortCode u0 =? shortCode u)%string) l
          = true); [|congruence].
  apply existsb_exists. exists x. split; [exact Hin|].
  now apply String.eqb_eq.
Qed.

(** X6: creation keeps short codes unique: when no two links share a code
    before the call, no two links share one after it, however the call
    ends. *)
Theorem create_preserves_unique_codes (fuel : nat) (d : UrlData) (w : World) :
  List.NoDup (map shortCode (urls w)) ->
  List.NoDup (map shortCode (urls (world (CreateShortUrl.execute fuel d w)))).
Proof.
  intros Hnd.
  destruct (execute_collection fuel d w) as [H|(u & _ & H & Hex)];
    cbv zeta in H; rewrite H; [exact Hnd|].
  now apply NoDup_codes_app.
Qed.

(** A sixth link beside five with distinct codes. *)
Lemma create_preserves_unique_codes_witness :
  let d := mkUrlData "example.com/new" None None None in
  let w := set_urls Examples.five_taken (Examples.fresh 1000) in
  List.NoDup (map shortCode (urls (world (CreateShortUrl.execute 10 d w)))) /\
  length (urls (world (CreateShortUrl.execute 10 d w))) = 6.
Proof.
  intros d w. split; [|vm_compute; reflexivity].
  apply (create_preserves_unique_codes 10 d w).
  vm_compute. repeat constructor; simpl; intuition discriminate.
Defined.

Lemma getFromCache_hit (code url : string) (expiry : Z) (w : World) :
  hd CacheOk (cacheFaults w) = CacheOk ->
  cache w !! ("url:" +:+ code) = Some (url, expiry) ->
  (now w < expiry)%Z ->
  ResolveUrl._getFromCache code w =
    mkRun (Returned (Some url)) (snd (Cache.next_fault w))
          [EvCacheGet ("url:" +:+ code)].
Proof.
  intros Hc He Hl.
  unfold ResolveUrl._getFromCache, try_catch, Cache.get, Cache.next_fault.
  destruct (cacheFaults w) as [|[] fs]; try discriminate;
    cbn [outcome world events snd]; rewrite He; unfold Cache.live;
    apply Z.ltb_lt in Hl; rewrite Hl; reflexivity.
Qed.

(** X7: a live cache entry under [url:<code>] answers a resolution without
    any call on the store: the cached URL is returned with no link
    attached, the calls made are the cache read and, with analytics on
    and request data given, the hand-over of the click; links, cache and
    the state of the store stay as they were.  The link itself is not
    looked at, so neither is its activity or its expiry. *)
Theorem resolve_served_from_cache (analytics : bool) (code url : string)
  (rd : option RequestData) (w : World) (expiry : Z) :
  Js.truthy code = true -> Js.truthy url = true ->
  hd CacheOk (cacheFaults w) = CacheOk ->
  cache w !! ("url:" +:+ code) = Some (url, expiry) ->
  (now w < expiry)%Z ->
  let r := ResolveUrl.execute analytics code rd w in
  outcome r = Returned (ResolveUrl.mkResult url None) /\
  events r =
    (EvCacheGet ("url:" +:+ code) ::
     match rd with
     | Some d => if analytics then [EvRecordClick code d] else []
     | None => []
     end)%list /\
  urls (world r) = urls w /\ cache (world r) = cache w /\
  storeFaults (world r) = storeFaults w.
Proof.
  intros Ht Hu Hc He Hl r. unfold r, ResolveUrl.execute.
  rewrite Ht. cbn [negb].
  rewrite (bind_returned _ _ _ _ _ _ (getFromCache_hit code url expiry w
                                        Hc He Hl)).
  rewrite Hu. cbn [outcome world events].
  assert (Hw : urls (snd (Cache.next_fault w)) = urls w /\
               cache (snd (Cache.next_fault w)) = cache w /\
               storeFaults (snd (Cache.next_fault w)) = storeFaults w).
  { unfold Cache.next_fault. destruct (cacheFaults w); now repeat split. }
  destruct Hw as (W1 & W2 & W3).
  unfold bind, ret, ResolveUrl._recordAnalytics, emit.
  cbn [outcome world events app].
  destruct rd as [d|]; [destruct analytics|]; cbn [outcome world events app];
    now repeat split.
Qed.

(** A deactivated, expired link whose code is still cached resolves, while
    the store alone would refuse it. *)
Lemma resolve_served_from_cache_witness :
  let gone := mkLink "https://example.com/docs" "docs123" None None 0
                     (Some 5%Z) false in
  let w := set_cache (<["url:docs123" := ("https://example.com/docs",
                                           90000%Z)]> ∅)
             (set_urls [gone] (Examples.fresh 1000)) in
  outcome (ResolveUrl.execute false "docs123" None w) =
    Returned (ResolveUrl.mkResult "https://example.com/docs" None) /\
  outcome (ResolveUrl.from_repository "docs123" w) = Thrown LinkDeactivated.
Proof.
  intros gone w. split; [|vm_compute; reflexivity].
  apply (resolve_served_from_cache false "docs123" "https://example.com/docs"
           None w 90000); try reflexivity.
Defined.

Lemma emits_only_cache_get (P : Event -> Prop) (key : string) :
  P (EvCacheGet key) -> emits_only P (Cache.get key).
Proof.
  intros H w. unfold Cache.get, Cache.next_fault.
  destruct (cacheFaults w) as [|[] fs]; repeat constructor; exact H.
Qed.

Lemma emits_only_getFromCache (P : Event -> Prop) (code : string) :
  P (EvCacheGet ("url:" +:+ code)) ->
  P (EvConsoleError "Cache retrieval error:") ->
  emits_only P (ResolveUrl._getFromCache code).
Proof.
  intros H1 H2. unfold ResolveUrl._getFromCache.
  apply emits_only_try_catch; [now apply emits_only_cache_get|intros e].
  apply emits_only_bind; [now apply emits_only_emit|intros].
  apply emits_only_ret.
Qed.

Lemma emits_only_resolve_cacheUrl (P : Event -> Prop) (code url : string) :
  P (EvCacheSet ("url:" +:+ code) url None) ->
  P (EvConsoleError "Cache storage error:") ->
  emits_only P (ResolveUrl._cacheUrl code url).
Proof.
  intros H1 H2. unfold ResolveUrl._cacheUrl.
  apply emits_only_try_catch; [|intros; now apply emits_only_emit].
  apply emits_only_bind; [|intros; apply emits_only_ret].
  apply emits_only_cache_set. intros; exact H1.
Qed.

Lemma emits_only_from_repository (P : Event -> Prop) (code : string) :
  P (EvFindByShortCode code) ->
  (forall url, P (EvCacheSet ("url:" +:+ code) url None)) ->
  P (EvConsoleError "Cache storage error:") ->
  emits_only P (ResolveUrl.from_repository code).
Proof.
  intros H1 H2 H3. unfold ResolveUrl.from_repository.
  apply emits_only_bind; [now apply emits_only_query|intros [u|]];
    [|apply emits_only_throw].
  destruct (negb _); [apply emits_only_throw|].
  apply emits_only_bind; [apply emits_only_read|intros t].
  destruct (Url.isExpired _ _); [apply emits_only_throw|].
  apply emits_only_bind; [|intros; apply emits_only_ret].
  now apply emits_only_resolve_cacheUrl.
Qed.

Lemma no_click_filter (evs : list Event) :
  Forall (fun e => is_record_click e = false) evs ->
  List.filter is_record_click evs = [].
Proof. apply filter_nil_of_Forall. Qed.

(** X8: a resolution hands a click to the analytics service exactly once
    when it returns, request data was given and analytics are enabled;
    in every other case (an error, no request data, analytics disabled)
    it hands over none. *)
Theorem resolve_hands_over_click_iff (analytics : bool) (code : string)
  (rd : option RequestData) (w : World) :
  let r := ResolveUrl.execute analytics code rd w in
  List.filter is_record_click (events r) =
    match outcome r, rd with
    | Returned _, Some d => if analytics then [EvRecordClick code d] else []
    | _, _ => []
    end.
Proof.
  intros r. unfold r, ResolveUrl.execute.
  destruct (Js.truthy code); cbn [negb]; [|reflexivity].
  rewrite bind_events, bind_outcome, List.filter_app.
  rewrite (no_click_filter (events (ResolveUrl._getFromCache code w)))
    by (apply emits_only_getFromCache; reflexivity).
  destruct (getFromCache_returns code w) as [cached Hc]. rewrite Hc.
  set (w0 := world (ResolveUrl._getFromCache code w)).
  cbn [app].
  set (step := match cached with
               | Some url =>
                   if Js.truthy url then ret (ResolveUrl.mkResult url None)
                   else ResolveUrl.from_repository code
               | None => ResolveUrl.from_repository code
               end).
  assert (Hstep : List.filter is_record_click (events (step w0)) = []).
  { apply no_click_filter. unfold step.
    destruct cached as [url|]; [destruct (Js.truthy url)|];
      try (apply emits_only_from_repository; reflexivity).
    apply emits_only_ret. }
  rewrite bind_events, bind_outcome, List.filter_app, Hstep.
  destruct (outcome (step w0)) as [res| |]; [|reflexivity..].
  cbn [app]. rewrite bind_events, bind_outcome, List.filter_app.
  destruct rd as [d|]; [destruct analytics|]; reflexivity.
Qed.

Lemma keeps_cache_set_other (key key' value : string) (ttl : option Z) :
  key <> key' -> keeps (fun w => cache w !! key) (Cache.set key' value ttl).
Proof.
  intros Hne w. unfold Cache.set, Cache.next_fault.
  destruct (cacheFaults w) as [|[] fs]; cbn [world cache set_cache];
    try reflexivity; now apply lookup_insert_ne.
Qed.

Lemma keeps_resolve_execute {B} (f : World -> B) (analytics : bool)
  (code : string) (rd : option RequestData) :
  (forall v w, f (set_storeFaults v w) = f w) ->
  (forall v w, f (set_cacheFaults v w) = f w) ->
  (forall url, keeps f (Cache.set ("url:" +:+ code) url None)) ->
  keeps f (ResolveUrl.execute analytics code rd).
Proof.
  intros F1 F2 F3. unfold ResolveUrl.execute.
  destruct (negb _); [apply keeps_throw|].
  assert (Hrepo : keeps f (ResolveUrl.from_repository code)).
  { unfold ResolveUrl.from_repository.
    apply keeps_bind; [now apply keeps_query|intros [u|]];
      [|apply keeps_throw].
    destruct (negb _); [apply keeps_throw|].
    apply keeps_bind; [apply keeps_read|intros t].
    destruct (Url.isExpired _ _); [apply keeps_throw|].
    apply keeps_bind; [|intros; apply keeps_ret].
    unfold ResolveUrl._cacheUrl.
    apply keeps_try_catch; [|intros; apply keeps_emit].
    apply keeps_bind; [apply F3|intros; apply keeps_ret]. }
  apply keeps_bind.
  - unfold ResolveUrl._getFromCache.
    apply keeps_try_catch.
    + intros w. unfold Cache.get, Cache.next_fault.
      destruct (cacheFaults w) as [|[] fs]; cbn [world]; now rewrite ?F2.
    + intros e. apply keeps_bind; [apply keeps_emit|intros; apply keeps_ret].
  - intros cached. apply keeps_bind.
    + destruct cached as [url|]; [destruct (Js.truthy url)|];
        try exact Hrepo. apply keeps_ret.
    + intros res. apply keeps_bind; [|intros; apply keeps_ret].
      destruct rd as [d|]; [destruct analytics|]; try apply keeps_ret.
      apply keeps_emit.
Qed.

(** X9: of the state the use cases share, a resolution writes at most the
    entry [url:<code>] of the URL cache, for the code as it was given: the
    links, the configured code length, the analytics cache and every
    other entry of the URL cache are, when it returns or fails, as they
    were.  Nothing is said of the Analytics collection, which the
    analytics service writes after a click was handed to it. *)
Theorem resolve_is_read_only (analytics : bool) (code : string)
  (rd : option RequestData) (w : World) :
  let w' := world (ResolveUrl.execute analytics code rd w) in
  urls w' = urls w /\ urlLength w' = urlLength w /\
  acache w' = acache w /\
  (forall key, key <> "url:" +:+ code -> cache w' !! key = cache w !! key).
Proof.
  cbv zeta. repeat apply conj.
  - apply (keeps_resolve_execute urls); try field_frame.
    intros url. apply keeps_cache_set; field_frame.
  - apply (keeps_resolve_execute urlLength); try field_frame.
    intros url. apply keeps_cache_set; field_frame.
  - apply (keeps_resolve_execute acache); try field_frame.
    intros url. apply keeps_cache_set; field_frame.
  - intros key Hne.
    apply (keeps_resolve_execute (fun w => cache w !! key)); try field_frame.
    intros url. now apply keeps_cache_set_other.
Qed.

Lemma keeps_create {B} (f : World -> B) (doc : Link) :
  (forall v w, f (set_storeFaults v w) = f w) ->
  (forall v w, f (set_urls v w) = f w) ->
  keeps f (MongoUrlRepository.create doc).
Proof.
  intros F1 F2 w. unfold MongoUrlRepository.create,
    MongoUrlRepository.next_fault.
  destruct (negb _); [reflexivity|].
  destruct (storeFaults w) as [|[] fs];
    try match goal with
    | |- context [MongoUrlRepository.has_code ?c ?l] =>
        destruct (MongoUrlRepository.has_code c l)
    end;
    cbn [world]; now rewrite ?F2, ?F1.
Qed.

Lemma create_cacheUrl_healthy (code url : string) (w : World) :
  cacheFaults w = [] ->
  let w' := world (CreateShortUrl._cacheUrl code url w) in
  cache w' !! ("url:" +:+ code) =
    Some (url, (now w + 1000 * Cache.ttlToUse (Some (redisTtl w)) w)%Z) /\
  cacheFaults w' = [] /\ now w' = now w.
Proof.
  intros Hc. unfold CreateShortUrl._cacheUrl, try_catch.
  rewrite bind_read. unfold bind, Cache.set, Cache.next_fault.
  rewrite Hc. cbn [outcome world events cache set_cache].
  split; [apply lookup_insert_eq|]. split; [exact Hc | reflexivity].
Qed.

(** The cache after a successful creation with a cache that answers. *)
Lemma execute_created_cache (fuel : nat) (d : UrlData) (w : World) (u : Link) :
  MongoUrlRepository.find_by_original_url
    (_normalizeUrl (in_originalUrl d)) (urls w) = None ->
  outcome (CreateShortUrl.execute fuel d w) = Returned u ->
  cacheFaults w = [] ->
  let w' := world (CreateShortUrl.execute fuel d w) in
  cache w' !! ("url:" +:+ shortCode u) =
    Some (_normalizeUrl (in_originalUrl d),
          (now w + 1000 * Cache.ttlToUse (Some (redisTtl w)) w)%Z) /\
  cacheFaults w' = [] /\ now w' = now w.
Proof.
  intros Hf Ho Hc.
  destruct (execute_created_doc fuel d w u Hf Ho) as (code & _ & Hu & _).
  assert (Hcode : shortCode u = code) by now rewrite Hu.
  revert Ho. unfold CreateShortUrl.execute,
    MongoUrlRepository.findByOriginalUrl.
  set (norm := _normalizeUrl (in_originalUrl d)) in *.
  destruct (hd false (storeFaults w)) eqn:Hs.
  { rewrite (bind_thrown _ _ _ _ _ _ (query_throws _ _ w Hs)).
    discriminate. }
  rewrite (bind_returned _ _ _ _ _ _ (query_answers _ _ w Hs)).
  rewrite Hf. cbn [outcome world events].
  set (w1 := set_storeFaults (tl (storeFaults w)) w).
  intros H.
  apply bind_inv_returned in H as (code' & Hcode' & H & Hw & _).
  rewrite Hw. clear Hw.
  set (w2 := world (CreateShortUrl.choose_code fuel (in_customAlias d) w1))
    in *.
  rewrite bind_read in H. rewrite bind_read.
  apply bind_inv_returned in H as (url & Hurl & H & Hw & _).
  rewrite Hw. clear Hw.
  apply Url_new_returned in Hurl as (-> & _).
  rewrite Url_new_world in *.
  apply bind_inv_returned in H as (created & Hcr & H & Hw & _).
  rewrite Hw. clear Hw.
  apply create_inv in Hcr as (-> & _ & _).
  match type of H with
  | outcome (bind _ _ ?x) = _ => set (w4 := x) in *
  end.
  apply bind_inv_returned in H as ([] & _ & H & Hw & _).
  rewrite Hw. clear Hw. unfold ret in H |- *. cbn [outcome world] in H |- *.
  injection H as <-.
  cbn [shortCode MongoUrlRepository.cast] in Hcode.
  rewrite (choose_code_trim _ _ _ _ Hcode') in Hcode. subst code'.
  assert (K : forall {B} (f : World -> B),
            (forall v x, f (set_storeFaults v x) = f x) ->
            (forall v x, f (set_urls v x) = f x) ->
            (forall v x, f (set_draws v x) = f x) ->
            (forall v x, f (set_urlLength v x) = f x) ->
            f w4 = f w).
  { intros B f F1 F2 F3 F4. unfold w4.
    rewrite (keeps_create f) by assumption.
    unfold w2. rewrite (keeps_choose_code f) by assumption.
    unfold w1. apply F1. }
  assert (Hc4 : cacheFaults w4 = []).
  { rewrite (K _ cacheFaults); [exact Hc|field_frame..]. }
  destruct (create_cacheUrl_healthy code norm w4 Hc4) as (C1 & C2 & C3).
  cbv zeta in C1, C2, C3. cbn [shortCode MongoUrlRepository.cast].
  rewrite (choose_code_trim _ _ _ _ Hcode'). rewrite C1, C2, C3.
  rewrite (K _ now) by field_frame.
  unfold Cache.ttlToUse, Cache.defaultTtl.
  rewrite (K _ redisTtl) by field_frame.
  now repeat split.
Qed.

(** X10: creation followed by resolution: with a cache that works and a
    TTL that is not negative, the code of a link that creation has just
    made, for a URL the store had no link for, resolves to the normalized
    URL of the request, served from the cache entry that creation wrote
    (the cache holds the URL as normalized, the store holds it
    trimmed). *)
Theorem create_then_resolve (fuel : nat) (d : UrlData) (w : World) (u : Link)
  (analytics : bool) (rd : option RequestData) :
  cacheFaults w = [] -> (0 <= redisTtl w)%Z ->
  MongoUrlRepository.find_by_original_url
    (_normalizeUrl (in_originalUrl d)) (urls w) = None ->
  outcome (CreateShortUrl.execute fuel d w) = Returned u ->
  let w1 := world (CreateShortUrl.execute fuel d w) in
  outcome (ResolveUrl.execute analytics (shortCode u) rd w1) =
    Returned (ResolveUrl.mkResult (_normalizeUrl (in_originalUrl d)) None).
Proof.
  intros Hc Httl Hf Ho w1.
  destruct (execute_created_cache fuel d w u Hf Ho Hc) as (C1 & C2 & C3).
  destruct (execute_created_doc fuel d w u Hf Ho) as (code & _ & Hu & Ht & _).
  assert (Hcode : shortCode u = code) by now rewrite Hu.
  fold w1 in C1, C2, C3.
  assert (Hlive : (now w1 <
                   now w + 1000 * Cache.ttlToUse (Some (redisTtl w)) w)%Z).
  { rewrite C3. unfold Cache.ttlToUse, Cache.defaultTtl.
    destruct (redisTtl w =? 0)%Z eqn:E; [lia|].
    apply Z.eqb_neq in E. lia. }
  assert (Hh : hd CacheOk (cacheFaults w1) = CacheOk) by now rewrite C2.
  unfold ResolveUrl.execute. rewrite Hcode, Ht. cbn [negb].
  rewrite Hcode in C1.
  rewrite (bind_returned _ _ _ _ _ _
             (getFromCache_hit code _ _ w1 Hh C1 Hlive)).
  rewrite normalize_truthy. cbn [outcome].
  rewrite bind_outcome. cbn [outcome ret].
  rewrite bind_outcome.
  destruct rd as [r0|]; [destruct analytics|]; reflexivity.
Qed.

(** A link created with an expiry in the past resolves right after its
    creation. *)
Lemma create_then_resolve_witness :
  let d := mkUrlData "example.com/a/" None None (Some 5%Z) in
  let r := CreateShortUrl.execute 10 d (Examples.fresh 1000) in
  outcome r = Returned (mkLink "https://example.com/a" "aaaaaaa" None None
                               1000 (Some 5%Z) true) /\
  outcome (ResolveUrl.execute false "aaaaaaa" None (world r)) =
    Returned (ResolveUrl.mkResult "https://example.com/a" None).
Proof.
  intros d r.
  assert (H : outcome r = Returned (mkLink "https://example.com/a" "aaaaaaa"
                                      None None 1000 (Some 5%Z) true))
    by (vm_compute; reflexivity).
  split; [exact H|].
  apply (create_then_resolve 10 d (Examples.fresh 1000) _ false None
           eq_refl ltac:(vm_compute; discriminate) eq_refl H).
Defined.

Section ReferrerTotals.

Import MongoAnalyticsRepository.

Lemma relabel_snd (l : list ReferrerRow) :
  map snd (map relabel l) = map snd l.
Proof. rewrite map_map. reflexivity. Qed.

Lemma project_stage_snd (gs : list Group) :
  map snd (project_stage gs) = map snd gs.
Proof. unfold project_stage. rewrite map_map. reflexivity. Qed.

Lemma list_sum_perm (l1 l2 : list nat) :
  Permutation l1 l2 -> list_sum l1 = list_sum l2.
Proof. induction 1; simpl; lia. Qed.

Lemma group_insert_sum (k : option string) (gs : list Group) :
  list_sum (map snd (group_insert k gs)) = S (list_sum (map snd gs)).
Proof.
  induction gs as [|[k' n] r IH]; simpl; [reflexivity|].
  destruct (decide (k = k')); simpl; [reflexivity | rewrite IH; lia].
Qed.

Lemma group_stage_sum (evs : list ClickEvent) :
  list_sum (map snd (group_stage evs)) = length evs.
Proof.
  unfold group_stage.
  assert (G : forall gs,
            list_sum (map snd (fold_left
                                 (fun gs e => group_insert (ev_referrer e) gs)
                                 evs gs))
            = length evs + list_sum (map snd gs)).
  { induction evs as [|e evs IH]; intros gs; simpl; [reflexivity|].
    rewrite IH, group_insert_sum. lia. }
  rewrite G. simpl. lia.
Qed.

(** X11: the counts of the referrer rows add up to the number of clicks
    recorded for the code: every click is counted in exactly one row. *)
Theorem referrer_counts_add_up (code : string) (evs : list ClickEvent) :
  list_sum (map snd (map relabel (aggregate code evs))) =
    length (match_stage code evs).
Proof.
  rewrite relabel_snd. unfold aggregate.
  rewrite (list_sum_perm _ _
             (Permutation_map snd (sort_stage_perm _))).
  rewrite project_stage_snd. apply group_stage_sum.
Qed.

Lemma relabel_project (g : Group) :
  relabel (default "Direct/None" (fst g), snd g) = (key_label (fst g), snd g).
Proof.
  destruct g as [[s|] n]; unfold relabel, key_label; simpl; reflexivity.
Qed.

(** X12: up to their order, the referrer rows are one row for each distinct
    stored referrer value (null, the empty string or a text) among the
    clicks on the code; the row carries the number of clicks with exactly
    that value and is labelled [Direct/None] when the value is null or
    empty. *)
Theorem referrer_rows_one_per_stored_value (code : string)
  (evs : list ClickEvent) :
  let E := match_stage code evs in
  exists keys : list (option string),
    List.NoDup keys /\
    (forall k, In k keys <-> 0 < count_key k E) /\
    Permutation (map relabel (aggregate code evs))
                (map (fun k => (key_label k, count_key k E)) keys).
Proof.
  intros E. destruct (group_stage_spec E) as (Hnd & Hraw).
  exists (map fst (group_stage E)). split; [exact Hnd|]. split.
  - intros k. rewrite in_map_iff. split.
    + intros ([k' n] & <- & Hin). apply Hraw in Hin as (Hn & ->). exact Hn.
    + intros Hn. exists (k, count_key k E). split; [reflexivity|].
      apply Hraw. split; [exact Hn | reflexivity].
  - unfold aggregate. fold E.
    rewrite (Permutation_map relabel (sort_stage_perm _)).
    unfold project_stage. rewrite !map_map.
    apply Permutation_refl'. apply map_ext_in.
    intros [k n] Hin. cbn [fst snd]. apply Hraw in Hin as (_ & ->).
    apply (relabel_project (k, count_key k E)).
Qed.

End ReferrerTotals.

Lemma shortCodeExists_healthy (code : string) (w : World) :
  storeFaults w = [] ->
  MongoUrlRepository.shortCodeExists code w =
    mkRun (Returned (MongoUrlRepository.code_exists code (urls w))) w
          [EvShortCodeExists code].
Proof.
  intros Hs. unfold MongoUrlRepository.shortCodeExists,
    MongoUrlRepository.query, MongoUrlRepository.next_fault.
  now rewrite Hs.
Qed.

Lemma analytics_getFromCache_healthy (key : string) (w : World) :
  cacheFaults w = [] ->
  GetUrlAnalytics._getFromCache key w =
    mkRun (Returned (Cache.live (now w) (acache w !! key))) w
          [EvAnalyticsCacheGet key].
Proof.
  intros Hc. unfold GetUrlAnalytics._getFromCache, try_catch,
    Cache.get_rows, Cache.next_fault.
  now rewrite Hc.
Qed.

Lemma getReferrerStats_healthy (code : string) (w : World) :
  storeFaults w = [] ->
  MongoAnalyticsRepository.getReferrerStats code w =
    mkRun (Returned (map MongoAnalyticsRepository.relabel
                       (MongoAnalyticsRepository.aggregate code (clicks w))))
          w [EvAggregateReferrers code].
Proof.
  intros Hs. unfold MongoAnalyticsRepository.getReferrerStats,
    MongoUrlRepository.next_fault.
  now rewrite Hs.
Qed.

Lemma cacheData_healthy (key : string) (rows : list ReferrerRow) (w : World) :
  cacheFaults w = [] ->
  GetUrlAnalytics._cacheData key rows w =
    mkRun (Returned tt)
          (set_acache (<[key := (rows, (now w + 1000 * 3600)%Z)]> (acache w))
                      w)
          [EvAnalyticsCacheSet key rows 3600].
Proof.
  intros Hc. unfold GetUrlAnalytics._cacheData, try_catch, bind,
    Cache.set_rows, Cache.next_fault.
  now rewrite Hc.
Qed.

(** A run of the view with a store and a cache that answer. *)
Lemma execute_referrers_healthy (code : string) (w : World) :
  storeFaults w = [] -> cacheFaults w = [] ->
  Js.truthy code = true ->
  MongoUrlRepository.code_exists code (urls w) = true ->
  let key := GetUrlAnalytics._createCacheKey code "referrers"
               GetUrlAnalytics.default_options_json in
  GetUrlAnalytics.execute_referrers code w =
    match Cache.live (now w) (acache w !! key) with
    | Some data =>
        mkRun (Returned data) w
              [EvShortCodeExists code; EvAnalyticsCacheGet key]
    | None =>
        let rows := map MongoAnalyticsRepository.relabel
                      (MongoAnalyticsRepository.aggregate code (clicks w)) in
        mkRun (Returned rows)
              (set_acache (<[key := (rows, (now w + 1000 * 3600)%Z)]>
                             (acache w)) w)
              [EvShortCodeExists code; EvAnalyticsCacheGet key;
               EvAggregateReferrers code; EvAnalyticsCacheSet key rows 3600]
    end.
Proof.
  intros Hs Hc Ht Hex key. unfold GetUrlAnalytics.execute_referrers.
  rewrite Ht. cbn [negb].
  rewrite (bind_returned _ _ _ _ _ _ (shortCodeExists_healthy code w Hs)).
  rewrite Hex. cbn [negb]. fold key.
  rewrite (bind_returned _ _ _ _ _ _
             (analytics_getFromCache_healthy key w Hc)).
  destruct (Cache.live (now w) (acache w !! key)) as [data|];
    [reflexivity|].
  rewrite (bind_returned _ _ _ _ _ _ (getReferrerStats_healthy code w Hs)).
  rewrite (bind_returned _ _ _ _ _ _ (cacheData_healthy key _ w Hc)).
  reflexivity.
Qed.

Lemma execute_referrers_returned (code : string) (w : World)
  (rows : list ReferrerRow) :
  outcome (GetUrlAnalytics.execute_referrers code w) = Returned rows ->
  Js.truthy code = true /\
  (storeFaults w = [] ->
   MongoUrlRepository.code_exists code (urls w) = true).
Proof.
  unfold GetUrlAnalytics.execute_referrers.
  destruct (Js.truthy code); cbn [negb]; [|discriminate].
  intros H. split; [reflexivity|]. intros Hs. revert H.
  rewrite (bind_returned _ _ _ _ _ _ (shortCodeExists_healthy code w Hs)).
  destruct (MongoUrlRepository.code_exists code (urls w)); cbn [negb];
    [reflexivity | discriminate].
Qed.

(** X16: with a store and a cache that work, once the view has answered
    for a code, a second call at the same clock reading gives the same
    rows whatever clicks have been recorded in between: it makes the
    existence check and one cache read, and no aggregation. *)
Theorem referrers_second_call_is_cached (code : string) (w : World)
  (rows : list ReferrerRow) (later : list ClickEvent) :
  storeFaults w = [] -> cacheFaults w = [] ->
  outcome (GetUrlAnalytics.execute_referrers code w) = Returned rows ->
  let w1 := set_clicks later
              (world (GetUrlAnalytics.execute_referrers code w)) in
  let r2 := GetUrlAnalytics.execute_referrers code w1 in
  outcome r2 = Returned rows /\
  events r2 =
    [EvShortCodeExists code;
     EvAnalyticsCacheGet (GetUrlAnalytics._createCacheKey code "referrers"
                            GetUrlAnalytics.default_options_json)].
Proof.
  intros Hs Hc Ho w1 r2.
  destruct (execute_referrers_returned code w rows Ho) as (Ht & Hex).
  specialize (Hex Hs).
  pose proof (execute_referrers_healthy code w Hs Hc Ht Hex) as E.
  cbv zeta in E.
  set (key := GetUrlAnalytics._createCacheKey code "referrers"
                GetUrlAnalytics.default_options_json) in *.
  assert (Hw1 : storeFaults w1 = [] /\ cacheFaults w1 = [] /\
                MongoUrlRepository.code_exists code (urls w1) = true /\
                Cache.live (now w1) (acache w1 !! key) = Some rows).
  { unfold w1. rewrite E in Ho |- *.
    destruct (Cache.live (now w) (acache w !! key)) as [data|] eqn:El;
      cbn [outcome world] in Ho |- *; injection Ho as <-;
      cbn [storeFaults cacheFaults urls now acache set_clicks set_acache].
    - now repeat split.
    - repeat split; try assumption.
      rewrite lookup_insert_eq. unfold Cache.live.
      destruct (now w <? now w + 1000 * 3600)%Z eqn:Hl; [reflexivity|].
      apply Z.ltb_ge in Hl. lia. }
  destruct Hw1 as (Hs1 & Hc1 & Hex1 & Hl1).
  pose proof (execute_referrers_healthy code w1 Hs1 Hc1 Ht Hex1) as E2.
  cbv zeta in E2. fold key in E2. rewrite Hl1 in E2.
  unfold r2. rewrite E2. split; reflexivity.
Qed.

(** After the first call the clicks are emptied; the second call still
    gives the rows of the first. *)
Lemma referrers_second_call_is_cached_witness :
  let w := set_clicks Examples.four_clicks
             (set_urls [Examples.plain_link] (Examples.fresh 1000)) in
  let w1 := set_clicks [] (world (GetUrlAnalytics.execute_referrers
                                    "docs123" w)) in
  outcome (GetUrlAnalytics.execute_referrers "docs123" w1) =
    outcome (GetUrlAnalytics.execute_referrers "docs123" w) /\
  MongoAnalyticsRepository.aggregate "docs123" (clicks w1) = [].
Proof.
  intros w w1. split; [|reflexivity].
  assert (H : exists rows,
            outcome (GetUrlAnalytics.execute_referrers "docs123" w)
              = Returned rows) by (eexists; vm_compute; reflexivity).
  destruct H as [rows H]. rewrite H.
  apply (referrers_second_call_is_cached "docs123" w rows [] eq_refl eq_refl
           H).
Defined.

(** X17: with a store that answers, the view refuses a code that the
    store finds on no link (the store compares the code once white space
    is trimmed from its ends): the empty code with [ShortCodeRequired]
    before any call, any other one with [UrlNotFound] after the existence
    check alone; the analytics cache is neither read nor written. *)
Theorem referrers_rejects_unknown_code (code : string) (w : World) :
  hd false (storeFaults w) = false ->
  MongoUrlRepository.code_exists code (urls w) = false ->
  let r := GetUrlAnalytics.execute_referrers code w in
  outcome r =
    Thrown (if Js.truthy code then UrlNotFound else ShortCodeRequired) /\
  events r = (if Js.truthy code then [EvShortCodeExists code] else []) /\
  acache (world r) = acache w /\ cacheFaults (world r) = cacheFaults w.
Proof.
  intros Hs Hex r. unfold r, GetUrlAnalytics.execute_referrers.
  destruct (Js.truthy code); cbn [negb]; [|now repeat split].
  unfold MongoUrlRepository.shortCodeExists.
  rewrite (bind_returned _ _ _ _ _ _ (query_answers _ _ w Hs)).
  rewrite Hex. now repeat split.
Qed.

(** Clicks are recorded for a code that no link has; where a link has the
    code, the view answers also when the code comes with a space in
    front. *)
Lemma referrers_rejects_unknown_code_witness :
  let w := set_clicks Examples.four_clicks (Examples.fresh 1000) in
  outcome (GetUrlAnalytics.execute_referrers " docs123" w) =
    Thrown UrlNotFound /\
  outcome (GetUrlAnalytics.execute_referrers " docs123"
             (set_urls [Examples.plain_link] w)) = Returned [].
Proof.
  intros w. split; [|vm_compute; reflexivity].
  destruct (referrers_rejects_unknown_code " docs123" w eq_refl eq_refl)
    as (H & _).
  exact H.
Defined.

(** ** The store behind the facade's writes *)

Lemma find_by_code_some (code : string) (l : list Link) (u : Link) :
  MongoUrlRepository.find_by_code code l = Some u ->
  shortCode u = Js.trim code /\ In u l.
Proof.
  unfold MongoUrlRepository.find_by_code,
    MongoUrlRepository.first_with_code. intros H.
  apply find_some in H as (Hin & He). apply String.eqb_eq in He. auto.
Qed.

Lemma find_by_code_replace_first (code : string) (u u' : Link)
  (l : list Link) :
  MongoUrlRepository.find_by_code code l = Some u ->
  shortCode u' = Js.trim code ->
  MongoUrlRepository.find_by_code code
    (MongoUrlRepository.replace_first (Js.trim code) u' l) = Some u'.
Proof.
  unfold MongoUrlRepository.find_by_code,
    MongoUrlRepository.first_with_code.
  generalize (Js.trim code) as k. intros k H Hc.
  induction l as [|x l IH]; simpl in *; [discriminate|].
  destruct (shortCode x =? k)%string eqn:E; simpl.
  - now rewrite Hc, String.eqb_refl.
  - rewrite E. auto.
Qed.

Lemma find_by_code_replace_other (code c : string) (u' : Link)
  (l : list Link) :
  Js.trim c <> Js.trim code -> shortCode u' = Js.trim code ->
  MongoUrlRepository.find_by_code c
    (MongoUrlRepository.replace_first (Js.trim code) u' l) =
  MongoUrlRepository.find_by_code c l.
Proof.
  unfold MongoUrlRepository.find_by_code,
    MongoUrlRepository.first_with_code.
  generalize (Js.trim code) as k. generalize (Js.trim c) as k'.
  intros k' k Hne Hc.
  induction l as [|x l IH]; simpl; [reflexivity|].
  destruct (shortCode x =? k)%string eqn:E; simpl.
  - apply String.eqb_eq in E. rewrite Hc, E.
    apply String.eqb_neq in Hne. rewrite String.eqb_sym in Hne.
    now rewrite Hne.
  - now rewrite IH.
Qed.

Lemma update_healthy (code : string) (d : UpdateData) (w : World) (u : Link) :
  storeFaults w = [] -> up_shortCode d = None ->
  MongoUrlRepository.find_by_code code (urls w) = Some u ->
  MongoUrlRepository.update code d w =
    mkRun (Returned (Some (MongoUrlRepository.apply_update d u)))
          (set_urls (MongoUrlRepository.replace_first (Js.trim code)
                       (MongoUrlRepository.apply_update d u) (urls w)) w)
          [].
Proof.
  intros Hs Hd Hf. unfold MongoUrlRepository.update,
    MongoUrlRepository.next_fault. rewrite Hs, Hf.
  unfold MongoUrlRepository.apply_update at 1 2. rewrite Hd.
  cbn [default shortCode option_map]. rewrite String.eqb_refl.
  reflexivity.
Qed.

Lemma update_unknown (code : string) (d : UpdateData) (w : World) :
  storeFaults w = [] ->
  MongoUrlRepository.find_by_code code (urls w) = None ->
  MongoUrlRepository.update code d w = mkRun (Returned None) w [].
Proof.
  intros Hs Hf. unfold MongoUrlRepository.update,
    MongoUrlRepository.next_fault. now rewrite Hs, Hf.
Qed.












Lemma map_replace_first {B} (f : Link -> B) (code : string) (u u' : Link)
  (l : list Link) :
  MongoUrlRepository.find_by_code code l = Some u -> f u' = f u ->
  map f (MongoUrlRepository.replace_first (Js.trim code) u' l) = map f l.
Proof.
  unfold MongoUrlRepository.find_by_code,
    MongoUrlRepository.first_with_code.
  generalize (Js.trim code) as k. intros k H Hfu.
  induction l as [|x l IH]; simpl in *; [reflexivity|].
  destruct (shortCode x =? k)%string; simpl.
  - injection H as ->. now rewrite Hfu.
  - now rewrite IH.
Qed.

Lemma keeps_cache_delete {B} (f : World -> B) (key : string) :
  (forall v w, f (set_cacheFaults v w) = f w) ->
  (forall v w, f (set_cache v w) = f w) ->
  keeps f (Cache.delete key).
Proof.
  intros F1 F2 w. unfold Cache.delete, Cache.next_fault.
  destruct (cacheFaults w) as [|[] fs]; cbn [world];
    now rewrite ?F2, ?F1.
Qed.

Lemma keeps_invalidate {B} (f : World -> B) (code : string)
  (o : option Link) :
  (forall v w, f (set_cacheFaults v w) = f w) ->
  (forall v w, f (set_cache v w) = f w) ->
  keeps f (ShortenerService.invalidate code o).
Proof.
  intros F1 F2. unfold ShortenerService.invalidate.
  destruct o; [|apply keeps_ret].
  apply keeps_bind; [now apply keeps_cache_delete|intros; apply keeps_ret].
Qed.

(** What an update leaves of the collection, projected by [f]. *)
Lemma update_map {B} (f : Link -> B) (code : string) (d : UpdateData)
  (w : World) :
  (forall u, f (MongoUrlRepository.apply_update d u) = f u) ->
  map f (urls (world (MongoUrlRepository.update code d w))) =
    map f (urls w).
Proof.
  intros Hf. unfold MongoUrlRepository.update, MongoUrlRepository.next_fault.
  destruct (storeFaults w) as [|[] fs]; cbn [world urls]; try reflexivity;
    (destruct (MongoUrlRepository.find_by_code code (urls w)) as [u|] eqn:E;
     [|reflexivity]);
    (destruct (negb _ && _); [reflexivity|]);
    cbn [world urls set_urls set_storeFaults];
    now apply (map_replace_first f code u).
Qed.

Lemma updateUrl_map {B} (f : Link -> B) (code : string) (d : UpdateData)
  (w : World) :
  (forall u, f (MongoUrlRepository.apply_update
                  (ShortenerService.strip_shortCode d) u) = f u) ->
  map f (urls (world (ShortenerService.updateUrl code d w))) =
    map f (urls w).
Proof.
  intros Hf. unfold ShortenerService.updateUrl. rewrite bind_world.
  pose proof (update_map f code (ShortenerService.strip_shortCode d) w Hf)
    as U.
  destruct (outcome (MongoUrlRepository.update code
                       (ShortenerService.strip_shortCode d) w)) as [o| |];
    try exact U.
  rewrite (keeps_invalidate (fun x => map f (urls x))); [exact U|field_frame..].
Qed.

(** X20: for an update made of the fields [shortCode], [isActive] and
    [expiresAt], [updateUrl] changes no link's original URL, alias, owner
    or creation time, and no link's short code unless the update carries
    the empty string as [shortCode]: a non-empty [shortCode] is taken out
    of the update before it is applied, an empty one is not. *)
Theorem updateUrl_keeps_identity (code : string) (d : UpdateData)
  (w : World) :
  let w' := world (ShortenerService.updateUrl code d w) in
  (up_shortCode d <> Some "" ->
   map shortCode (urls w') = map shortCode (urls w)) /\
  map originalUrl (urls w') = map originalUrl (urls w) /\
  map customAlias (urls w') = map customAlias (urls w) /\
  map userId (urls w') = map userId (urls w) /\
  map createdAt (urls w') = map createdAt (urls w).
Proof.
  cbv zeta. split; [|repeat apply conj; apply updateUrl_map; reflexivity].
  intros Hne. apply updateUrl_map. intros u.
  unfold ShortenerService.strip_shortCode.
  destruct (up_shortCode d) as [c|] eqn:E; [|simpl; now rewrite E].
  destruct c as [|a c]; [congruence|]. reflexivity.
Qed.

(** An update that names another short code: the code stays, the link is
    deactivated. *)
Lemma updateUrl_keeps_identity_witness :
  let w := set_urls [Examples.plain_link] (Examples.fresh 1000) in
  let d := mkUpdateData (Some "other") (Some false) (Some (Some 9000%Z)) in
  map shortCode (urls (world (ShortenerService.updateUrl "docs123" d w))) =
    ["docs123"] /\
  map isActive (urls (world (ShortenerService.updateUrl "docs123" d w))) =
    [false].
Proof.
  intros w d. split; [|vm_compute; reflexivity].
  destruct (updateUrl_keeps_identity "docs123" d w) as (H & _).
  rewrite H by discriminate. reflexivity.
Defined.







Lemma cache_delete_soft (key : string) (w : World) (fs : list CacheFault) :
  cacheFaults w = CacheSoftFail :: fs ->
  Cache.delete key w = mkRun (Returned false) (set_cacheFaults fs w) [].
Proof.
  intros Hc. unfold Cache.delete, Cache.next_fault. now rewrite Hc.
Qed.

(** X22: when the deletion of the cache entry fails inside the cache
    client, which then answers [false] instead of throwing,
    [deactivateUrl] still returns the deactivated link and the store
    holds it as inactive, but a resolution made while the entry that was
    left behind is live still returns the URL. *)
Theorem deactivation_waits_for_the_cache (analytics : bool)
  (code url : string) (rd : option RequestData) (w : World) (u : Link)
  (expiry : Z) (fs : list CacheFault) :
  storeFaults w = [] -> cacheFaults w = CacheSoftFail :: fs ->
  hd CacheOk fs = CacheOk ->
  Js.truthy code = true -> Js.truthy url = true ->
  MongoUrlRepository.find_by_code code (urls w) = Some u ->
  cache w !! ("url:" +:+ code) = Some (url, expiry) -> (now w < expiry)%Z ->
  let r := ShortenerService.deactivateUrl code w in
  (exists u', outcome r = Returned (Some u') /\ isActive u' = false /\
     MongoUrlRepository.find_by_code code (urls (world r)) = Some u') /\
  outcome (ResolveUrl.execute analytics code rd (world r)) =
    Returned (ResolveUrl.mkResult url None).
Proof.
  intros Hs Hc Hfs Ht Hu Hf He Hl r.
  destruct (find_by_code_some _ _ _ Hf) as (Hcode & _).
  unfold r, ShortenerService.deactivateUrl.
  rewrite (bind_returned _ _ _ _ _ _
             (update_healthy code (mkUpdateData None (Some false) None) w u
                Hs eq_refl Hf)).
  unfold ShortenerService.invalidate.
  set (u' := MongoUrlRepository.apply_update _ u).
  set (w1 := set_urls _ w).
  rewrite (bind_returned _ _ _ _ _ _
             (cache_delete_soft ("url:" +:+ code) w1 fs Hc)).
  cbn [outcome world].
  set (w2 := set_cacheFaults fs w1).
  split.
  - exists u'. split; [reflexivity|]. split; [reflexivity|].
    apply (find_by_code_replace_first code u u' (urls w) Hf). exact Hcode.
  - unfold ResolveUrl.execute. rewrite Ht. cbn [negb].
    assert (Hh : hd CacheOk (cacheFaults w2) = CacheOk) by exact Hfs.
    assert (He2 : cache w2 !! ("url:" +:+ code) = Some (url, expiry))
      by exact He.
    assert (Hl2 : (now w2 < expiry)%Z) by exact Hl.
    rewrite (bind_returned _ _ _ _ _ _
               (getFromCache_hit code url expiry w2 Hh He2 Hl2)).
    rewrite Hu. cbn [outcome]. rewrite bind_outcome. cbn [outcome ret].
    rewrite bind_outcome.
    destruct rd as [r0|]; [destruct analytics|]; reflexivity.
Qed.

(** The cache client fails on the deletion: the deactivated link still
    resolves. *)
Lemma deactivation_waits_for_the_cache_witness :
  let w := set_cacheFaults [CacheSoftFail]
             (set_cache (<["url:docs123" := ("https://example.com/docs",
                                              90000%Z)]> ∅)
                (set_urls [Examples.plain_link] (Examples.fresh 1000))) in
  outcome (ResolveUrl.execute false "docs123" None
             (world (ShortenerService.deactivateUrl "docs123" w))) =
    Returned (ResolveUrl.mkResult "https://example.com/docs" None).
Proof.
  intros w.
  destruct (deactivation_waits_for_the_cache false "docs123"
              "https://example.com/docs" None w Examples.plain_link 90000 []
              eq_refl eq_refl eq_refl eq_refl eq_refl eq_refl eq_refl
              eq_refl) as (_ & H).
  exact H.
Defined.

(** ** Listings *)

Section Listings.

Import MongoUrlRepository.

Lemma insert_newest_perm (u : Link) (l : list Link) :
  Permutation (insert_newest u l) (u :: l).
Proof.
  induction l as [|x t IH]; simpl; [reflexivity|].
  destruct (createdAt x <=? createdAt u)%Z; [reflexivity|].
  rewrite IH. apply perm_swap.
Qed.

Lemma newest_first_perm (l : list Link) : Permutation (newest_first l) l.
Proof.
  induction l as [|x t IH]; simpl; [reflexivity|].
  rewrite insert_newest_perm. now constructor.
Qed.

Lemma insert_newest_sorted (u : Link) (l : list Link) :
  Sorted (fun a b => (createdAt b <= createdAt a)%Z) l ->
  Sorted (fun a b => (createdAt b <= createdAt a)%Z) (insert_newest u l).
Proof.
  induction 1 as [|x t Hs IH Hh]; simpl; [repeat constructor|].
  destruct (createdAt x <=? createdAt u)%Z eqn:E.
  - apply Z.leb_le in E. constructor; [now constructor|].
    constructor. exact E.
  - apply Z.leb_gt in E. constructor; [exact IH|].
    destruct Hh as [|y t' Hy]; simpl.
    + constructor. lia.
    + destruct (createdAt y <=? createdAt u)%Z; constructor; lia.
Qed.

Lemma newest_first_sorted (l : list Link) :
  Sorted (fun a b => (createdAt b <= createdAt a)%Z) (newest_first l).
Proof.
  induction l as [|x t IH]; simpl; [constructor|].
  now apply insert_newest_sorted.
Qed.

Lemma chunks_concat {A} (limit n : nat) (l : list A) :
  length l <= n * limit ->
  concat (map (fun i => firstn limit (skipn (i * limit) l)) (seq 0 n)) = l.
Proof.
  revert l. induction n as [|n IH]; intros l Hl.
  - destruct l; [reflexivity | simpl in Hl; lia].
  - rewrite <- cons_seq, <- seq_shift. cbn [map concat].
    rewrite map_map. change (0 * limit) with 0. cbn [skipn].
    rewrite (map_ext _ (fun i => firstn limit
                                   (skipn (i * limit) (skipn limit l)))).
    + rewrite IH; [apply firstn_skipn|].
      rewrite length_skipn. lia.
    + intros i. rewrite skipn_skipn. f_equal. f_equal. lia.
Qed.

Lemma pages_cover (total limit : nat) :
  1 <= limit -> total <= (total + limit - 1) / limit * limit.
Proof.
  intros Hl.
  pose proof (Nat.div_mod_eq (total + limit - 1) limit) as E.
  pose proof (Nat.mod_upper_bound (total + limit - 1) limit
                ltac:(lia)) as B.
  nia.
Qed.

Lemma pages_concat {A} (limit : nat) (l : list A) :
  1 <= limit ->
  concat (map (fun page => firstn limit (skipn ((page - 1) * limit) l))
              (seq 1 ((length l + limit - 1) / limit))) = l.
Proof.
  intros Hl. rewrite <- seq_shift, map_map.
  rewrite (map_ext _ (fun i => firstn limit (skipn (i * limit) l))).
  - apply chunks_concat. now apply pages_cover.
  - intros i. do 3 f_equal. lia.
Qed.

Lemma page_past_the_end {A} (limit page : nat) (l : list A) :
  1 <= limit -> (length l + limit - 1) / limit < page ->
  firstn limit (skipn ((page - 1) * limit) l) = [].
Proof.
  intros Hl Hp. rewrite skipn_all2; [now destruct limit|].
  pose proof (pages_cover (length l) limit Hl). nia.
Qed.

Lemma findAll_healthy (limit skip : nat) (q : Filter) (w : World) :
  storeFaults w = [] ->
  findAll limit (Z.of_nat skip) q w =
    mkRun (Returned (page_of skip limit
                       (newest_first (List.filter (matches q) (urls w)))))
          w [].
Proof.
  intros Hs. unfold findAll, next_fault. rewrite Hs.
  destruct (Z.of_nat skip <? 0)%Z eqn:E; [apply Z.ltb_lt in E; lia|].
  cbn [orb]. now rewrite Nat2Z.id.
Qed.

Lemma count_healthy (q : Filter) (w : World) :
  storeFaults w = [] ->
  count q w = mkRun (Returned (length (List.filter (matches q) (urls w))))
                    w [].
Proof. intros Hs. unfold count, ask, next_fault. now rewrite Hs. Qed.

Lemma skip_of_page (page limit : nat) :
  1 <= page ->
  ShortenerService.skip_of page limit = Z.of_nat ((page - 1) * limit).
Proof.
  intros Hp. unfold ShortenerService.skip_of.
  rewrite Nat2Z.inj_mul, Nat2Z.inj_sub by exact Hp. reflexivity.
Qed.

Lemma getAllUrls_healthy (page limit : nat) (q : Filter) (w : World) :
  1 <= page -> storeFaults w = [] ->
  ShortenerService.getAllUrls page limit q w =
    mkRun (Returned
             (mkPage (page_of ((page - 1) * limit) limit
                        (newest_first (List.filter (matches q) (urls w))))
                     (length (List.filter (matches q) (urls w))) page
                     (ShortenerService.ceil_div
                        (length (List.filter (matches q) (urls w))) limit)))
          w [].
Proof.
  intros Hp Hs. unfold ShortenerService.getAllUrls.
  rewrite (skip_of_page page limit Hp).
  unfold bind, ShortenerService.promise_all2.
  rewrite (findAll_healthy limit _ q w Hs). cbn [world outcome events].
  rewrite (count_healthy q w Hs). reflexivity.
Qed.

End Listings.

(** X23: with a store that answers and a limit of at least 1, the pages of
    [getAllUrls] partition the links that match the filter.  Page
    [p >= 1] holds the [limit] links from position [(p - 1) * limit] of
    the matching links in descending order of creation time, with their
    total number and the number of pages, the total divided by the limit
    and rounded up; no page holds more than [limit] links, the pages
    after the last are empty, and the pages from 1 to the last, put
    together, are all the matching links, each once. *)
Theorem getAllUrls_pages_partition (limit : nat) (q : Filter) (w : World) :
  1 <= limit -> storeFaults w = [] ->
  let matching := List.filter (MongoUrlRepository.matches q) (urls w) in
  let all := MongoUrlRepository.newest_first matching in
  let pages := (length matching + limit - 1) / limit in
  Permutation all matching /\
  Sorted (fun a b => (createdAt b <= createdAt a)%Z) all /\
  (forall page, 1 <= page ->
     let us := firstn limit (skipn ((page - 1) * limit) all) in
     ShortenerService.getAllUrls page limit q w =
       mkRun (Returned (mkPage us (length matching) page (Finite pages)))
             w [] /\
     length us <= limit /\ (pages < page -> us = [])) /\
  concat (map (fun page => firstn limit (skipn ((page - 1) * limit) all))
              (seq 1 pages)) = all.
Proof.
  intros Hl Hs matching all pages.
  assert (Hlen : length all = length matching).
  { apply Permutation_length, newest_first_perm. }
  split; [apply newest_first_perm|].
  split; [apply newest_first_sorted|]. split.
  - intros page Hp us. split; [|split].
    + rewrite (getAllUrls_healthy page limit q w Hp Hs).
      unfold MongoUrlRepository.page_of, ShortenerService.ceil_div.
      destruct limit as [|n]; [lia|]. reflexivity.
    + unfold us. rewrite length_firstn. lia.
    + intros Hlt. apply page_past_the_end; [exact Hl|]. now rewrite Hlen.
  - unfold pages. rewrite <- Hlen. now apply pages_concat.
Qed.

(** Six links in pages of four: the second page holds the last two. *)
Lemma getAllUrls_pages_partition_witness :
  let w := set_urls (Examples.plain_link :: Examples.five_taken)
             (Examples.fresh 1000) in
  outcome (ShortenerService.getAllUrls 2 4 (mkFilter None None) w) =
    Returned (mkPage (skipn 4 (urls w)) 6 2 (Finite 2)).
Proof.
  intros w.
  destruct (getAllUrls_pages_partition 4 (mkFilter None None) w
              ltac:(lia) eq_refl) as (_ & _ & H & _).
  destruct (H 2 ltac:(lia)) as (E & _). rewrite E. reflexivity.
Defined.

Lemma isAliasAvailable_healthy (a : string) (w : World) :
  storeFaults w = [] ->
  ShortenerService.isAliasAvailable a w =
    mkRun (Returned (negb (MongoUrlRepository.alias_exists a (urls w)))) w
          [EvCustomAliasExists a].
Proof.
  intros Hs. unfold ShortenerService.isAliasAvailable, bind,
    MongoUrlRepository.customAliasExists, MongoUrlRepository.query,
    MongoUrlRepository.next_fault.
  now rewrite Hs.
Qed.

(** X24: an alias that [isAliasAvailable] reports as taken is never given
    to a new link: creation with that alias leaves the collection as it
    is, and for a URL the store finds no link for it ends with
    [AliasInUse], or with [InvalidAliasFormat] when the alias is not well
    formed (as is an alias with white space around it, which the store
    trims before it compares). *)
Theorem unavailable_alias_is_never_given (fuel : nat) (d : UrlData)
  (w : World) (a : string) :
  storeFaults w = [] ->
  outcome (ShortenerService.isAliasAvailable a w) = Returned false ->
  in_customAlias d = Some a -> Js.truthy a = true ->
  let r := CreateShortUrl.execute fuel d w in
  urls (world r) = urls w /\
  (MongoUrlRepository.find_by_original_url
     (_normalizeUrl (in_originalUrl d)) (urls w) = None ->
   outcome r = Thrown (if CreateShortUrl._isValidCustomAlias a
                       then AliasInUse else InvalidAliasFormat)).
Proof.
  intros Hs Hav Ha Ht r.
  rewrite (isAliasAvailable_healthy a w Hs) in Hav. cbn [outcome] in Hav.
  assert (Hex : MongoUrlRepository.alias_exists a (urls w) = true).
  { destruct (MongoUrlRepository.alias_exists a (urls w));
      [reflexivity | discriminate]. }
  assert (Hs0 : hd false (storeFaults w) = false) by now rewrite Hs.
  destruct (MongoUrlRepository.find_by_original_url
              (_normalizeUrl (in_originalUrl d)) (urls w)) as [u|] eqn:Hf.
  { unfold r. rewrite (execute_existing fuel d w u Hs0 Hf).
    split; [reflexivity | discriminate]. }
  destruct (execute_new_url fuel d w Hs0 Hf) as (k & _ & E).
  cbv zeta in E. unfold r. rewrite E. cbn [outcome world].
  rewrite Ha. set (w1 := set_storeFaults (tl (storeFaults w)) w).
  destruct (CreateShortUrl._isValidCustomAlias a) eqn:Hv.
  - assert (Hs1 : hd false (storeFaults w1) = false)
      by (unfold w1; cbn; now rewrite Hs).
    unfold bind. rewrite (alias_step_run fuel a w1 Hs1 Ht Hv).
    change (urls w1) with (urls w). rewrite Hex. cbn [outcome world].
    split; [reflexivity | intros _; reflexivity].
  - unfold bind, CreateShortUrl.choose_code. rewrite Ht, Hv.
    cbn [negb outcome world throw].
    split; [reflexivity | intros _; reflexivity].
Qed.

(** The alias [docs] is taken: it is reported as unavailable and a request
    for it adds nothing. *)
Lemma unavailable_alias_is_never_given_witness :
  let taken := mkLink "https://example.com/docs" "docs" (Some "docs") None 0
                      None true in
  let d := mkUrlData "example.com/other" (Some "docs") None None in
  let w := set_urls [taken] (Examples.fresh 1000) in
  outcome (ShortenerService.isAliasAvailable "docs" w) = Returned false /\
  urls (world (CreateShortUrl.execute 10 d w)) = [taken].
Proof.
  intros taken d w. split; [reflexivity|].
  destruct (unavailable_alias_is_never_given 10 d w "docs" eq_refl eq_refl
              eq_refl eq_refl) as (H & _).
  exact H.
Defined.

(** ** The handlers *)

Lemma call_getUrl (fuel : nat) (code : string) :
  ShortenerService.call fuel ShortenerService.shortenerService "getUrl"
    [ShortenerService.AString code] =
  (let* u := MongoUrlRepository.findByShortCode code in
   ret (ShortenerService.ROptLink u)).
Proof. reflexivity. Qed.

Lemma call_shortenUrl (fuel : nat) (d : UrlData) :
  ShortenerService.call fuel ShortenerService.shortenerService "shortenUrl"
    [ShortenerService.AUrlData d] =
  (let* l := CreateShortUrl.execute fuel d in
   ret (ShortenerService.RLink l)).
Proof. reflexivity. Qed.

Lemma call_resolveUrl (fuel : nat) (args : list ShortenerService.Arg)
  (w : World) :
  ShortenerService.call fuel ShortenerService.shortenerService "resolveUrl"
    args w = mkRun (Thrown (NotAFunction "resolveUrl")) w [].
Proof. reflexivity. Qed.

(** X30: where redirection is handled directly and not by the Lambda
    function, the redirect endpoint never redirects: for every code and
    request the call of [shortenerService.resolveUrl] fails, the own
    property of that name being the use case and not a function; the
    error holds none of the texts the handler looks for and is handed to
    the error handler, which answers 500; store and cache are not
    touched. *)
Theorem redirect_never_redirects (driver : string) (fuel : nat)
  (code : string) (rd : RequestData) (w : World) :
  let r := UrlController.redirectToUrl driver fuel code rd w in
  outcome r = Returned (UrlController.NextError (NotAFunction "resolveUrl")) /\
  world r = w /\ events r = [] /\
  forall resp, outcome r = Returned resp ->
    UrlController.http_status resp = 500.
Proof.
  intros r.
  assert (E : r = mkRun (Returned (UrlController.NextError
                                     (NotAFunction "resolveUrl"))) w []).
  { unfold r, UrlController.redirectToUrl, try_catch, bind.
    rewrite call_resolveUrl. cbv zeta.
    cbn [outcome world events message].
    change (Js.includes
              ("shortenerService." +:+ "resolveUrl" +:+ " is not a function")
              "URL not found") with false.
    change (Js.includes
              ("shortenerService." +:+ "resolveUrl" +:+ " is not a function")
              "deactivated") with false.
    change (Js.includes
              ("shortenerService." +:+ "resolveUrl" +:+ " is not a function")
              "expired") with false.
    reflexivity. }
  rewrite E. cbn [outcome world events].
  split; [reflexivity|]. split; [reflexivity|]. split; [reflexivity|].
  intros resp [= <-]. reflexivity.
Qed.

Lemma from_repository_outcome (code : string) (w : World) :
  outcome (ResolveUrl.from_repository code w) =
    if hd false (storeFaults w) then Thrown (StoreError StoreUnavailable)
    else
      match MongoUrlRepository.find_by_code code (urls w) with
      | None => Thrown UrlNotFound
      | Some u =>
          if negb (isActive u) then Thrown LinkDeactivated
          else if Url.isExpired (now w) (expiresAt u) then Thrown LinkExpired
          else Returned (ResolveUrl.mkResult (originalUrl u) (Some u))
      end.
Proof.
  destruct (hd false (storeFaults w)) eqn:Hs.
  - unfold ResolveUrl.from_repository, MongoUrlRepository.findByShortCode.
    now rewrite (bind_thrown _ _ _ _ _ _ (query_throws _ _ w Hs)).
  - pose proof (from_repository_run code w Hs) as R. cbv zeta in R.
    destruct (MongoUrlRepository.find_by_code code (urls w)) as [u|];
      [|exact R].
    destruct (negb (isActive u)); [exact R|].
    destruct (Url.isExpired (now w) (expiresAt u)); [exact R|].
    now destruct R.
Qed.

Lemma resolve_endpoint_run (domain : string) (fuel : nat) (code : string)
  (w : World) :
  UrlController.resolveUrl domain fuel code w =
    mkRun
      (Returned
         (if hd false (storeFaults w)
          then UrlController.NextError (StoreError StoreUnavailable)
          else
            match MongoUrlRepository.find_by_code code (urls w) with
            | None => UrlController.NextHttpError 404 "Short URL not found"
            | Some u =>
                if negb (isActive u)
                then UrlController.NextHttpError 410
                       "This link has been deactivated"
                else if Url.isExpired (now w) (expiresAt u)
                then UrlController.NextHttpError 410 "This link has expired"
                else UrlController.Resolved (originalUrl u) (shortCode u)
                       (UrlController.shortUrl_of domain u)
            end))
      (set_storeFaults (tl (storeFaults w)) w)
      [EvFindByShortCode code].
Proof.
  unfold UrlController.resolveUrl.
  rewrite call_getUrl. unfold MongoUrlRepository.findByShortCode.
  set (w1 := set_storeFaults (tl (storeFaults w)) w).
  destruct (hd false (storeFaults w)) eqn:Hs.
  - assert (H1 : (let* u := MongoUrlRepository.query (EvFindByShortCode code)
                              (MongoUrlRepository.find_by_code code) in
                  ret (ShortenerService.ROptLink u)) w =
                 mkRun (Thrown (StoreError StoreUnavailable)) w1
                       [EvFindByShortCode code]).
    { now rewrite (bind_thrown _ _ _ _ _ _ (query_throws _ _ w Hs)). }
    unfold try_catch. rewrite (bind_thrown _ _ _ _ _ _ H1). reflexivity.
  - assert (H1 : (let* u := MongoUrlRepository.query (EvFindByShortCode code)
                              (MongoUrlRepository.find_by_code code) in
                  ret (ShortenerService.ROptLink u)) w =
                 mkRun (Returned (ShortenerService.ROptLink
                                    (MongoUrlRepository.find_by_code code
                                       (urls w)))) w1
                       [EvFindByShortCode code]).
    { now rewrite (bind_returned _ _ _ _ _ _ (query_answers _ _ w Hs)). }
    unfold try_catch. rewrite (bind_returned _ _ _ _ _ _ H1).
    cbn [outcome world events].
    destruct (MongoUrlRepository.find_by_code code (urls w)) as [u|];
      [|reflexivity].
    destruct (negb (isActive u)); [reflexivity|].
    rewrite bind_read. change (now w1) with (now w).
    destruct (Url.isExpired (now w) (expiresAt u)); reflexivity.
Qed.

(** X25: the resolve endpoint judges a link as resolution from the store
    does, and never touches the cache: where [from_repository] returns it
    answers with the original URL, the code of the stored link (the code
    of the request with white space trimmed from its ends) and the short
    URL made of it, with 404 for a code the store finds no link for, with
    410 for a deactivated and for an expired link, and it hands any other
    error on; with a store that answers it succeeds exactly when the
    store finds a link for which [isValidForRedirect] holds. *)
Theorem resolve_endpoint_applies_the_use_case_checks (domain : string)
  (fuel : nat) (code : string) (w : World) :
  let http := UrlController.resolveUrl domain fuel code w in
  let r := ResolveUrl.from_repository code w in
  match outcome r with
  | Returned res =>
      outcome http =
        Returned (UrlController.Resolved (ResolveUrl.res_originalUrl res)
                    (Js.trim code) (domain +:+ "/" +:+ Js.trim code))
  | Thrown UrlNotFound =>
      outcome http =
        Returned (UrlController.NextHttpError 404 "Short URL not found")
  | Thrown LinkDeactivated =>
      outcome http =
        Returned (UrlController.NextHttpError 410
                    "This link has been deactivated")
  | Thrown LinkExpired =>
      outcome http =
        Returned (UrlController.NextHttpError 410 "This link has expired")
  | Thrown e => outcome http = Returned (UrlController.NextError e)
  | OutOfFuel => False
  end /\
  cache (world http) = cache w /\ cacheFaults (world http) = cacheFaults w /\
  (hd false (storeFaults w) = false ->
   ((exists o c s, outcome http = Returned (UrlController.Resolved o c s)) <->
    exists u, MongoUrlRepository.find_by_code code (urls w) = Some u /\
              Url.isValidForRedirect (now w) u = true)).
Proof.
  intros http r. unfold http, r.
  rewrite resolve_endpoint_run, from_repository_outcome.
  cbn [outcome world cache cacheFaults set_storeFaults].
  split; [|split; [reflexivity|split; [reflexivity|]]].
  - destruct (hd false (storeFaults w)); [reflexivity|].
    destruct (MongoUrlRepository.find_by_code code (urls w)) as [u|] eqn:Hf;
      [|reflexivity].
    destruct (negb (isActive u)); [reflexivity|].
    destruct (Url.isExpired (now w) (expiresAt u)); [reflexivity|].
    cbn [ResolveUrl.res_originalUrl]. unfold UrlController.shortUrl_of.
    destruct (find_by_code_some _ _ _ Hf) as (-> & _). reflexivity.
  - intros Hs. rewrite Hs. unfold Url.isValidForRedirect.
    destruct (MongoUrlRepository.find_by_code code (urls w)) as [u|].
    + destruct (isActive u) eqn:Ea;
        destruct (Url.isExpired (now w) (expiresAt u)) eqn:Ee;
        cbn [negb]; split;
        try (intros (o & c & s & H); discriminate);
        try (intros (u' & [= <-] & H); rewrite Ea, Ee in H; discriminate).
      * intros _. exists u. now rewrite Ea, Ee.
      * intros _. eauto.
    + split.
      * intros (o & c & s & H). discriminate.
      * intros (u' & H & _). discriminate.
Qed.

(** X26: the create endpoint leaves the world as the use case does and
    answers 201 with the link and its short URL whenever the use case
    returns, also when it returns an existing link; it turns [AliasInUse]
    into 409 and [InvalidAliasFormat] into 400 with the text of the use
    case, and hands every other error of the use case on unchanged (an
    error raised outside this code as well, provided its text holds
    neither of the two phrases the handler looks for); a request that
    fails validation gets 400 and the use case is not run. *)
Theorem create_endpoint_status (driver domain : string) (fuel : nat)
  (originalUrl : string) (alias : option string) (expiresAt : option Z)
  (user : option string) (w : World) :
  let r := CreateShortUrl.execute fuel
             (mkUrlData originalUrl alias user expiresAt) w in
  let http := UrlController.createShortUrl driver domain fuel true
                originalUrl alias expiresAt user w in
  world http = world r /\
  match outcome r with
  | Returned l =>
      outcome http =
        Returned (UrlController.Created 201 l (domain +:+ "/" +:+ shortCode l))
  | Thrown AliasInUse =>
      outcome http =
        Returned (UrlController.NextHttpError 409
                    "Custom alias already in use. Please choose another one.")
  | Thrown InvalidAliasFormat =>
      outcome http =
        Returned (UrlController.NextHttpError 400
                    "Invalid custom alias format. Use alphanumeric characters and hyphens only.")
  | Thrown ((StoreError _ | CacheError | BadArguments | NotAFunction _) as e) =>
      Js.includes (message driver e) "Custom alias already in use" = false ->
      Js.includes (message driver e) "Invalid custom alias" = false ->
      outcome http = Returned (UrlController.NextError e)
  | Thrown e => outcome http = Returned (UrlController.NextError e)
  | OutOfFuel => outcome http = OutOfFuel
  end /\
  UrlController.createShortUrl driver domain fuel false originalUrl alias
    expiresAt user w =
    mkRun (Returned (UrlController.NextHttpError 400 "Validation error")) w [].
Proof.
  intros r http. split; [|split; [|reflexivity]].
  - unfold http, r, UrlController.createShortUrl. cbn [negb].
    rewrite call_shortenUrl. unfold try_catch, bind. cbv zeta.
    destruct (outcome (CreateShortUrl.execute fuel _ w)) as [l|e|];
      cbn [outcome world ret]; try reflexivity.
    destruct (_ && _); [reflexivity|]. destruct (_ && _); reflexivity.
  - unfold http, r, UrlController.createShortUrl. cbn [negb].
    rewrite call_shortenUrl. unfold try_catch, bind. cbv zeta.
    destruct (outcome (CreateShortUrl.execute fuel _ w)) as [l|e|];
      cbn [outcome world ret]; try reflexivity.
    destruct e; try reflexivity; intros H1 H2; rewrite H1, H2;
      rewrite !andb_false_r; reflexivity.
Qed.

(** ** The sanitizers *)

Section Sanitizers.

Import Validator.

Lemma free_of_cons (c x : ascii) (s : string) :
  free_of c (String x s) <-> x <> c /\ free_of c s.
Proof. unfold free_of. simpl. tauto. Qed.

Lemma free_of_app (c : ascii) (a b : string) :
  free_of c (a +:+ b) <-> free_of c a /\ free_of c b.
Proof.
  induction a as [|x a IH].
  - unfold free_of. simpl. tauto.
  - change (String x a +:+ b) with (String x (a +:+ b)).
    rewrite !free_of_cons, IH. tauto.
Qed.

Lemma replace_char_free (c : ascii) (by_ s : string) :
  free_of c by_ -> free_of c (replace_char c by_ s).
Proof.
  intros Hb. induction s as [|x s IH]; simpl; [intros []|].
  destruct (Ascii.eqb x c) eqn:E.
  - apply free_of_app. now split.
  - apply free_of_cons. split; [now apply Ascii.eqb_neq|exact IH].
Qed.

Lemma replace_char_keeps_free (c d : ascii) (by_ s : string) :
  free_of d by_ -> free_of d s -> free_of d (replace_char c by_ s).
Proof.
  intros Hb. induction s as [|x s IH]; simpl; [auto|].
  intros H. apply free_of_cons in H as (Hx & Hs).
  destruct (Ascii.eqb x c).
  - apply free_of_app. auto.
  - apply free_of_cons. auto.
Qed.

Lemma replace_char_id (c : ascii) (by_ s : string) :
  free_of c s -> replace_char c by_ s = s.
Proof.
  induction s as [|x s IH]; simpl; [reflexivity|].
  intros H. apply free_of_cons in H as (Hx & Hs).
  apply Ascii.eqb_neq in Hx. now rewrite Hx, IH.
Qed.

Lemma free_of_literal (c : ascii) (s : string) :
  forallb (fun x => negb (Ascii.eqb x c)) (list_ascii_of_string s) = true ->
  free_of c s.
Proof.
  unfold free_of. intros H Hin. rewrite forallb_forall in H.
  specialize (H c Hin). now rewrite Ascii.eqb_refl in H.
Qed.

Lemma sanitizeHtml_free (html : string) :
  free_of "<" (sanitizeHtml html) /\ free_of ">" (sanitizeHtml html) /\
  free_of quot (sanitizeHtml html) /\ free_of apos (sanitizeHtml html).
Proof.
  unfold sanitizeHtml. destruct (negb (Js.truthy html)).
  { repeat split; intros []. }
  repeat split.
  - do 3 (apply replace_char_keeps_free;
          [now apply free_of_literal|]).
    apply replace_char_free. now apply free_of_literal.
  - do 2 (apply replace_char_keeps_free;
          [now apply free_of_literal|]).
    apply replace_char_free. now apply free_of_literal.
  - apply replace_char_keeps_free; [now apply free_of_literal|].
    apply replace_char_free. now apply free_of_literal.
  - apply replace_char_free. now apply free_of_literal.
Qed.

(** X27: the output of [sanitizeHtml] holds none of the characters [<] and
    [>], the double quote and the apostrophe; sanitizing a second time
    changes nothing, as the ampersand is not escaped; the output is never
    shorter than the input. *)
Theorem sanitizeHtml_escapes_once (html : string) :
  (forall c, In c ["<"; ">"; quot; apos]%char ->
     ~ In c (list_ascii_of_string (sanitizeHtml html))) /\
  sanitizeHtml (sanitizeHtml html) = sanitizeHtml html /\
  String.length html <= String.length (sanitizeHtml html).
Proof.
  destruct (sanitizeHtml_free html) as (H1 & H2 & H3 & H4).
  split; [|split].
  - intros c [<-|[<-|[<-|[<-|[]]]]]; assumption.
  - set (s := sanitizeHtml html) in *. unfold sanitizeHtml.
    destruct (negb (Js.truthy s)) eqn:E.
    + destruct s; [reflexivity | discriminate].
    + rewrite (replace_char_id "<" _ s H1), (replace_char_id ">" _ s H2),
        (replace_char_id quot _ s H3).
      exact (replace_char_id apos _ s H4).
  - unfold sanitizeHtml. destruct html as [|x r]; [reflexivity|].
    cbn [Js.truthy String.eqb negb].
    assert (G : forall c by_ s, 1 <= String.length by_ ->
              String.length s <= String.length (replace_char c by_ s)).
    { intros c by_ s Hb. induction s as [|y s IH]; simpl; [lia|].
      destruct (Ascii.eqb y c); simpl; [|lia].
      rewrite append_length. lia. }
    etransitivity; [apply (G "<"%char "&lt;"); simpl; lia|].
    etransitivity; [apply (G ">"%char "&gt;"); simpl; lia|].
    etransitivity; [apply (G quot "&quot;"); simpl; lia|].
    apply (G apos "&#39;"). simpl. lia.
Qed.

Lemma remove_chars_none (p : ascii -> bool) (s : string) :
  forallb (fun c => negb (p c)) (list_ascii_of_string (remove_chars p s))
    = true.
Proof.
  induction s as [|x s IH]; simpl; [reflexivity|].
  destruct (p x) eqn:E; [exact IH|]. simpl. now rewrite E.
Qed.

Lemma remove_chars_id (p : ascii -> bool) (s : string) :
  forallb (fun c => negb (p c)) (list_ascii_of_string s) = true ->
  remove_chars p s = s.
Proof.
  induction s as [|x s IH]; simpl; [reflexivity|].
  intros H. apply andb_true_iff in H as (Hx & Hs).
  apply negb_true_iff in Hx. now rewrite Hx, IH.
Qed.

Lemma remove_chars_length (p : ascii -> bool) (s : string) :
  String.length (remove_chars p s) <= String.length s.
Proof.
  induction s as [|x s IH]; simpl; [lia|]. destruct (p x); simpl; lia.
Qed.

(** X28: the output of [sanitizeForDb] holds no dollar sign, brace,
    parenthesis or square bracket; sanitizing a second time changes
    nothing, an input without these characters is returned as it is, and
    the output is never longer than the input. *)
Theorem sanitizeForDb_strips_operators (input : string) :
  (forall c, In c ["$"; "{"; "}"; "("; ")"; "["; "]"]%char ->
     ~ In c (list_ascii_of_string (sanitizeForDb input))) /\
  sanitizeForDb (sanitizeForDb input) = sanitizeForDb input /\
  ((forall c, In c (list_ascii_of_string input) ->
      db_operator_char c = false) -> sanitizeForDb input = input) /\
  String.length (sanitizeForDb input) <= String.length input.
Proof.
  assert (Hnone : forallb (fun c => negb (db_operator_char c))
                    (list_ascii_of_string (sanitizeForDb input)) = true).
  { unfold sanitizeForDb. destruct (negb (Js.truthy input)); [reflexivity|].
    apply remove_chars_none. }
  split; [|split; [|split]].
  - intros c Hc Hin. rewrite forallb_forall in Hnone.
    specialize (Hnone c Hin). apply negb_true_iff in Hnone.
    assert (db_operator_char c = true); [|congruence].
    unfold db_operator_char. apply existsb_exists. exists c.
    split; [exact Hc | apply Ascii.eqb_refl].
  - set (s := sanitizeForDb input) in *. unfold sanitizeForDb.
    destruct (negb (Js.truthy s)) eqn:E.
    + destruct s; [reflexivity | discriminate].
    + now apply remove_chars_id.
  - intros Hfree. unfold sanitizeForDb.
    destruct input as [|x r]; [reflexivity|].
    cbn [Js.truthy String.eqb negb]. apply remove_chars_id.
    apply forallb_forall. intros c Hc. now rewrite (Hfree c Hc).
  - unfold sanitizeForDb. destruct (negb (Js.truthy input)); [simpl; lia|].
    apply remove_chars_length.
Qed.

End Sanitizers.

(** ** Cache keys *)

Lemma includes_colon_cons (x : ascii) (r : string) :
  Js.includes (String x r) ":" = false <->
  x <> ":"%char /\ Js.includes r ":" = false.
Proof.
  cbn [Js.includes String.prefix].
  destruct (ascii_dec x ":") as [->|Hne].
  - simpl. destruct r; simpl; split; try discriminate; intros [H _];
      congruence.
  - destruct (ascii_dec ":" x) as [E|_]; [congruence|].
    cbn [orb]. tauto.
Qed.

Lemma split_at_colon (a a' b b' : string) :
  Js.includes a ":" = false -> Js.includes a' ":" = false ->
  a +:+ ":" +:+ b = a' +:+ ":" +:+ b' -> a = a' /\ b = b'.
Proof.
  revert a'. induction a as [|x a IH]; intros [|x' a'] Ha Ha' E.
  - cbn in E. injection E as E. now split.
  - apply includes_colon_cons in Ha' as (Hx & _). cbn in E.
    injection E as E _. congruence.
  - apply includes_colon_cons in Ha as (Hx & _). cbn in E.
    injection E as E _. congruence.
  - apply includes_colon_cons in Ha as (_ & Ha).
    apply includes_colon_cons in Ha' as (_ & Ha').
    cbn in E. injection E as Ex E. subst x'.
    destruct (IH a' Ha Ha' E) as (Ea & Eb). subst. now split.
Qed.

Lemma alias_has_no_colon (a : string) :
  CreateShortUrl._isValidCustomAlias a = true -> Js.includes a ":" = false.
Proof.
  unfold CreateShortUrl._isValidCustomAlias. intros H.
  apply andb_true_iff in H as (H & _). apply andb_true_iff in H as (H & _).
  assert (G : forallb CreateShortUrl.alias_char (list_ascii_of_string a)
              = true).
  { destruct (list_ascii_of_string a); [discriminate | exact H]. }
  clear H. induction a as [|x a IH]; [reflexivity|].
  simpl in G. apply andb_true_iff in G as (Hx & G).
  apply includes_colon_cons. split; [|now apply IH].
  intros ->. discriminate.
Qed.

(** X29: cache keys do not collide.  For codes and views without a colon,
    [_createCacheKey] gives equal keys only for equal code, view and
    options; no key of the analytics cache equals a key [url:<code>] of
    the URL cache; the keys of two different codes differ; and a custom
    alias that [_isValidCustomAlias] accepts holds no colon. *)
Theorem cache_keys_do_not_collide :
  (forall c v o c' v' o',
     Js.includes c ":" = false -> Js.includes c' ":" = false ->
     Js.includes v ":" = false -> Js.includes v' ":" = false ->
     GetUrlAnalytics._createCacheKey c v o =
       GetUrlAnalytics._createCacheKey c' v' o' ->
     c = c' /\ v = v' /\ o = o') /\
  (forall code c v o,
     "url:" +:+ code <> GetUrlAnalytics._createCacheKey c v o) /\
  (forall code code', "url:" +:+ code = "url:" +:+ code' -> code = code') /\
  (forall a, CreateShortUrl._isValidCustomAlias a = true ->
     Js.includes a ":" = false).
Proof.
  repeat apply conj.
  - intros c v o c' v' o' Hc Hc' Hv Hv' E.
    unfold GetUrlAnalytics._createCacheKey in E.
    change ("analytics:" +:+ c +:+ ":" +:+ v +:+ ":" +:+ o)
      with ("analytics:" +:+ (c +:+ ":" +:+ (v +:+ ":" +:+ o))) in E.
    change ("analytics:" +:+ c' +:+ ":" +:+ v' +:+ ":" +:+ o')
      with ("analytics:" +:+ (c' +:+ ":" +:+ (v' +:+ ":" +:+ o'))) in E.
    simpl in E. injection E as E.
    destruct (split_at_colon _ _ _ _ Hc Hc' E) as (-> & E2).
    destruct (split_at_colon _ _ _ _ Hv Hv' E2) as (-> & ->).
    now repeat split.
  - intros code c v o. unfold GetUrlAnalytics._createCacheKey.
    intros E. simpl in E. discriminate.
  - intros code code' E. simpl in E. now injection E.
  - exact alias_has_no_colon.
Qed.

(** ** Examples for the referrer rows *)

(** Three clicks on the code, none with an empty referrer, and a click on
    another code. *)
Lemma referrer_rows_exact_witness :
  let evs := [mkClickEvent "docs123" "203.0.113.7" None 10;
              mkClickEvent "docs123" "203.0.113.9"
                (Some "https://news.example/") 30;
              mkClickEvent "other00" "203.0.113.9" (Some "") 35;
              mkClickEvent "docs123" "203.0.113.9"
                (Some "https://news.example/") 40] in
  let rows := map MongoAnalyticsRepository.relabel
                  (MongoAnalyticsRepository.aggregate "docs123" evs) in
  plain_referrers "docs123" evs /\
  List.NoDup (map fst rows) /\
  forall label n,
    In (label, n) rows <->
    0 < n /\ n = clicks_with_label "docs123" label evs.
Proof.
  intros evs rows.
  assert (Hp : plain_referrers "docs123" evs).
  { intros e He. vm_compute in He.
    destruct He as [<-|[<-|[<-|[]]]]; split; discriminate. }
  split; [exact Hp|]. exact (referrer_rows_exact "docs123" evs Hp).
Defined.

(** Four clicks on a link, nothing cached. *)
Lemma execute_referrers_on_miss_witness :
  let w := set_clicks Examples.four_clicks
             (set_urls [Examples.plain_link] (Examples.fresh 1000)) in
  outcome (GetUrlAnalytics.execute_referrers "docs123" w) =
    Returned (map MongoAnalyticsRepository.relabel
                (MongoAnalyticsRepository.aggregate "docs123" (clicks w))).
Proof.
  intros w.
  apply (execute_referrers_on_miss "docs123" w); reflexivity.
Defined.
